(** * TubeSwipe: the feed-aggregation service

    A shallow embedding of [app/services/youtube.py] and of the short-form
    classifier of [app/services/utils.py], with the properties of the feed
    cache, the filter chain, the ordering and the saved-status index; then
    of the duration parser of [utils.py] and of the mute list of
    [app/services/storage.py].

    The service talks to collaborators (the platform API behind the
    [youtube] resource, the mute-list file, the probe transport, the clock).
    They are modelled as functions over an abstract [World]: every call takes
    the current world and returns its response together with the next world,
    so two calls with the same arguments may answer differently.  A call's
    [.execute()] either returns its response or raises.  The functions of the
    service are written in a monad that threads the process state (the
    module-level [FEED_CACHE] and the world), propagates exceptions, and
    records every collaborator call, clock reading and log record in the
    order in which the code performs them.

    The responses are dictionaries.  Where the service subscripts an item
    outside any [try] (lines 85, 342, 354, 381, 387, 391 and 422-434 of
    youtube.py) the key may be missing and the access raises [KeyError];
    the pages of the collection requests, which are read inside the [try]
    of their paging loops, are taken with well-formed items.  The debugging
    [print]s of [get_feed] write to the standard output only and are left
    out. *)

From Stdlib Require Import ZArith QArith Ascii String Sorted.
From stdpp Require Import gmap strings list.

Local Open Scope string_scope.
Local Open Scope Z_scope.

Set Warnings "-clear-no-such-hyp".

(** ** Values exchanged with the collaborators *)

(** Exceptions that reach the service.  All of them derive from Python's
    [Exception], so an [except Exception] clause catches every one. *)
Inductive exn : Type :=
| HttpError (status : Z)
| RefreshError
| TransportError
| ValueError
| TypeError
| KeyError.

(** What a collaborator call does: it returns its response or raises. *)
Inductive response (A : Type) : Type :=
| Returns (a : A)
| Raises (e : exn).
Arguments Returns {A} a.
Arguments Raises {A} e.

(** Outcome of running a piece of the service: a value, a raised exception,
    or [OutOfFuel] when a [while True] loop was cut by the model's bound. *)
Inductive result (A : Type) : Type :=
| Ok (a : A)
| Raise (e : exn)
| OutOfFuel.
Arguments Ok {A} a.
Arguments Raise {A} e.
Arguments OutOfFuel {A}.

(** The items of the responses are dictionaries that the service reads by
    subscripting.  A field of the records below is [None] when one of the
    subscripts that lead to it fails on the item (a key is missing): the
    access then raises, which the model records as [KeyError]. *)

(** An item of [subscriptions().list]: [item["snippet"]["resourceId"]["channelId"]]. *)
Record Subscription := { sub_channelId : option string }.

(** An item of [channels().list]:
    [item["contentDetails"]["relatedPlaylists"]["uploads"]]. *)
Record Channel := { uploads : option string }.

(** An item of [playlistItems().list(part="snippet,contentDetails")]: the
    fields of [v["snippet"]] the service reads, and [v.get('id')]. *)
Record PlaylistItem := {
  item_id : option string;
  videoId : option string;              (* ["snippet"]["resourceId"]["videoId"] *)
  title : option string;
  channelTitle : option string;
  thumbnail_high_url : option string;   (* ["snippet"]["thumbnails"]["high"]["url"] *)
  publishedAt : option string;
  channelId : option string
}.

(** A page of [playlistItems().list(part="contentDetails", maxResults=50)]:
    the [item["contentDetails"]["videoId"]] of its items and
    [response.get("nextPageToken")]. *)
Record ItemsPage := {
  page_videoIds : list string;
  items_nextPageToken : option string
}.

(** The dictionary [get_user_playlists] builds for one playlist. *)
Record Playlist := {
  pl_id : string;
  pl_title : string;
  pl_thumbnail : string;
  pl_privacy : string
}.

(** A page of [playlists().list(part="snippet,status", mine=True)]. *)
Record PlaylistsPage := {
  page_playlists : list Playlist;
  playlists_nextPageToken : option string
}.

(** [{'id': pl['id'], 'title': pl['title']}], an element of [saved_to]. *)
Record PlaylistRef := { ref_id : string; ref_title : string }.

(** A dictionary of the returned feed.  The entries of [get_mock_feed] carry
    no ["saved"] and no ["saved_to"] key: those are [None] here. *)
Record FeedEntry := {
  video_id : string;
  fe_title : string;
  channel_title : string;
  thumbnail_url : string;
  published_at : string;
  channel_id : string;
  saved : option bool;
  saved_to : option (list PlaylistRef)
}.

(** A [datetime]: naive (no offset) or aware; both carry microseconds, the
    aware one counted from the epoch in UTC. *)
Inductive datetime : Type :=
| Naive (us : Z)
| Aware (us : Z).

(** The module-level dictionary [FEED_CACHE].  [cache_data = None] is
    ["data": None]; [cache_key = None] is the absent ["key"] entry, which
    [FEED_CACHE.get("key")] reads as [None]. *)
Record cache := {
  cache_data : option (list FeedEntry);
  cache_timestamp : Q;
  cache_key : option string
}.

Definition FEED_CACHE_init : cache :=
  {| cache_data := None; cache_timestamp := 0%Q; cache_key := None |}.

Definition CACHE_DURATION : Q := 300%Q.

(** Log records, by the call that writes them. *)
Inductive level : Type := Info | Warning | Error.

Inductive message : Type :=
| Serving_feed_from_cache
| Feed_cache_updated (items : nat)
| Error_fetching_playlist (pid : string) (e : exn)
| Error_fetching_playlist_items (e : exn)
| Error_fetching_playlists (e : exn)
| Error_fetching_user_playlists (e : exn)
| Error_parsing_date (vid : option string) (e : exn)
| Could_not_fetch_items (title : string) (e : exn).

(** What a run of the service does, in order. *)
Inductive event : Type :=
| Call_subscriptions_list (r : response (list Subscription))
| Call_channels_list (ids : string) (r : response (list Channel))
| Call_playlistItems_snippet (playlistId : string) (r : response (list PlaylistItem))
| Call_playlists_list (pageToken : option string) (r : response PlaylistsPage)
| Call_playlistItems_ids (playlistId : string) (pageToken : option string)
    (r : response ItemsPage)
| Call_load_muted_channels (r : response (gset string))
| Call_AsyncClient (r : response unit)
| Call_head (url : string) (r : response Z)
| Call_aclose (r : response unit)
| Read_time (t : Q)
| Read_now (us : Z)
| Log (l : level) (m : message).

(** The calls that go to a collaborator (subscription source, channel
    metadata, feed contents, collection store, mute list, probe). *)
Definition is_collaborator_call (ev : event) : bool :=
  match ev with
  | Read_time _ | Read_now _ | Log _ _ => false
  | _ => true
  end.

Definition collaborator_calls (t : list event) : list event :=
  List.filter is_collaborator_call t.

(** ** Python helpers *)

(** Truth value of [check_playlist_id]: [None] and [""] are false. *)
Definition truthy_str (s : option string) : bool :=
  match s with
  | None | Some "" => false
  | Some _ => true
  end.

(** Truth value of [FEED_CACHE["data"]]: [None] and [[]] are false. *)
Definition truthy_data (d : option (list FeedEntry)) : bool :=
  match d with
  | None | Some [] => false
  | Some (_ :: _) => true
  end.

Definition Qltb (x y : Q) : bool := negb (Qle_bool y x).

(** [s.endswith('Z')] *)
Fixpoint endswith_Z (s : string) : bool :=
  match s with
  | EmptyString => false
  | String c EmptyString => Ascii.eqb c "Z"
  | String _ s' => endswith_Z s'
  end.

(** [s[:-1]] *)
Fixpoint drop_last (s : string) : string :=
  match s with
  | EmptyString => EmptyString
  | String _ EmptyString => EmptyString
  | String c s' => String c (drop_last s')
  end.

(** Lines 365-366: [if pub_str.endswith('Z'): pub_str = pub_str[:-1] + '+00:00']. *)
Definition normalize_utc (pub_str : string) : string :=
  if endswith_Z pub_str then drop_last pub_str ++ "+00:00" else pub_str.

(** [timedelta(hours=48)], in microseconds. *)
Definition hours_48 : Z := 48 * 3600 * 1000000.

(** [list.sort(key=..., reverse=True)] on a list whose keys have been
    computed: [key_of x] is the key of [x].  Python compares [str] keys by
    code point, which on UTF-8 strings is the bytewise order of
    [String.compare].  [list.sort] is stable and stays so under
    [reverse=True]: items with equal keys keep their order.  The stable
    descending arrangement of a list is unique (lemma
    [stable_descending_unique]), so an insertion sort computes it: an item
    moves past the items of strictly greater key only. *)
Fixpoint insert_newest_first {A : Type} (key_of : A -> string) (x : A) (l : list A)
  : list A :=
  match l with
  | [] => [x]
  | y :: l' =>
      if String.ltb (key_of x) (key_of y)
      then y :: insert_newest_first key_of x l'
      else x :: y :: l'
  end.

Fixpoint sort_newest_first {A : Type} (key_of : A -> string) (l : list A) : list A :=
  match l with
  | [] => []
  | x :: l' => insert_newest_first key_of x (sort_newest_first key_of l')
  end.

(** [raw_videos.sort(key=lambda x: x["snippet"]["publishedAt"], reverse=True)]
    (lines 390-393): the key of every item is computed first, which raises
    on an item without [publishedAt]; the items are then arranged by their
    keys. *)
Definition sort_by_publishedAt (raw_videos : list PlaylistItem)
  : option (list PlaylistItem) :=
  keys ← mapM publishedAt raw_videos;
  Some (sort_newest_first fst (zip keys raw_videos)).*2.

(** A comprehension [[v for v in raw_videos if v[...] <test>]] (lines 354
    and 387): the subscript is evaluated on every item, in order, and
    raises on the first item without the field. *)
Definition filter_on (field : PlaylistItem -> option string) (test : string -> bool)
    (raw_videos : list PlaylistItem) : option (list PlaylistItem) :=
  _ ← mapM field raw_videos;
  Some (List.filter (fun v => match field v with
                              | Some x => test x
                              | None => false
                              end) raw_videos).

(** [get_mock_feed] *)
Definition get_mock_feed : list FeedEntry :=
  [ {| video_id := "dQw4w9WgXcQ";
       fe_title := "Rick Astley - Never Gonna Give You Up (Official Music Video)";
       channel_title := "Rick Astley";
       thumbnail_url := "https://i.ytimg.com/vi/dQw4w9WgXcQ/hqdefault.jpg";
       published_at := "2009-10-25T10:00:00Z";
       channel_id := "UCuAXFkgsw1L7xaCfnd5JJOw";
       saved := None; saved_to := None |};
    {| video_id := "jNQXAC9IVRw";
       fe_title := "Me at the zoo";
       channel_title := "jawed";
       thumbnail_url := "https://i.ytimg.com/vi/jNQXAC9IVRw/hqdefault.jpg";
       published_at := "2005-04-24T03:31:52Z";
       channel_id := "UC4QZ_LsYcvcqPqGSqIZShGA";
       saved := None; saved_to := None |};
    {| video_id := "9bZkp7q19f0";
       fe_title := "PSY - GANGNAM STYLE(강남스타일) M/V";
       channel_title := "officialpsy";
       thumbnail_url := "https://i.ytimg.com/vi/9bZkp7q19f0/hqdefault.jpg";
       published_at := "2012-07-15T07:46:32Z";
       channel_id := "UCrDkAvwZum-UTjHmzDI2iIw";
       saved := None; saved_to := None |} ].

(** The saved-status index [saved_video_map] and the body of the loop
    [for vid in p_ids] (lines 409-414). *)
Definition add_saved (pl : Playlist) (vid : string)
    (saved_video_map : gmap string (list PlaylistRef)) : gmap string (list PlaylistRef) :=
  let m1 :=
    match saved_video_map !! vid with
    | None => <[vid := []]> saved_video_map
    | Some _ => saved_video_map
    end in
  let cur := default [] (m1 !! vid) in
  if existsb (fun p => String.eqb (ref_id p) (pl_id pl)) cur
  then m1
  else <[vid := (cur ++ [ {| ref_id := pl_id pl; ref_title := pl_title pl |} ])%list]> m1.

(** The loop [for vid in p_ids] over the set [p_ids].  A Python set is
    iterated in an arbitrary order; the map built does not depend on it
    (lemma [index_playlist_lookup]). *)
Definition index_playlist (pl : Playlist) (p_ids : gset string)
    (saved_video_map : gmap string (list PlaylistRef)) : gmap string (list PlaylistRef) :=
  set_fold (add_saved pl) saved_video_map p_ids.

(** The dictionary appended to [formatted_videos] (lines 421-437); [None]
    when one of the subscripts of lines 422 and 430-434 fails. *)
Definition format_video (saved_video_map : gmap string (list PlaylistRef))
    (video : PlaylistItem) : option FeedEntry :=
  vid_id ← videoId video;
  video_title ← title video;
  video_channel_title ← channelTitle video;
  video_thumbnail_url ← thumbnail_high_url video;
  video_published_at ← publishedAt video;
  video_channel_id ← channelId video;
  Some {| video_id := vid_id;
          fe_title := video_title;
          channel_title := video_channel_title;
          thumbnail_url := video_thumbnail_url;
          published_at := video_published_at;
          channel_id := video_channel_id;
          saved := Some (bool_decide (is_Some (saved_video_map !! vid_id)));
          saved_to := Some (default [] (saved_video_map !! vid_id)) |}.

(** [f"shorts:{include_shorts}"] *)
Definition cache_key_of (include_shorts : bool) : string :=
  "shorts:" ++ (if include_shorts then "True" else "False").

(** The set comprehension over the results of [asyncio.gather] (lines 42-44
    of utils.py): [if res: shorts_set.add(res)].  [res] is [None] or the id;
    the empty string is false as well. *)
Definition collect_shorts (results : list (option string)) : gset string :=
  foldl (fun shorts_set res =>
           match res with
           | Some vid => if truthy_str (Some vid) then shorts_set ∪ {[ vid ]} else shorts_set
           | None => shorts_set
           end) ∅ results.

(** ** The service *)

Section Service.

(** Everything outside the process: the platform, the mute-list file, the
    network, the clock. *)
Variable World : Type.

(** The module-level collaborators: [time.time()] (seconds, a rational
    number for the float), [datetime.now(timezone.utc)] (microseconds since
    the epoch), [datetime.fromisoformat] ([None] when it raises
    [ValueError]), [load_muted_channels()] of storage.py, which reads the
    mute-list file at every call, and the probe transport:
    [httpx.AsyncClient()] with the entry of its [async with] block,
    [client.head(url, follow_redirects=False)], which answers with the
    status code, and the closing of the client at the exit of the block. *)
Record Runtime := {
  time_time : World -> Q * World;
  datetime_now : World -> Z * World;
  fromisoformat : string -> option datetime;
  load_muted_channels : World -> response (gset string) * World;
  httpx_AsyncClient : World -> response unit * World;
  client_head : string -> World -> response Z * World;
  client_aclose : World -> response unit * World
}.

(** The [youtube] resource: each field is one request of the service,
    built and executed.  [response.get("items", [])] is the list carried by
    the response. *)
Record Resource := {
  subscriptions_list : World -> response (list Subscription) * World;
  channels_list : string -> World -> response (list Channel) * World;
  playlistItems_list_snippet : string -> World -> response (list PlaylistItem) * World;
  playlists_list : option string -> World -> response PlaylistsPage * World;
  playlistItems_list_ids : string -> option string -> World -> response ItemsPage * World
}.

Variable rt : Runtime.

Record state := { FEED_CACHE : cache; world : World }.

(** *** The monad *)

Definition M (A : Type) : Type := state -> result A * state * list event.

Definition ret {A} (a : A) : M A := fun s => (Ok a, s, []).

Definition bind {A B} (m : M A) (k : A -> M B) : M B :=
  fun s =>
    match m s with
    | (Ok a, s1, t1) => let '(r, s2, t2) := k a s1 in (r, s2, (t1 ++ t2)%list)
    | (Raise e, s1, t1) => (Raise e, s1, t1)
    | (OutOfFuel, s1, t1) => (OutOfFuel, s1, t1)
    end.

Definition raise {A} (e : exn) : M A := fun s => (Raise e, s, []).

Definition out_of_fuel {A} : M A := fun s => (OutOfFuel, s, []).

(** [try: m  except Exception as e: handler e] *)
Definition try_except {A} (m : M A) (handler : exn -> M A) : M A :=
  fun s =>
    match m s with
    | (Raise e, s1, t1) => let '(r, s2, t2) := handler e s1 in (r, s2, (t1 ++ t2)%list)
    | other => other
    end.

(** A collaborator call, recorded with its response. *)
Definition call {A} (f : World -> response A * World) (ev : response A -> event) : M A :=
  fun s =>
    let '(r, w) := f (world s) in
    let s' := {| FEED_CACHE := FEED_CACHE s; world := w |} in
    match r with
    | Returns a => (Ok a, s', [ev r])
    | Raises e => (Raise e, s', [ev r])
    end.

(** A clock reading. *)
Definition read_clock {A} (f : World -> A * World) (ev : A -> event) : M A :=
  fun s =>
    let '(a, w) := f (world s) in
    (Ok a, {| FEED_CACHE := FEED_CACHE s; world := w |}, [ev a]).

Definition log (l : level) (m : message) : M unit :=
  fun s => (Ok tt, s, [Log l m]).

Definition read_FEED_CACHE : M cache := fun s => (Ok (FEED_CACHE s), s, []).

Definition write_FEED_CACHE (c : cache) : M unit :=
  fun s => (Ok tt, {| FEED_CACHE := c; world := world s |}, []).

Notation "x <- m ;; k" := (bind m (fun x => k))
  (at level 100, m at next level, right associativity).
Notation "m ;; k" := (bind m (fun _ => k))
  (at level 100, right associativity).

(** *** utils.py: [check_is_short_parallel] *)

(** [check_single(client, vid)] *)
Definition check_single (vid : string) : M (option string) :=
  let url := "https://www.youtube.com/shorts/" ++ vid in
  try_except
    (status_code <- call (client_head rt url) (Call_head url) ;;
     if status_code =? 200 then ret (Some vid) else ret None)
    (fun _ => ret None).

(** [asyncio.gather] over the tasks: every task runs to its end and the results
    come back in the order of the tasks, whatever the order in which the
    requests complete.  The model runs the tasks in that order. *)
Fixpoint gather {A} (tasks : list (M A)) : M (list A) :=
  match tasks with
  | [] => ret []
  | task :: tasks' =>
      res <- task ;;
      results <- gather tasks' ;;
      ret (res :: results)
  end.

(** The [async with] block of line 38 creates the client before the first
    probe and closes it after the last one; neither is inside a [try]. *)
Definition check_is_short_parallel (video_ids : list string) : M (gset string) :=
  _ <- call (httpx_AsyncClient rt) Call_AsyncClient ;;
  results <- gather (map check_single video_ids) ;;
  _ <- call (client_aclose rt) Call_aclose ;;
  ret (collect_shorts results).

(** *** youtube.py *)

Definition get_subscriptions (youtube : Resource) : M (list Subscription) :=
  call (subscriptions_list youtube) Call_subscriptions_list.

(** A subscript, or a loop or comprehension of subscripts, outside any
    [try]: the value, or [KeyError]. *)
Definition subscript {A} (value : option A) : M A :=
  match value with
  | Some a => ret a
  | None => raise KeyError
  end.

Definition get_uploads_playlist_ids (youtube : Resource) (channel_ids : list string)
  : M (list string) :=
  let ids_string := String.concat "," channel_ids in
  items <- call (channels_list youtube ids_string) (Call_channels_list ids_string) ;;
  subscript (mapM uploads items).

(** The loop of [get_recent_videos_from_playlists]; [videos] is the list
    extended so far. *)
Fixpoint get_recent_videos_loop (youtube : Resource) (playlist_ids : list string)
    (videos : list PlaylistItem) : M (list PlaylistItem) :=
  match playlist_ids with
  | [] => ret videos
  | pid :: rest =>
      videos' <-
        try_except
          (items <- call (playlistItems_list_snippet youtube pid)
                         (Call_playlistItems_snippet pid) ;;
           ret (videos ++ items)%list)
          (fun e => log Error (Error_fetching_playlist pid e) ;; ret videos) ;;
      get_recent_videos_loop youtube rest videos'
  end.

Definition get_recent_videos_from_playlists (youtube : Resource)
    (playlist_ids : list string) : M (list PlaylistItem) :=
  get_recent_videos_loop youtube playlist_ids [].

(** The loop [for _ in range(10)] of [get_playlist_video_ids], with [n]
    rounds left.  A round ends the loop ([break]) when no further page
    token came back or when the request raised. *)
Fixpoint get_playlist_video_ids_loop (n : nat) (youtube : Resource) (playlist_id : string)
    (video_ids : gset string) (next_page_token : option string) : M (gset string) :=
  match n with
  | O => ret video_ids
  | S n' =>
      round <-
        try_except
          (page <- call (playlistItems_list_ids youtube playlist_id next_page_token)
                        (Call_playlistItems_ids playlist_id next_page_token) ;;
           let token := items_nextPageToken page in
           ret (video_ids ∪ list_to_set (page_videoIds page), token,
                negb (truthy_str token)))
          (fun e => log Error (Error_fetching_playlist_items e) ;;
                    ret (video_ids, next_page_token, true)) ;;
      let '(video_ids', token, stop) := round in
      if stop : bool then ret video_ids'
      else get_playlist_video_ids_loop n' youtube playlist_id video_ids' token
  end.

Definition get_playlist_video_ids (youtube : option Resource) (playlist_id : string)
  : M (gset string) :=
  match youtube with
  | None => ret ∅
  | Some yt => get_playlist_video_ids_loop 10 yt playlist_id ∅ None
  end.

(** The loop [while True] of [get_user_playlists]; it is cut after [fuel]
    rounds. *)
Fixpoint get_user_playlists_loop (fuel : nat) (youtube : Resource)
    (playlists : list Playlist) (next_page_token : option string) : M (list Playlist) :=
  match fuel with
  | O => out_of_fuel
  | S fuel' =>
      round <-
        try_except
          (page <- call (playlists_list youtube next_page_token)
                        (Call_playlists_list next_page_token) ;;
           let token := playlists_nextPageToken page in
           ret ((playlists ++ page_playlists page)%list, token, negb (truthy_str token)))
          (fun e => log Error (Error_fetching_playlists e) ;;
                    ret (playlists, next_page_token, true)) ;;
      let '(playlists', token, stop) := round in
      if stop : bool then ret playlists'
      else get_user_playlists_loop fuel' youtube playlists' token
  end.

Definition get_user_playlists (fuel : nat) (youtube : option Resource) : M (list Playlist) :=
  match youtube with
  | None =>
      ret [ {| pl_id := "mock_playlist_id"; pl_title := "Mock Playlist";
               pl_thumbnail := ""; pl_privacy := "private" |} ]
  | Some yt => get_user_playlists_loop fuel yt [] None
  end.

(** The date filter of [get_feed] (lines 359-377); [filtered_videos] is the
    list appended to so far.  The subscript of line 363 raises [KeyError];
    [datetime.fromisoformat] raises [ValueError]; comparing a naive
    [pub_date] with the aware [cutoff_time] raises [TypeError]; in each case
    the item is skipped. *)
Definition datetime_ge (pub_date : datetime) (cutoff_time : Z) : M bool :=
  match pub_date with
  | Aware us => ret (cutoff_time <=? us)
  | Naive _ => raise TypeError
  end.

Fixpoint filter_by_date (cutoff_time : Z) (raw_videos filtered_videos : list PlaylistItem)
  : M (list PlaylistItem) :=
  match raw_videos with
  | [] => ret filtered_videos
  | v :: rest =>
      filtered_videos' <-
        try_except
          (pub_str <- subscript (publishedAt v) ;;
           let pub_str := normalize_utc pub_str in
           pub_date <- match fromisoformat rt pub_str with
                       | Some d => ret d
                       | None => raise ValueError
                       end ;;
           recent <- datetime_ge pub_date cutoff_time ;;
           ret (if recent : bool then (filtered_videos ++ [v])%list else filtered_videos))
          (fun e => log Warning (Error_parsing_date (item_id v) e) ;; ret filtered_videos) ;;
      filter_by_date cutoff_time rest filtered_videos'
  end.

(** The loop [for pl in playlists] of [get_feed] (lines 405-417). *)
Fixpoint index_playlists (youtube : option Resource) (playlists : list Playlist)
    (saved_video_map : gmap string (list PlaylistRef))
  : M (gmap string (list PlaylistRef)) :=
  match playlists with
  | [] => ret saved_video_map
  | pl :: rest =>
      saved_video_map' <-
        try_except
          (p_ids <- get_playlist_video_ids youtube (pl_id pl) ;;
           ret (index_playlist pl p_ids saved_video_map))
          (fun e => log Warning (Could_not_fetch_items (pl_title pl) e) ;;
                    ret saved_video_map) ;;
      index_playlists youtube rest saved_video_map'
  end.

(** Lines 397-419.  In the source [saved_video_map] is updated in place, so
    the outer handler would keep what the loop added before the exception;
    no exception reaches that handler (lemmas [get_user_playlists_loop_run]
    and [index_playlists_run]). *)
Definition build_saved_video_map (fuel : nat) (youtube : option Resource)
  : M (gmap string (list PlaylistRef)) :=
  try_except
    (playlists <- get_user_playlists fuel youtube ;;
     index_playlists youtube playlists ∅)
    (fun e => log Error (Error_fetching_user_playlists e) ;; ret ∅).

(** The cache check of [get_feed] (lines 314-331): [Some data] when
    [FEED_CACHE["data"]] is served, [None] on every other branch.  The
    debugging line 315 reads the clock once before the check. *)
Definition feed_cache_lookup (key : string) (check_playlist_id : option string)
    (force_refresh : bool) : M (option (list FeedEntry)) :=
  _ <- read_clock (time_time rt) Read_time ;;
  c <- read_FEED_CACHE ;;
  if negb force_refresh && negb (truthy_str check_playlist_id) && truthy_data (cache_data c)
  then
    if bool_decide (cache_key c = Some key) then
      current_time <- read_clock (time_time rt) Read_time ;;
      let age := (current_time - cache_timestamp c)%Q in
      if Qltb age CACHE_DURATION then
        log Info Serving_feed_from_cache ;;
        ret (cache_data c)
      else ret None
    else ret None
  else ret None.

(** The cache update of [get_feed] (lines 439-447). *)
Definition update_cache (key : string) (check_playlist_id : option string)
    (formatted_videos : list FeedEntry) : M unit :=
  if negb (truthy_str check_playlist_id) then
    timestamp <- read_clock (time_time rt) Read_time ;;
    write_FEED_CACHE {| cache_data := Some formatted_videos;
                        cache_timestamp := timestamp;
                        cache_key := Some key |} ;;
    log Info (Feed_cache_updated (length formatted_videos))
  else ret tt.

(** Lines 336-449 of [get_feed], where [youtube] is a resource: the tests
    [and youtube] of line 380 and [if youtube:] of line 399 hold. *)
Definition assemble_feed (fuel : nat) (youtube : Resource) (include_shorts : bool)
    (check_playlist_id : option string) (key : string) : M (list FeedEntry) :=
  subs <- get_subscriptions youtube ;;
  match subs with
  | [] => ret []
  | _ :: _ =>
      channel_ids <- subscript (mapM sub_channelId subs) ;;
      upload_playlist_ids <- get_uploads_playlist_ids youtube channel_ids ;;
      raw_videos <- get_recent_videos_from_playlists youtube upload_playlist_ids ;;
      muted_channels <- call (load_muted_channels rt) Call_load_muted_channels ;;
      raw_videos <-
        subscript (filter_on channelId (fun c => bool_decide (c ∉ muted_channels))
                     raw_videos) ;;
      now <- read_clock (datetime_now rt) Read_now ;;
      let cutoff_time := now - hours_48 in
      raw_videos <- filter_by_date cutoff_time raw_videos [] ;;
      raw_videos <-
        (if negb include_shorts then
           video_ids <- subscript (mapM videoId raw_videos) ;;
           shorts_ids <- check_is_short_parallel video_ids ;;
           subscript (filter_on videoId (fun vid => bool_decide (vid ∉ shorts_ids))
                        raw_videos)
         else ret raw_videos) ;;
      raw_videos <- subscript (sort_by_publishedAt raw_videos) ;;
      saved_video_map <- build_saved_video_map fuel (Some youtube) ;;
      formatted_videos <- subscript (mapM (format_video saved_video_map) raw_videos) ;;
      update_cache key check_playlist_id formatted_videos ;;
      ret formatted_videos
  end.

(** [get_feed(youtube, include_shorts, check_playlist_id, force_refresh)] *)
Definition get_feed (fuel : nat) (youtube : option Resource) (include_shorts : bool)
    (check_playlist_id : option string) (force_refresh : bool) : M (list FeedEntry) :=
  let key := cache_key_of include_shorts in
  hit <- feed_cache_lookup key check_playlist_id force_refresh ;;
  match hit with
  | Some data => ret data
  | None =>
      match youtube with
      | None => ret get_mock_feed
      | Some yt => assemble_feed fuel yt include_shorts check_playlist_id key
      end
  end.

End Service.

Arguments time_time {World} _ _.
Arguments datetime_now {World} _ _.
Arguments fromisoformat {World} _ _.
Arguments load_muted_channels {World} _ _.
Arguments httpx_AsyncClient {World} _ _.
Arguments client_head {World} _ _ _.
Arguments client_aclose {World} _ _.
Arguments subscriptions_list {World} _ _.
Arguments channels_list {World} _ _ _.
Arguments playlistItems_list_snippet {World} _ _ _.
Arguments playlists_list {World} _ _ _.
Arguments playlistItems_list_ids {World} _ _ _ _.
Arguments FEED_CACHE {World} _.
Arguments world {World} _.
Arguments Build_state {World} _ _.
Arguments M : clear implicits.
Arguments ret {World A} _ _.
Arguments bind {World A B} _ _ _.
Arguments raise {World A} _ _.
Arguments out_of_fuel {World A} _.
Arguments try_except {World A} _ _ _.
Arguments call {World A} _ _ _.
Arguments read_clock {World A} _ _ _.
Arguments log {World} _ _ _.
Arguments read_FEED_CACHE {World} _.
Arguments write_FEED_CACHE {World} _ _.
Arguments check_single {World} rt vid _.
Arguments gather {World A} tasks _.
Arguments check_is_short_parallel {World} rt video_ids _.
Arguments subscript {World A} value _.
Arguments get_subscriptions {World} youtube _.
Arguments get_uploads_playlist_ids {World} youtube channel_ids _.
Arguments get_recent_videos_loop {World} youtube playlist_ids videos _.
Arguments get_recent_videos_from_playlists {World} youtube playlist_ids _.
Arguments get_playlist_video_ids_loop {World} n youtube playlist_id video_ids next_page_token _.
Arguments get_playlist_video_ids {World} youtube playlist_id _.
Arguments get_user_playlists_loop {World} fuel youtube playlists next_page_token _.
Arguments get_user_playlists {World} fuel youtube _.
Arguments datetime_ge {World} pub_date cutoff_time _.
Arguments filter_by_date {World} rt cutoff_time raw_videos filtered_videos _.
Arguments index_playlists {World} youtube playlists saved_video_map _.
Arguments build_saved_video_map {World} fuel youtube _.
Arguments feed_cache_lookup {World} rt key check_playlist_id force_refresh _.
Arguments update_cache {World} rt key check_playlist_id formatted_videos _.
Arguments assemble_feed {World} rt fuel youtube include_shorts check_playlist_id key _.
Arguments get_feed {World} rt fuel youtube include_shorts check_playlist_id force_refresh _.

(** ** Reading a run's record *)

(** The run served the cached data: line 324 wrote its log record. *)
Definition served_from_cache (t : list event) : bool :=
  existsb (fun ev => match ev with
                     | Log Info Serving_feed_from_cache => true
                     | _ => false
                     end) t.

(** The upload-feed requests of a run, with their responses, in order. *)
Definition snippet_calls (t : list event) : list (string * response (list PlaylistItem)) :=
  omap (fun ev => match ev with
                  | Call_playlistItems_snippet pid r => Some (pid, r)
                  | _ => None
                  end) t.

(** What one upload-feed request contributes: its items, or nothing when it
    raised. *)
Definition contribution (r : response (list PlaylistItem)) : list PlaylistItem :=
  match r with
  | Returns items => items
  | Raises _ => []
  end.

(** The raw items of a run, in fetch order. *)
Definition fetched (t : list event) : list PlaylistItem :=
  concat (map (fun c => contribution (snd c)) (snippet_calls t)).

(** The responses of the mute-list collaborator in a run. *)
Definition mute_reads (t : list event) : list (response (gset string)) :=
  omap (fun ev => match ev with
                  | Call_load_muted_channels r => Some r
                  | _ => None
                  end) t.

(** The probes of a run, with their responses, in order. *)
Definition head_calls (t : list event) : list (string * response Z) :=
  omap (fun ev => match ev with
                  | Call_head url r => Some (url, r)
                  | _ => None
                  end) t.

(** The clock reading the cache check compares with the stored timestamp:
    the second reading of [time.time()] from the state [s] (the first one
    belongs to the debugging line). *)
Definition lookup_time {World} (rt : Runtime World) (s : state World) : Q :=
  fst (time_time rt (snd (time_time rt (world s)))).

(** The date test of the filter: the item has a [publishedAt] which,
    normalized, parses to an aware datetime that is not before
    [cutoff_time]. *)
Definition is_recent {World} (rt : Runtime World) (cutoff_time : Z)
    (published : option string) : bool :=
  match published with
  | Some pub_str =>
      match fromisoformat rt (normalize_utc pub_str) with
      | Some (Aware us) => cutoff_time <=? us
      | _ => false
      end
  | None => false
  end.

(** ** A reference instance of the collaborators

    The theorems below hold for every world, runtime and resource.  The
    examples run the service on this instance: the world is the wall clock
    in seconds since the epoch, which every clock reading advances by one
    second; the responses depend on the arguments only. *)

Module Demo.

Definition digit_of (c : ascii) : option Z :=
  let n := Z.of_N (N_of_ascii c) in
  if (48 <=? n) && (n <=? 57) then Some (n - 48) else None.

Fixpoint read_digits (n : nat) (l : list ascii) (acc : Z) : option (Z * list ascii) :=
  match n with
  | O => Some (acc, l)
  | S n' =>
      match l with
      | c :: l' => d ← digit_of c; read_digits n' l' (acc * 10 + d)
      | [] => None
      end
  end.

Definition expect (c : ascii) (l : list ascii) : option (list ascii) :=
  match l with
  | c' :: l' => if Ascii.eqb c c' then Some l' else None
  | [] => None
  end.

Definition is_leap (y : Z) : bool :=
  (y mod 4 =? 0) && (negb (y mod 100 =? 0) || (y mod 400 =? 0)).

Definition days_in_month (y m : Z) : Z :=
  if m =? 2 then (if is_leap y then 29 else 28)
  else if (m =? 4) || (m =? 6) || (m =? 9) || (m =? 11) then 30
  else 31.

(** Days from 1970-01-01 to the civil date [y]-[m]-[d]. *)
Definition days_from_civil (y m d : Z) : Z :=
  let y' := if m <=? 2 then y - 1 else y in
  let era := y' / 400 in
  let yoe := y' - era * 400 in
  let mp := (m + 9) mod 12 in
  let doy := (153 * mp + 2) / 5 + d - 1 in
  let doe := yoe * 365 + yoe / 4 - yoe / 100 + doy in
  era * 146097 + doe - 719468.

(** [.fff] or [.ffffff], in microseconds; nothing is read without a dot. *)
Definition read_fraction (l : list ascii) : option (Z * list ascii) :=
  match l with
  | "."%char :: l' =>
      match read_digits 6 l' 0 with
      | Some r => Some r
      | None => '(ms, l'') ← read_digits 3 l' 0; Some (ms * 1000, l'')
      end
  | _ => Some (0, l)
  end.

(** [+HH:MM] or [-HH:MM], in seconds; [None] when the string ends here. *)
Definition read_offset (l : list ascii) : option (option Z) :=
  match l with
  | [] => Some None
  | sign :: l' =>
      sgn ← (if Ascii.eqb sign "+" then Some 1
             else if Ascii.eqb sign "-" then Some (-1) else None);
      '(h, l1) ← read_digits 2 l' 0;
      l2 ← expect ":" l1;
      '(m, l3) ← read_digits 2 l2 0;
      match l3 with
      | [] => if (h <? 24) && (m <? 60) then Some (Some (sgn * (h * 3600 + m * 60))) else None
      | _ => None
      end
  end.

(** [datetime.fromisoformat] on the layout
    [YYYY-MM-DD?HH:MM:SS[.fff[fff]][+HH:MM]]; any other string is refused. *)
Definition fromisoformat_ref (s : string) : option datetime :=
  let l := list_ascii_of_string s in
  '(y, l) ← read_digits 4 l 0;
  l ← expect "-" l;
  '(mo, l) ← read_digits 2 l 0;
  l ← expect "-" l;
  '(d, l) ← read_digits 2 l 0;
  l ← match l with _ :: l' => Some l' | [] => None end;
  '(h, l) ← read_digits 2 l 0;
  l ← expect ":" l;
  '(mi, l) ← read_digits 2 l 0;
  l ← expect ":" l;
  '(sec, l) ← read_digits 2 l 0;
  '(frac, l) ← read_fraction l;
  off ← read_offset l;
  if (1 <=? y) && (1 <=? mo) && (mo <=? 12) && (1 <=? d) && (d <=? days_in_month y mo)
     && (h <? 24) && (mi <? 60) && (sec <? 60)
  then
    let wall := (days_from_civil y mo d * 86400 + h * 3600 + mi * 60 + sec) * 1000000 + frac in
    Some (match off with
          | None => Naive wall
          | Some o => Aware (wall - o * 1000000)
          end)
  else None.

Definition runtime (muted : gset string) (status_of : string -> response Z) : Runtime Z :=
  {| time_time w := (inject_Z w, w + 1);
     datetime_now w := (w * 1000000, w + 1);
     fromisoformat := fromisoformat_ref;
     load_muted_channels w := (Returns muted, w);
     httpx_AsyncClient w := (Returns tt, w);
     client_head url w := (status_of url, w);
     client_aclose w := (Returns tt, w) |}.

Definition resource (subs : list Subscription) (channels : list Channel)
    (uploads_of : string -> response (list PlaylistItem))
    (playlists_page : option string -> response PlaylistsPage)
    (members_page : string -> option string -> response ItemsPage) : Resource Z :=
  {| subscriptions_list w := (Returns subs, w);
     channels_list _ w := (Returns channels, w);
     playlistItems_list_snippet pid w := (uploads_of pid, w);
     playlists_list token w := (playlists_page token, w);
     playlistItems_list_ids pid token w := (members_page pid token, w) |}.

(** 2023-10-27T12:00:00Z *)
Definition noon : Z := 1698408000.

Definition video (vid published channel : string) : PlaylistItem :=
  {| item_id := Some ("item-" ++ vid); videoId := Some vid; title := Some ("Video " ++ vid);
     channelTitle := Some "Channel 1"; thumbnail_high_url := Some "http://thumb";
     publishedAt := Some published; channelId := Some channel |}.

(** One hour old, and fifty hours old, at [noon]. *)
Definition recent_video : PlaylistItem := video "vid1" "2023-10-27T11:00:00Z" "UC123".
Definition old_video : PlaylistItem := video "vid2" "2023-10-25T10:00:00Z" "UC123".

Definition saved_playlist : Playlist :=
  {| pl_id := "PL1"; pl_title := "Watch later"; pl_thumbnail := ""; pl_privacy := "private" |}.

Definition one_page (pls : list Playlist) (token : option string) : response PlaylistsPage :=
  Returns {| page_playlists := pls; playlists_nextPageToken := None |}.

Definition members_vid1 (pid : string) (token : option string) : response ItemsPage :=
  Returns {| page_videoIds := ["vid1"]; items_nextPageToken := None |}.

(** One subscribed channel with the two uploads, one playlist holding
    [vid1]. *)
Definition youtube : Resource Z :=
  resource [ {| sub_channelId := Some "UC123" |} ] [ {| uploads := Some "UU123" |} ]
    (fun _ => Returns [recent_video; old_video])
    (one_page [saved_playlist]) members_vid1.

Definition rt : Runtime Z := runtime ∅ (fun _ => Returns 303).

(** A probe transport: [short1] is a short, [vid1] redirects, any other
    request fails. *)
Definition probe (url : string) : response Z :=
  if String.eqb url "https://www.youtube.com/shorts/short1" then Returns 200
  else if String.eqb url "https://www.youtube.com/shorts/vid1" then Returns 303
  else Raises TransportError.

Definition rt_probe : Runtime Z := runtime ∅ probe.

Definition start (c : cache) : state Z := {| FEED_CACHE := c; world := noon |}.

(** The entry the assembly makes of [recent_video]. *)
Definition recent_entry : FeedEntry :=
  {| video_id := "vid1"; fe_title := "Video vid1"; channel_title := "Channel 1";
     thumbnail_url := "http://thumb"; published_at := "2023-10-27T11:00:00Z";
     channel_id := "UC123"; saved := Some true;
     saved_to := Some [ {| ref_id := "PL1"; ref_title := "Watch later" |} ] |}.

(** A populated slot, stored a hundred seconds before [noon]. *)
Definition warm_cache : cache :=
  {| cache_data := Some [recent_entry];
     cache_timestamp := inject_Z (noon - 100);
     cache_key := Some "shorts:True" |}.


(** The same channel when its only upload is fifty hours old. *)
Definition youtube_stale : Resource Z :=
  resource [ {| sub_channelId := Some "UC123" |} ] [ {| uploads := Some "UU123" |} ]
    (fun _ => Returns [old_video])
    (one_page [saved_playlist]) members_vid1.

(** A user without subscriptions. *)
Definition youtube_no_subs : Resource Z :=
  resource [] [] (fun _ => Returns []) (one_page [saved_playlist]) members_vid1.

(** A playlist of eleven pages; [vid1] is on the last one. *)
Definition long_tokens : list string :=
  ["p1"; "p2"; "p3"; "p4"; "p5"; "p6"; "p7"; "p8"; "p9"; "p10"].

Fixpoint index_of (tk : string) (l : list string) : option nat :=
  match l with
  | [] => None
  | x :: l' => if String.eqb tk x then Some O else S <$> index_of tk l'
  end.

Definition long_page (k : nat) : ItemsPage :=
  {| page_videoIds := if Nat.eqb k 10 then ["vid1"] else ["other"];
     items_nextPageToken := long_tokens !! k |}.

Definition members_long (pid : string) (token : option string) : response ItemsPage :=
  match token with
  | None => Returns (long_page 0)
  | Some tk =>
      match index_of tk long_tokens with
      | Some k => Returns (long_page (S k))
      | None => Raises (HttpError 404)
      end
  end.

Definition youtube_long : Resource Z :=
  resource [ {| sub_channelId := Some "UC123" |} ] [ {| uploads := Some "UU123" |} ]
    (fun _ => Returns [recent_video])
    (one_page [saved_playlist]) members_long.

(** The members of a playlist of a [resource]: the ids of its pages, page
    after page from the first one, over at most [fuel] pages. *)
Fixpoint members_of (members_page : string -> option string -> response ItemsPage)
    (pid : string) (fuel : nat) (token : option string) : list string :=
  match fuel with
  | O => []
  | S fuel' =>
      match members_page pid token with
      | Returns page =>
          (page_videoIds page
           ++ match items_nextPageToken page with
              | Some tk => members_of members_page pid fuel' (Some tk)
              | None => []
              end)%list
      | Raises _ => []
      end
  end.

(** The runs of the examples. *)
Definition run := (result (list FeedEntry) * state Z * list event)%type.

Definition state_of (r : run) : state Z := snd (fst r).
Definition events_of (r : run) : list event := snd r.

(** A first request on the empty slot. *)
Definition first_run : run :=
  get_feed rt 5 (Some youtube) true None false (start FEED_CACHE_init).

(** A request on the populated slot. *)
Definition hit_run : run :=
  get_feed rt 5 (Some youtube) true None false (start warm_cache).

(** A first request when every upload is too old: the feed is empty. *)
Definition stale_run : run :=
  get_feed rt 5 (Some youtube_stale) true None false (start FEED_CACHE_init).

(** A forced refresh, on the populated slot, of a user without
    subscriptions. *)
Definition no_subs_run : run :=
  get_feed rt 5 (Some youtube_no_subs) true None true (start warm_cache).

(** A client whose credential has expired: the first request raises. *)
Definition youtube_expired : Resource Z :=
  {| subscriptions_list w := (Raises RefreshError, w);
     channels_list _ w := (Returns [], w);
     playlistItems_list_snippet _ w := (Returns [], w);
     playlists_list _ w := (Returns {| page_playlists := [];
                                       playlists_nextPageToken := None |}, w);
     playlistItems_list_ids _ _ w := (Returns {| page_videoIds := [];
                                                 items_nextPageToken := None |}, w) |}.

(** A forced request with the expired credential, on the populated slot. *)
Definition expired_run : run :=
  get_feed rt 5 (Some youtube_expired) true None true (start warm_cache).

(** A request without client on the populated slot. *)
Definition mock_run : run :=
  get_feed rt 5 None true None false (start warm_cache).

(** A first request when [vid1] is on the eleventh page of the playlist. *)
Definition long_run : run :=
  get_feed rt 5 (Some youtube_long) true None false (start FEED_CACHE_init).

(** The request that follows [stale_run], same flag, nothing forced. *)
Definition stale_lookup : run :=
  get_feed rt 5 (Some youtube_stale) true None false (state_of stale_run).

(** The requests that follow [first_run], same flag, nothing forced: a
    plain one, and one with a playlist filter. *)
Definition second_lookup : run :=
  get_feed rt 5 (Some youtube) true None false (state_of first_run).
Definition filtered_lookup : run :=
  get_feed rt 5 (Some youtube) true (Some "PL1") false (state_of first_run).

End Demo.


(** Where an event comes from. *)
Inductive origin : Type :=
| FromSubscriptions | FromChannels | FromUploads | FromMuteList | FromClient | FromProbe
| FromCollectionList | FromCollectionMembers | FromClock | FromLog | FromCacheHit.

Definition origin_of (ev : event) : origin :=
  match ev with
  | Call_subscriptions_list _ => FromSubscriptions
  | Call_channels_list _ _ => FromChannels
  | Call_playlistItems_snippet _ _ => FromUploads
  | Call_playlists_list _ _ => FromCollectionList
  | Call_playlistItems_ids _ _ _ => FromCollectionMembers
  | Call_load_muted_channels _ => FromMuteList
  | Call_AsyncClient _ | Call_aclose _ => FromClient
  | Call_head _ _ => FromProbe
  | Read_time _ | Read_now _ => FromClock
  | Log Info Serving_feed_from_cache => FromCacheHit
  | Log _ _ => FromLog
  end.

(** Every event of [t] has an origin accepted by [allowed]. *)
Definition only (allowed : origin -> bool) (t : list event) : Prop :=
  Forall (fun ev => allowed (origin_of ev) = true) t.

(** The order of the feed: [a] may come before [b]. *)
Definition not_older (a b : string) : Prop := String.leb b a = true.

(** The order of the sorted items, by their keys, and of the feed
    entries. *)
Definition key_not_older {A : Type} (key_of : A -> string) (a b : A) : Prop :=
  not_older (key_of a) (key_of b).

Definition entry_not_older (a b : FeedEntry) : Prop :=
  not_older (published_at a) (published_at b).

(** [saved_video_map.get(vid, [])] *)
Definition refs_of (saved_video_map : gmap string (list PlaylistRef)) (vid : string)
  : list PlaylistRef :=
  default [] (saved_video_map !! vid).

(** What lines 413-414 make of the list of one video. *)
Definition add_ref (pl : Playlist) (cur : list PlaylistRef) : list PlaylistRef :=
  if existsb (fun p => String.eqb (ref_id p) (pl_id pl)) cur then cur
  else (cur ++ [ {| ref_id := pl_id pl; ref_title := pl_title pl |} ])%list.

(** A computation that leaves [FEED_CACHE] alone and whose events all have
    an origin accepted by [allowed], whatever its outcome. *)
Definition quiet {World A} (allowed : origin -> bool) (m : M World A) : Prop :=
  forall s r s' t, m s = (r, s', t) -> FEED_CACHE s' = FEED_CACHE s /\ only allowed t.

(** The origins of the stages of the assembly. *)
Definition uploads_or_log (o : origin) : bool :=
  match o with FromUploads | FromLog => true | _ => false end.
Definition channels_only (o : origin) : bool :=
  match o with FromChannels => true | _ => false end.
Definition log_only (o : origin) : bool :=
  match o with FromLog => true | _ => false end.
Definition probe_only (o : origin) : bool :=
  match o with FromClient | FromProbe => true | _ => false end.
Definition members_or_log (o : origin) : bool :=
  match o with FromCollectionMembers | FromLog => true | _ => false end.
Definition list_or_log (o : origin) : bool :=
  match o with FromCollectionList | FromLog => true | _ => false end.
Definition collections_or_log (o : origin) : bool :=
  match o with FromCollectionList | FromCollectionMembers | FromLog => true | _ => false end.
Definition clock_or_log (o : origin) : bool :=
  match o with FromClock | FromLog => true | _ => false end.
Definition not_cache_hit (o : origin) : bool :=
  match o with FromCacheHit => false | _ => true end.

(** The probe address of a video id. *)
Definition shorts_url (vid : string) : string := "https://www.youtube.com/shorts/" ++ vid.

(** What [check_single] returns for the response [r] to the probe of [vid]. *)
Definition confirmed (vid : string) (r : response Z) : option string :=
  match r with
  | Returns status_code => if status_code =? 200 then Some vid else None
  | Raises _ => None
  end.

(** The condition under which the cache check of [get_feed] serves the
    stored data, read on the state in which [get_feed] starts. *)
Definition cache_hit {World} (rt : Runtime World) (key : string)
    (check_playlist_id : option string) (force_refresh : bool) (s : state World) : bool :=
  negb force_refresh && negb (truthy_str check_playlist_id)
  && truthy_data (cache_data (FEED_CACHE s))
  && bool_decide (cache_key (FEED_CACHE s) = Some key)
  && Qltb (lookup_time rt s - cache_timestamp (FEED_CACHE s))%Q CACHE_DURATION.

(** A computation whose events all have an origin accepted by [allowed]. *)
Definition emits {World A} (allowed : origin -> bool) (m : M World A) : Prop :=
  forall s r s' t, m s = (r, s', t) -> only allowed t.

(** The tests of the comprehensions of lines 354 and 387, on an item. *)
Definition not_muted (muted_channels : gset string) (v : PlaylistItem) : bool :=
  match channelId v with
  | Some c => bool_decide (c ∉ muted_channels)
  | None => false
  end.

Definition not_short (shorts_ids : gset string) (v : PlaylistItem) : bool :=
  match videoId v with
  | Some vid => bool_decide (vid ∉ shorts_ids)
  | None => false
  end.

(** The items that pass the mute filter and the date filter. *)
Definition passes_filters {World} (rt : Runtime World) (muted_channels : gset string)
    (now : Z) (raw_videos : list PlaylistItem) : list PlaylistItem :=
  List.filter (fun v => is_recent rt (now - hours_48) (publishedAt v))
    (List.filter (not_muted muted_channels) raw_videos).

(** The index [m'] keeps every video and every reference of [m]. *)
Definition index_grows (m m' : gmap string (list PlaylistRef)) : Prop :=
  forall vid,
    (is_Some (m !! vid) -> is_Some (m' !! vid))
    /\ (forall ref, ref ∈ refs_of m vid -> ref ∈ refs_of m' vid).

(** No list of the index names a playlist id twice. *)
Definition index_distinct (m : gmap string (list PlaylistRef)) : Prop :=
  forall vid, NoDup (map ref_id (refs_of m vid)).

(** The reference [{'id': pl['id'], 'title': pl['title']}] to a playlist. *)
Definition ref_to (pl : Playlist) : PlaylistRef :=
  {| ref_id := pl_id pl; ref_title := pl_title pl |}.


(** ** Further readings of a run's record *)

(** The membership requests of a run, with their responses, in order. *)
Definition member_calls (t : list event)
  : list (string * option string * response ItemsPage) :=
  omap (fun ev => match ev with
                  | Call_playlistItems_ids pid token r => Some (pid, token, r)
                  | _ => None
                  end) t.

(** The listing requests of a run, with their responses, in order. *)
Definition listing_calls (t : list event) : list (option string * response PlaylistsPage) :=
  omap (fun ev => match ev with
                  | Call_playlists_list token r => Some (token, r)
                  | _ => None
                  end) t.

(** The playlists of a listing response; none when the request raised. *)
Definition listing_of (r : response PlaylistsPage) : list Playlist :=
  match r with
  | Returns page => page_playlists page
  | Raises _ => []
  end.

(** The playlists listed during a run, in order. *)
Definition listed (t : list event) : list Playlist :=
  concat (map (fun c => listing_of (snd c)) (listing_calls t)).

(** The token a listing response asks to continue with, if any. *)
Definition continues (r : response PlaylistsPage) : bool :=
  match r with
  | Returns page => truthy_str (playlists_nextPageToken page)
  | Raises _ => false
  end.

(** A computation that always returns a value. *)
Definition always_returns {World A} (m : M World A) : Prop :=
  forall s r s' t, m s = (r, s', t) -> exists a, r = Ok a.

(** A computation that leaves [FEED_CACHE] alone whenever it does not
    return a value. *)
Definition failure_keeps_cache {World A} (m : M World A) : Prop :=
  forall s r s' t,
    m s = (r, s', t) -> (forall a, r <> Ok a) -> FEED_CACHE s' = FEED_CACHE s.

Definition no_probe (o : origin) : bool :=
  match o with FromClient | FromProbe | FromCacheHit => false | _ => true end.

(** An entry that carries the ["saved"] and ["saved_to"] keys. *)
Definition annotated (e : FeedEntry) : Prop :=
  exists refs, saved_to e = Some refs /\ saved e = Some (negb (bool_decide (refs = []))).

(** What [get_feed] keeps true of the slot: a stored list is in descending
    order of [publishedAt], its entries are annotated, and the stored key is
    the key of some request. *)
Definition cache_well_formed (c : cache) : Prop :=
  forall data,
    cache_data c = Some data ->
    StronglySorted entry_not_older data
    /\ Forall annotated data
    /\ exists include_shorts, cache_key c = Some (cache_key_of include_shorts).

(** Every video of the index has at least one reference. *)
Definition index_nonempty (m : gmap string (list PlaylistRef)) : Prop :=
  forall vid refs, m !! vid = Some refs -> refs <> [].

(** Every reference of the index is backed by a membership page of the run
    that holds the video. *)
Definition index_backed (m : gmap string (list PlaylistRef)) (t : list event) : Prop :=
  forall vid ref,
    ref ∈ refs_of m vid ->
    exists token page,
      Call_playlistItems_ids (ref_id ref) token (Returns page) ∈ t
      /\ vid ∈ page_videoIds page.

(** The items left by the short-form filter of lines 380-387, given the
    responses [rs] to the probes of [recent]. *)
Definition without_shorts (include_shorts : bool) (rs : list (response Z))
    (recent : list PlaylistItem) : list PlaylistItem :=
  if include_shorts then recent
  else List.filter
         (not_short (collect_shorts (zip_with confirmed (omap videoId recent) rs)))
         recent.


(** ** A feed with a short in it *)

Module DemoShorts.

(** Half an hour old at [Demo.noon]; [Demo.probe] answers 200 for it. *)
Definition short_video : PlaylistItem := Demo.video "short1" "2023-10-27T11:30:00Z" "UC123".

(** One subscribed channel with a regular upload, a short and an old
    upload; one playlist holding [vid1]. *)
Definition youtube : Resource Z :=
  Demo.resource [ {| sub_channelId := Some "UC123" |} ] [ {| uploads := Some "UU123" |} ]
    (fun _ => Returns [Demo.recent_video; short_video; Demo.old_video])
    (Demo.one_page [Demo.saved_playlist]) Demo.members_vid1.

(** A first request that excludes shorts. *)
Definition filtered_run : Demo.run :=
  get_feed Demo.rt_probe 5 (Some youtube) false None false (Demo.start FEED_CACHE_init).

(** The same request with shorts included. *)
Definition unfiltered_run : Demo.run :=
  get_feed Demo.rt_probe 5 (Some youtube) true None false (Demo.start FEED_CACHE_init).

(** The entry the assembly makes of [short_video]. *)
Definition short_entry : FeedEntry :=
  {| video_id := "short1"; fe_title := "Video short1"; channel_title := "Channel 1";
     thumbnail_url := "http://thumb"; published_at := "2023-10-27T11:30:00Z";
     channel_id := "UC123"; saved := Some false; saved_to := Some [] |}.

End DemoShorts.


(** The entry the assembly of [Demo.long_run] makes of [Demo.recent_video]:
    the ten pages read do not hold it. *)
Definition unsaved_entry : FeedEntry :=
  {| video_id := "vid1"; fe_title := "Video vid1"; channel_title := "Channel 1";
     thumbnail_url := "http://thumb"; published_at := "2023-10-27T11:00:00Z";
     channel_id := "UC123"; saved := Some false; saved_to := Some [] |}.


(** ** Paging *)

(** The listing requests [calls] page from [token]: each request carries
    the token the response before it gave (the first one [token]), and
    nothing follows a request that raised or a page without a token. *)
Fixpoint listing_chain (token : option string)
    (calls : list (option string * response PlaylistsPage)) : Prop :=
  match calls with
  | [] => True
  | (tk, r) :: rest =>
      tk = token
      /\ match r with
         | Returns page =>
             if truthy_str (playlists_nextPageToken page)
             then listing_chain (playlists_nextPageToken page) rest
             else rest = []
         | Raises _ => rest = []
         end
  end.

(** The same for the membership requests of the playlist [pid]. *)
Fixpoint member_chain (pid : string) (token : option string)
    (calls : list (string * option string * response ItemsPage)) : Prop :=
  match calls with
  | [] => True
  | (p, tk, r) :: rest =>
      p = pid /\ tk = token
      /\ match r with
         | Returns page =>
             if truthy_str (items_nextPageToken page)
             then member_chain pid (items_nextPageToken page) rest
             else rest = []
         | Raises _ => rest = []
         end
  end.

(** A listing of three pages whose third request fails, and a listing
    that never ends. *)
Module DemoPages.

Definition playlist (n : string) : Playlist :=
  {| pl_id := "PL" ++ n; pl_title := "List " ++ n; pl_thumbnail := ""; pl_privacy := "private" |}.

Definition failing_listing (token : option string) : response PlaylistsPage :=
  match token with
  | None => Returns {| page_playlists := [playlist "1"; playlist "2"];
                       playlists_nextPageToken := Some "b" |}
  | Some tk =>
      if String.eqb tk "b"
      then Returns {| page_playlists := [playlist "3"]; playlists_nextPageToken := Some "c" |}
      else Raises (HttpError 500)
  end.

Definition endless_listing (token : option string) : response PlaylistsPage :=
  Returns {| page_playlists := [playlist "1"]; playlists_nextPageToken := Some "again" |}.

Definition youtube (listing : option string -> response PlaylistsPage) : Resource Z :=
  Demo.resource [] [] (fun _ => Returns []) listing Demo.members_long.

Definition listing_run : result (list Playlist) * state Z * list event :=
  get_user_playlists 5 (Some (youtube failing_listing)) (Demo.start Demo.warm_cache).

Definition endless_run : result (list Playlist) * state Z * list event :=
  get_user_playlists 5 (Some (youtube endless_listing)) (Demo.start Demo.warm_cache).

Definition members_run : result (gset string) * state Z * list event :=
  get_playlist_video_ids (Some (youtube failing_listing)) "PL1" (Demo.start Demo.warm_cache).

End DemoPages.


(** ** The mute list on disk (app/services/storage.py)

    The file [MUTED_CHANNELS_FILE] lives in a world of its own.  Within one
    call nothing else touches the file: [os.path.exists] and reading are
    functions of the world, only writing changes it.  The text of the file
    and the JSON values that the code merely carries along are abstract;
    the dictionary is a finite map (the order of its keys is not
    modelled). *)

Module Storage.

(** What [open], [f.read], [json.loads], the comprehension of line 24 or
    [json.dump] raised. *)
Inductive failure : Type :=
| JSONDecodeError
| OSError
| UnicodeDecodeError
| UnhashableTypeError
| OtherException.

Inductive attempt (A : Type) : Type :=
| Success (a : A)
| Failure (e : failure).
Arguments Success {A} a.
Arguments Failure {A} e.

(** The exceptions that leave the functions of the module. *)
Inductive error : Type := TypeError | AttributeError.

(** Outcome of a function of the module.  [Unmodelled] marks the one kind
    of file content left out: a JSON list of scalars that are not all
    strings (line 24 then builds a dictionary with keys that are not
    strings). *)
Inductive outcome (A : Type) : Type :=
| Returned (a : A)
| Raised (e : error)
| Unmodelled.
Arguments Returned {A} a.
Arguments Raised {A} e.
Arguments Unmodelled {A}.

(** What [json.loads] returned, as far as the code tells values apart. *)
Inductive parsed (Json : Type) : Type :=
| Dict (d : gmap string Json)
| StringList (l : list string)
| UnhashableList       (* a list with a list or a dictionary among its elements *)
| ScalarList           (* a list of scalars, not all of them strings *)
| Str (s : string)
| Scalar.              (* a number, [True], [False] or [None] *)
Arguments Dict {Json} d.
Arguments StringList {Json} l.
Arguments UnhashableList {Json}.
Arguments ScalarList {Json}.
Arguments Str {Json} s.
Arguments Scalar {Json}.

(** What [load_muted_channels_dict] returns: a dictionary, or the value of
    the file when that is neither a list nor a dictionary (line 25). *)
Inductive muted_value (Json : Type) : Type :=
| MutedDict (d : gmap string Json)
| MutedStr (s : string)
| MutedScalar.
Arguments MutedDict {Json} d.
Arguments MutedStr {Json} s.
Arguments MutedScalar {Json}.

(** What a call leaves behind: the writes it attempted and its log. *)
Inductive entry (Content : Type) : Type :=
| Wrote (text : Content) (r : attempt unit)
| Warning_corrupted_file
| Error_loading (e : failure)
| Error_saving (e : failure).
Arguments Wrote {Content} text r.
Arguments Warning_corrupted_file {Content}.
Arguments Error_loading {Content} e.
Arguments Error_saving {Content} e.

(** The file, the text operations and the JSON codec. *)
Record Files (World Content Json : Type) := {
  os_path_exists : World -> bool;
  (** [open(MUTED_CHANNELS_FILE, 'r')] and [f.read()] *)
  read : World -> attempt Content;
  strip : Content -> Content;
  (** [not content] *)
  is_empty : Content -> bool;
  json_loads : Content -> attempt (parsed Json);
  (** a Python [str] as a JSON value *)
  json_str : string -> Json;
  (** the text [json.dump(muted, f, indent=2)] produces *)
  json_dumps : gmap string Json -> Content;
  (** [open(MUTED_CHANNELS_FILE, 'w')] and the writing of the text; a
      failed write may have changed the file *)
  write : Content -> World -> attempt unit * World
}.
Arguments os_path_exists {World Content Json} _ _.
Arguments read {World Content Json} _ _.
Arguments strip {World Content Json} _ _.
Arguments is_empty {World Content Json} _ _.
Arguments json_loads {World Content Json} _ _.
Arguments json_str {World Content Json} _ _.
Arguments json_dumps {World Content Json} _ _.
Arguments write {World Content Json} _ _ _.

(** The writes of a call, in order. *)
Definition writes {Content} (t : list (entry Content)) : list (Content * attempt unit) :=
  omap (fun en => match en with Wrote text r => Some (text, r) | _ => None end) t.

Section MuteList.

Context {World Content Json : Type} (fs : Files World Content Json).

(** The two [except] clauses of [load_muted_channels_dict] (lines 26-31);
    both return the empty dictionary. *)
Definition load_failed (e : failure) : outcome (muted_value Json) * list (entry Content) :=
  match e with
  | JSONDecodeError => (Returned (MutedDict ∅), [Warning_corrupted_file])
  | _ => (Returned (MutedDict ∅), [Error_loading e])
  end.

(** [{cid: "Unknown Channel" for cid in data}] *)
Definition unknown_channels (data : list string) : gmap string Json :=
  foldl (fun d cid => <[cid := json_str fs "Unknown Channel"]> d) ∅ data.

Definition load_muted_channels_dict (w : World)
  : outcome (muted_value Json) * list (entry Content) :=
  if negb (os_path_exists fs w) then (Returned (MutedDict ∅), [])
  else
    match read fs w with
    | Failure e => load_failed e
    | Success text =>
        let content := strip fs text in
        if is_empty fs content then (Returned (MutedDict ∅), [])
        else
          match json_loads fs content with
          | Failure e => load_failed e
          | Success (Dict d) => (Returned (MutedDict d), [])
          | Success (StringList l) => (Returned (MutedDict (unknown_channels l)), [])
          | Success UnhashableList => load_failed UnhashableTypeError
          | Success ScalarList => (Unmodelled, [])
          | Success (Str s) => (Returned (MutedStr s), [])
          | Success Scalar => (Returned MutedScalar, [])
          end
    end.

(** [set(load_muted_channels_dict().keys())]: only a dictionary has
    [keys]. *)
Definition load_muted_channels (w : World) : outcome (gset string) * list (entry Content) :=
  let '(r, t) := load_muted_channels_dict w in
  match r with
  | Returned (MutedDict d) => (Returned (dom d), t)
  | Returned _ => (Raised AttributeError, t)
  | Raised e => (Raised e, t)
  | Unmodelled => (Unmodelled, t)
  end.

(** The [try] around the writing of the file (lines 41-47 and 54-60). *)
Definition save (muted : gmap string Json) (w : World)
  : bool * World * list (entry Content) :=
  let text := json_dumps fs muted in
  match write fs text w with
  | (Success _, w') => (true, w', [Wrote text (Success tt)])
  | (Failure e, w') => (false, w', [Wrote text (Failure e); Error_saving e])
  end.

(** [muted[channel_id] = channel_title] is outside the [try]: on a value
    that is not a dictionary it raises [TypeError]. *)
Definition mute_channel (channel_id channel_title : string) (w : World)
  : outcome bool * World * list (entry Content) :=
  let '(r, t) := load_muted_channels_dict w in
  match r with
  | Returned (MutedDict muted) =>
      let '(ok, w', t') := save (<[channel_id := json_str fs channel_title]> muted) w in
      (Returned ok, w', (t ++ t')%list)
  | Returned _ => (Raised TypeError, w, t)
  | Raised e => (Raised e, w, t)
  | Unmodelled => (Unmodelled, w, t)
  end.

(** [channel_id in muted] is a key test on a dictionary and a substring
    test on a string (where [del] then raises); on any other value it
    raises [TypeError]. *)
Definition unmute_channel (channel_id : string) (w : World)
  : outcome bool * World * list (entry Content) :=
  let '(r, t) := load_muted_channels_dict w in
  match r with
  | Returned (MutedDict muted) =>
      if bool_decide (channel_id ∈ dom muted) then
        let '(ok, w', t') := save (delete channel_id muted) w in
        (Returned ok, w', (t ++ t')%list)
      else (Returned true, w, t)
  | Returned (MutedStr s) =>
      match String.index 0 channel_id s with
      | Some _ => (Raised TypeError, w, t)
      | None => (Returned true, w, t)
      end
  | Returned MutedScalar => (Raised TypeError, w, t)
  | Raised e => (Raised e, w, t)
  | Unmodelled => (Unmodelled, w, t)
  end.

(** A file system and a codec that behave: what was written is what is
    read, and a dictionary survives the trip through its text. *)
Definition write_then_read : Prop :=
  forall text w w',
    write fs text w = (Success tt, w') ->
    os_path_exists fs w' = true /\ read fs w' = Success text.

Definition dumps_then_loads : Prop :=
  forall d,
    is_empty fs (strip fs (json_dumps fs d)) = false
    /\ json_loads fs (strip fs (json_dumps fs d)) = Success (Dict d).

End MuteList.

End Storage.

(** A disk for the examples: the file is absent or holds a text; a text is
    blank, garbage or the serialization of a value; writing succeeds when
    the flag [writable] is set. *)
Module DemoStorage.

Inductive text : Type :=
| Blank
| Garbage
| Json_text (p : Storage.parsed string).

Record disk := { file : option text; writable : bool }.

Definition fs : Storage.Files disk text string :=
  {| Storage.os_path_exists w := bool_decide (is_Some (file w));
     Storage.read w := match file w with
                       | Some c => Storage.Success c
                       | None => Storage.Failure Storage.OSError
                       end;
     Storage.strip c := c;
     Storage.is_empty c := match c with Blank => true | _ => false end;
     Storage.json_loads c := match c with
                             | Json_text p => Storage.Success p
                             | _ => Storage.Failure Storage.JSONDecodeError
                             end;
     Storage.json_str s := s;
     Storage.json_dumps d := Json_text (Storage.Dict d);
     Storage.write c w := if writable w
                          then (Storage.Success tt, {| file := Some c; writable := true |})
                          else (Storage.Failure Storage.OSError, w) |}.

(** No file yet; a file in the old list format; a file holding [null]. *)
Definition fresh : disk := {| file := None; writable := true |}.
Definition legacy : disk :=
  {| file := Some (Json_text (Storage.StringList ["UC1"; "UC2"])); writable := true |}.
Definition null_file : disk :=
  {| file := Some (Json_text Storage.Scalar); writable := true |}.

(** The disk after muting [UC9] on the legacy file. *)
Definition upgraded : disk := snd (fst (Storage.mute_channel fs "UC9" "Nine" legacy)).

End DemoStorage.


(** Further disks of the examples: the file after [UC9] was unmuted again,
    and a file that cannot be written. *)
Definition restored_disk : DemoStorage.disk :=
  snd (fst (Storage.unmute_channel DemoStorage.fs "UC9" DemoStorage.upgraded)).

Definition read_only_disk : DemoStorage.disk :=
  {| DemoStorage.file := Some (DemoStorage.Json_text (Storage.StringList ["UC1"; "UC2"]));
     DemoStorage.writable := false |}.


(** ** Durations (app/services/utils.py, lines 5-17)

    [parse_duration] inspects the characters of its argument, so a duration
    is given as the sequence of its code points.  In a [str] pattern [\d]
    matches every Unicode decimal digit (category Nd), and [int] converts
    these digits as well. *)

Definition text : Type := list N.

(** The text of an ASCII literal. *)
Definition text_of (s : string) : text := map N_of_ascii (list_ascii_of_string s).

Section Unicode.

(** [unicodedata.decimal(chr(c), None)] for the code points [c] beyond
    ASCII, in the Unicode database of the interpreter. *)
Variable unicode_decimal : N -> option Z.

(** The decimal value of a code point, if it is a decimal digit. *)
Definition decimal (c : N) : option Z :=
  if (c <? 128)%N then
    if (48 <=? c)%N && (c <=? 57)%N then Some (Z.of_N c - 48) else None
  else unicode_decimal c.

(** [\d] *)
Definition is_digit (c : N) : bool :=
  match decimal c with
  | Some _ => true
  | None => false
  end.

Definition digit_value (c : N) : Z := default 0 (decimal c).

(** The decimal reading of a text of digits, continuing from [acc]. *)
Fixpoint int_from (acc : Z) (digits : text) : Z :=
  match digits with
  | [] => acc
  | c :: rest => int_from (acc * 10 + digit_value c) rest
  end.


(** The longest run of digits at the start of [s], and what follows it:
    what the greedy [\d+] takes. *)
Fixpoint span_digits (s : text) : text * text :=
  match s with
  | [] => ([], [])
  | c :: rest =>
      if is_digit c then let '(digits, rest') := span_digits rest in (c :: digits, rest')
      else ([], s)
  end.

(** One optional group [(\d+U)?] tried at the start of [s]: the text of the
    group when it matches, and what is left to match.  The digits are
    followed by one letter at most, so giving digits back never helps the
    group to match; and the rest of the pattern matches anything, so the
    group is never given up once matched. *)
Definition match_group (unit : N) (s : text) : option text * text :=
  match span_digits s with
  | (d :: digits, c :: rest) =>
      if (c =? unit)%N then (Some ((d :: digits) ++ [unit])%list, rest)
      else (None, s)
  | _ => (None, s)
  end.

(** [sys.get_int_max_str_digits()]: the longest string of digits [int]
    converts, 0 when conversions are not limited. *)
Variable int_max_str_digits : nat.

Definition within_limit (digits : text) : bool :=
  negb ((0 <? int_max_str_digits)%nat && (int_max_str_digits <? length digits)%nat).

(** [int] on a non-empty text of digits. *)
Definition int (digits : text) : response Z :=
  if within_limit digits then Returns (int_from 0 digits) else Raises ValueError.

(** [int(match.group(k)[:-1]) if match.group(k) else 0] *)
Definition group_value (group : option text) : response Z :=
  match group with
  | Some [] => Returns 0
  | Some group_text => int (removelast group_text)
  | None => Returns 0
  end.

Definition parse_duration (duration : text) : response Z :=
  match duration with
  | [] => Returns 0
  | c1 :: c2 :: rest =>
      if (c1 =? 80)%N && (c2 =? 84)%N then
        let '(group1, rest1) := match_group 72 rest in
        let '(group2, rest2) := match_group 77 rest1 in
        let '(group3, _) := match_group 83 rest2 in
        match group_value group1 with
        | Raises e => Raises e
        | Returns hours =>
            match group_value group2 with
            | Raises e => Raises e
            | Returns minutes =>
                match group_value group3 with
                | Raises e => Raises e
                | Returns seconds => Returns (hours * 3600 + minutes * 60 + seconds)
                end
            end
        end
      else Returns 0
  | _ => Returns 0
  end.





End Unicode.

(** A database that knows the Arabic-Indic digits (U+0660 to U+0669)
    beyond ASCII. *)
Definition arabic_indic (c : N) : option Z :=
  if (1632 <=? c)%N && (c <=? 1641)%N then Some (Z.of_N c - 1632) else None.


(** ** Durations of videos (youtube.py, lines 145-161)

    [get_video_durations] on a client, whose responses are lists of
    well-formed items.  The function has a trace of its own: its requests
    and its log records. *)

(** An item of [videos().list(part="contentDetails")]: [item["id"]] and
    [item["contentDetails"]["duration"]]. *)
Record VideoItem := { vi_id : string; vi_duration : text }.

(** What [get_video_durations] does, in order. *)
Inductive duration_event : Type :=
| Call_videos_list (ids : string) (r : response (list VideoItem))
| Error_fetching_durations (e : exn).

(** The requests of a run, with their responses, in order. *)
Definition video_calls (t : list duration_event)
  : list (string * response (list VideoItem)) :=
  omap (fun ev => match ev with
                  | Call_videos_list ids r => Some (ids, r)
                  | _ => None
                  end) t.

(** [range(0, n, 50)] *)
Definition batch_starts (n : nat) : list nat :=
  map (fun k => 50 * k)%nat (seq 0 ((n + 49) / 50)).

Section Durations.

Context {World : Type}.
Variable unicode_decimal : N -> option Z.
Variable int_max_str_digits : nat.

(** [youtube.videos().list(part="contentDetails", id=ids).execute()] and
    [response.get("items", [])] *)
Variable videos_list : string -> World -> response (list VideoItem) * World.

(** The loop over the items of one response (lines 157-158).  An
    exception of [parse_duration] leaves the loop, and the [try], with the
    durations stored so far. *)
Fixpoint store_durations (items : list VideoItem) (durations : gmap string Z)
  : gmap string Z * option exn :=
  match items with
  | [] => (durations, None)
  | item :: rest =>
      match parse_duration unicode_decimal int_max_str_digits (vi_duration item) with
      | Returns seconds => store_durations rest (<[vi_id item := seconds]> durations)
      | Raises e => (durations, Some e)
      end
  end.

(** The loop over the batches; [starts] are the values of [i] still to
    come. *)
Fixpoint get_video_durations_loop (starts : list nat) (video_ids : list string)
    (durations : gmap string Z) (w : World)
  : gmap string Z * World * list duration_event :=
  match starts with
  | [] => (durations, w, [])
  | i :: starts' =>
      let batch := take 50 (drop i video_ids) in
      let ids := String.concat "," batch in
      let '(r, w1) := videos_list ids w in
      let '(durations1, errors) :=
        match r with
        | Returns items =>
            match store_durations items durations with
            | (stored, None) => (stored, [])
            | (stored, Some e) => (stored, [Error_fetching_durations e])
            end
        | Raises e => (durations, [Error_fetching_durations e])
        end in
      let '(durations2, w2, t) :=
        get_video_durations_loop starts' video_ids durations1 w1 in
      (durations2, w2, (Call_videos_list ids r :: errors ++ t)%list)
  end.

Definition get_video_durations (video_ids : list string) (w : World)
  : gmap string Z * World * list duration_event :=
  get_video_durations_loop (batch_starts (length video_ids)) video_ids ∅ w.

End Durations.

(** A platform that knows the duration of [vid1] only and fails on every
    request that names [broken]. *)
Module DemoDurations.

Definition videos_list (ids : string) (w : Z) : response (list VideoItem) * Z :=
  match String.index 0 "broken" ids with
  | Some _ => (Raises (HttpError 500), w + 1)
  | None => (Returns [ {| vi_id := "vid1"; vi_duration := text_of "PT1H2M10S" |} ], w + 1)
  end.

(** 120 ids: three batches, the second of which names [broken]. *)
Definition video_ids : list string :=
  (replicate 60 "vid1" ++ ["broken"] ++ replicate 59 "vid1")%list.

Definition durations_run : gmap string Z * Z * list duration_event :=
  get_video_durations arabic_indic 4300 videos_list video_ids 0.

End DemoDurations.


(** ** The collaborators behind a run's record

    The responses a collaborator gives to a series of requests made one
    after the other, from the world [w], and the world they leave. *)

Section Responses.

Context {World : Type}.

(** The requests for the upload feeds [playlist_ids]. *)
Fixpoint uploads_responses (youtube : Resource World) (playlist_ids : list string)
    (w : World) : list (response (list PlaylistItem)) * World :=
  match playlist_ids with
  | [] => ([], w)
  | pid :: rest =>
      let '(r, w1) := playlistItems_list_snippet youtube pid w in
      let '(rs, w2) := uploads_responses youtube rest w1 in
      (r :: rs, w2)
  end.

(** The probes of [video_ids]. *)
Fixpoint probe_responses (rt : Runtime World) (video_ids : list string) (w : World)
  : list (response Z) * World :=
  match video_ids with
  | [] => ([], w)
  | vid :: rest =>
      let '(r, w1) := client_head rt (shorts_url vid) w in
      let '(rs, w2) := probe_responses rt rest w1 in
      (r :: rs, w2)
  end.

(** The record [t] is what the collaborators did: read from the world [w],
    every request of [t] got the response its collaborator gives at that
    point, every clock reading is the clock's, and the world is [w'] in the
    end.  Without a client ([youtube = None]) there is no request to the
    platform. *)
Inductive genuine (rt : Runtime World) (youtube : option (Resource World))
  : World -> list event -> World -> Prop :=
| genuine_nil w : genuine rt youtube w [] w
| genuine_subscriptions_list yt w r w1 t w2 :
    youtube = Some yt -> subscriptions_list yt w = (r, w1) ->
    genuine rt youtube w1 t w2 ->
    genuine rt youtube w (Call_subscriptions_list r :: t) w2
| genuine_channels_list yt ids w r w1 t w2 :
    youtube = Some yt -> channels_list yt ids w = (r, w1) ->
    genuine rt youtube w1 t w2 ->
    genuine rt youtube w (Call_channels_list ids r :: t) w2
| genuine_playlistItems_snippet yt pid w r w1 t w2 :
    youtube = Some yt -> playlistItems_list_snippet yt pid w = (r, w1) ->
    genuine rt youtube w1 t w2 ->
    genuine rt youtube w (Call_playlistItems_snippet pid r :: t) w2
| genuine_playlists_list yt token w r w1 t w2 :
    youtube = Some yt -> playlists_list yt token w = (r, w1) ->
    genuine rt youtube w1 t w2 ->
    genuine rt youtube w (Call_playlists_list token r :: t) w2
| genuine_playlistItems_ids yt pid token w r w1 t w2 :
    youtube = Some yt -> playlistItems_list_ids yt pid token w = (r, w1) ->
    genuine rt youtube w1 t w2 ->
    genuine rt youtube w (Call_playlistItems_ids pid token r :: t) w2
| genuine_load_muted_channels w r w1 t w2 :
    load_muted_channels rt w = (r, w1) ->
    genuine rt youtube w1 t w2 ->
    genuine rt youtube w (Call_load_muted_channels r :: t) w2
| genuine_AsyncClient w r w1 t w2 :
    httpx_AsyncClient rt w = (r, w1) ->
    genuine rt youtube w1 t w2 ->
    genuine rt youtube w (Call_AsyncClient r :: t) w2
| genuine_head url w r w1 t w2 :
    client_head rt url w = (r, w1) ->
    genuine rt youtube w1 t w2 ->
    genuine rt youtube w (Call_head url r :: t) w2
| genuine_aclose w r w1 t w2 :
    client_aclose rt w = (r, w1) ->
    genuine rt youtube w1 t w2 ->
    genuine rt youtube w (Call_aclose r :: t) w2
| genuine_time w q w1 t w2 :
    time_time rt w = (q, w1) ->
    genuine rt youtube w1 t w2 ->
    genuine rt youtube w (Read_time q :: t) w2
| genuine_now w us w1 t w2 :
    datetime_now rt w = (us, w1) ->
    genuine rt youtube w1 t w2 ->
    genuine rt youtube w (Read_now us :: t) w2
| genuine_log l m w t w2 :
    genuine rt youtube w t w2 ->
    genuine rt youtube w (Log l m :: t) w2.

(** A computation whose record is always what the collaborators did. *)
Definition faithful {A} (rt : Runtime World) (youtube : option (Resource World))
    (m : M World A) : Prop :=
  forall s r s' t, m s = (r, s', t) -> genuine rt youtube (world s) t (world s').

End Responses.

(** What the upload fetcher records for the request of the feed [pid]
    answered by [r]: the request, and the log record of a failure. *)
Definition upload_events (pid : string) (r : response (list PlaylistItem)) : list event :=
  match r with
  | Returns _ => [Call_playlistItems_snippet pid r]
  | Raises e => [Call_playlistItems_snippet pid r; Log Error (Error_fetching_playlist pid e)]
  end.

(** The membership requests [calls] are the enumeration of the playlist
    [pid] from [token] over at most [n] pages: each request is for [pid] and
    carries the token the response before it gave (the first one [token]);
    the enumeration goes on until a request raises, a page comes without a
    token, or [n] pages have been asked for. *)
Fixpoint member_pages (n : nat) (pid : string) (token : option string)
    (calls : list (string * option string * response ItemsPage)) : Prop :=
  match n with
  | O => calls = []
  | S n' =>
      match calls with
      | [] => False
      | (p, tk, r) :: rest =>
          p = pid /\ tk = token
          /\ match r with
             | Returns page =>
                 if truthy_str (items_nextPageToken page)
                 then member_pages n' pid (items_nextPageToken page) rest
                 else rest = []
             | Raises _ => rest = []
             end
      end
  end.

(** The listing requests [calls] are the whole listing from [token]: they
    follow the tokens and end with a request that raised or a page without
    a token. *)
Fixpoint listing_pages (token : option string)
    (calls : list (option string * response PlaylistsPage)) : Prop :=
  match calls with
  | [] => False
  | (tk, r) :: rest =>
      tk = token
      /\ match r with
         | Returns page =>
             if truthy_str (playlists_nextPageToken page)
             then listing_pages (playlists_nextPageToken page) rest
             else rest = []
         | Raises _ => rest = []
         end
  end.


(** Further instances: a transport on which every probe answers 200, one
    whose client cannot be created, and a platform on which the feed
    [broken] fails. *)
Module DemoFaults.


Definition rt_no_client : Runtime Z :=
  {| time_time w := (inject_Z w, w + 1);
     datetime_now w := (w * 1000000, w + 1);
     fromisoformat := Demo.fromisoformat_ref;
     load_muted_channels w := (Returns ∅, w);
     httpx_AsyncClient w := (Raises TransportError, w);
     client_head url w := (Returns 200, w);
     client_aclose w := (Returns tt, w) |}.

Definition youtube_flaky : Resource Z :=
  Demo.resource [ {| sub_channelId := Some "UC123" |} ] [ {| uploads := Some "UU1" |} ]
    (fun pid => if String.eqb pid "UU1" then Returns [Demo.recent_video]
                else if String.eqb pid "UU2" then Returns [Demo.old_video]
                else Raises (HttpError 404))
    (Demo.one_page [Demo.saved_playlist]) Demo.members_vid1.

End DemoFaults.


(** ** The index of a run *)

(** What holds of the index [m] built by a run with record [t]: no list
    names a playlist twice and none is empty; a video of a membership page
    that came back is indexed under the playlist asked for; every reference
    is that of a listed playlist and is backed by a membership page; the
    listing was read page by page and every listed playlist was
    enumerated, in order, over at most ten pages. *)
Definition index_facts (m : gmap string (list PlaylistRef)) (t : list event) : Prop :=
  index_distinct m
  /\ index_nonempty m
  /\ (forall pid token page vid,
        Call_playlistItems_ids pid token (Returns page) ∈ t ->
        vid ∈ page_videoIds page ->
        is_Some (m !! vid) /\ exists ref, ref ∈ refs_of m vid /\ ref_id ref = pid)
  /\ (forall vid ref,
        ref ∈ refs_of m vid ->
        exists token page pl,
          Call_playlists_list token (Returns page) ∈ t
          /\ pl ∈ page_playlists page /\ ref = ref_to pl)
  /\ index_backed m t
  /\ listing_pages None (listing_calls t)
  /\ (exists chains,
        member_calls t = concat chains
        /\ Forall2 (fun pl chain => member_pages 10 (pl_id pl) None chain)
             (listed t) chains)
  /\ (length (member_calls t) <= 10 * length (listed t))%nat.

(** The order of the sorted items: both have a [publishedAt], and the
    first one's is not the smaller string. *)
Definition item_not_older (a b : PlaylistItem) : Prop :=
  exists ka kb, publishedAt a = Some ka /\ publishedAt b = Some kb /\ not_older ka kb.


(** A pair of a key and its item, as [list.sort] arranges them. *)
Definition keyed (p : string * PlaylistItem) : Prop := publishedAt p.2 = Some p.1.


(** ** Hits and misses of the cache check *)

(** The call of [get_feed] from [s] with outcome [(r, s', t)] is a hit: the
    cache check takes the branch of line 325 and the call returns the
    stored list [data]. *)
Definition cache_served {World} (rt : Runtime World) (include_shorts : bool)
    (check_playlist_id : option string) (force_refresh : bool)
    (s : state World) (data : list FeedEntry)
    (r : result (list FeedEntry)) (s' : state World) (t : list event) : Prop :=
  feed_cache_lookup rt (cache_key_of include_shorts) check_playlist_id force_refresh s
  = (Ok (Some data), s', t)
  /\ cache_data (FEED_CACHE s) = Some data
  /\ r = Ok data.

(** The call of [get_feed] from [s] with outcome [(r, s', t)] is a miss: the
    cache check falls through, having called no collaborator and left
    [FEED_CACHE] as it was, and the outcome of the call is that of the
    pipeline run next (the mock feed when there is no client). *)
Definition cache_miss {World} (rt : Runtime World) (fuel : nat)
    (youtube : option (Resource World)) (include_shorts : bool)
    (check_playlist_id : option string) (force_refresh : bool)
    (s : state World) (r : result (list FeedEntry)) (s' : state World)
    (t : list event) : Prop :=
  exists s1 t1 t2,
    feed_cache_lookup rt (cache_key_of include_shorts) check_playlist_id force_refresh s
    = (Ok None, s1, t1)
    /\ t = (t1 ++ t2)%list
    /\ FEED_CACHE s1 = FEED_CACHE s
    /\ collaborator_calls t1 = []
    /\ match youtube with
       | None => r = Ok get_mock_feed /\ s' = s1 /\ t2 = []
       | Some yt =>
           assemble_feed rt fuel yt include_shorts check_playlist_id
             (cache_key_of include_shorts) s1 = (r, s', t2)
       end.

Module DemoLookup.

(** A request that excludes shorts, on the slot stored under the key
    ["shorts:True"] a hundred seconds before: the stored list is
    [[Demo.recent_entry]], and the only upload of the channel is too old. *)
Definition flipped_run : Demo.run :=
  get_feed Demo.rt 5 (Some Demo.youtube_stale) false None false
    (Demo.start Demo.warm_cache).

End DemoLookup.


(** ** Feeds with several entries *)

Module DemoOrder.

Definition entry (vid published : string) : FeedEntry :=
  {| video_id := vid; fe_title := "Video " ++ vid; channel_title := "Channel 1";
     thumbnail_url := "http://thumb"; published_at := published;
     channel_id := "UC123"; saved := Some false; saved_to := Some [] |}.

Definition resource (videos : list PlaylistItem) : Resource Z :=
  Demo.resource [ {| sub_channelId := Some "UC123" |} ] [ {| uploads := Some "UU123" |} ]
    (fun _ => Returns videos) (Demo.one_page [Demo.saved_playlist]) Demo.members_vid1.





End DemoOrder.


(** Responses with a key missing: a subscription without
    [snippet.resourceId.channelId], and a recent upload without
    [snippet.thumbnails.high]. *)
Module DemoKeys.

Definition youtube_no_channel : Resource Z :=
  Demo.resource [ {| sub_channelId := None |} ] [ {| uploads := Some "UU123" |} ]
    (fun _ => Returns [Demo.recent_video]) (Demo.one_page [Demo.saved_playlist])
    Demo.members_vid1.

Definition no_thumbnail : PlaylistItem :=
  {| item_id := Some "item-vid3"; videoId := Some "vid3"; title := Some "Video vid3";
     channelTitle := Some "Channel 1"; thumbnail_high_url := None;
     publishedAt := Some "2023-10-27T11:00:00Z"; channelId := Some "UC123" |}.

Definition youtube_no_thumbnail : Resource Z :=
  DemoOrder.resource [Demo.recent_video; no_thumbnail].

(** An upload without [snippet.publishedAt]: the date filter drops it. *)
Definition no_date : PlaylistItem :=
  {| item_id := Some "item-vid4"; videoId := Some "vid4"; title := Some "Video vid4";
     channelTitle := Some "Channel 1"; thumbnail_high_url := Some "http://thumb";
     publishedAt := None; channelId := Some "UC123" |}.

Definition youtube_no_date : Resource Z :=
  DemoOrder.resource [no_date; Demo.recent_video].

End DemoKeys.

(** ** Properties *)

Local Open Scope list_scope.

(** *** Strings and numbers *)

Lemma Qltb_lt (x y : Q) : Qltb x y = true <-> (x < y)%Q.
Proof.
  unfold Qltb. rewrite negb_true_iff. split.
  - intros H. apply Qnot_le_lt. intros Hle. apply Qle_bool_iff in Hle. congruence.
  - intros H. destruct (Qle_bool y x) eqn:E; [|reflexivity].
    apply Qle_bool_iff in E. exfalso. exact (Qlt_not_le _ _ H E).
Qed.

Lemma cache_key_of_inj (a b : bool) : cache_key_of a = cache_key_of b -> a = b.
Proof. destruct a, b; simpl; intros H; try reflexivity; discriminate H. Qed.

Lemma ascii_compare_refl (c : ascii) : Ascii.compare c c = Eq.
Proof. unfold Ascii.compare. apply N.compare_refl. Qed.

Lemma string_compare_refl (s : string) : String.compare s s = Eq.
Proof. induction s as [|c s IH]; simpl; [reflexivity|]. now rewrite ascii_compare_refl. Qed.

Lemma ascii_compare_lt_trans (a b c : ascii) :
  Ascii.compare a b = Lt -> Ascii.compare b c = Lt -> Ascii.compare a c = Lt.
Proof.
  unfold Ascii.compare. rewrite !N.compare_lt_iff. apply N.lt_trans.
Qed.

Lemma string_compare_lt_trans (s1 : string) :
  forall s2 s3, String.compare s1 s2 = Lt -> String.compare s2 s3 = Lt ->
                String.compare s1 s3 = Lt.
Proof.
  induction s1 as [|a s1 IH]; intros [|b s2] [|c s3]; simpl; try congruence.
  destruct (Ascii.compare a b) eqn:Eab; try discriminate;
    destruct (Ascii.compare b c) eqn:Ebc; try discriminate; intros H1 H2.
  - apply Ascii.compare_eq_iff in Eab, Ebc. subst.
    rewrite ascii_compare_refl. eauto.
  - apply Ascii.compare_eq_iff in Eab. subst. now rewrite Ebc.
  - apply Ascii.compare_eq_iff in Ebc. subst. now rewrite Eab.
  - now rewrite (ascii_compare_lt_trans _ _ _ Eab Ebc).
Qed.

Lemma string_leb_ltb (a b : string) : String.leb a b = negb (String.ltb b a).
Proof.
  unfold String.leb, String.ltb. rewrite (String.compare_antisym b a).
  destruct (String.compare a b); reflexivity.
Qed.

Lemma string_ltb_neq (a b : string) : String.ltb a b = true -> a <> b.
Proof.
  unfold String.ltb. intros H ->. now rewrite string_compare_refl in H.
Qed.

Lemma string_ltb_trans (a b c : string) :
  String.ltb a b = true -> String.ltb b c = true -> String.ltb a c = true.
Proof.
  unfold String.ltb. intros H1 H2.
  destruct (String.compare a b) eqn:E1; try discriminate.
  destruct (String.compare b c) eqn:E2; try discriminate.
  now rewrite (string_compare_lt_trans _ _ _ E1 E2).
Qed.

Lemma string_leb_trans (a b c : string) :
  String.leb a b = true -> String.leb b c = true -> String.leb a c = true.
Proof.
  rewrite !string_leb_ltb, !negb_true_iff. intros H1 H2.
  destruct (String.ltb c a) eqn:E; [|reflexivity].
  destruct (String.compare a b) eqn:Eab.
  - apply String.compare_eq_iff in Eab. subst. congruence.
  - assert (Hab : String.ltb a b = true) by (unfold String.ltb; now rewrite Eab).
    pose proof (string_ltb_trans _ _ _ E Hab). congruence.
  - unfold String.ltb in H1. rewrite (String.compare_antisym b a), Eab in H1.
    discriminate.
Qed.

Lemma not_older_refl (a : string) : not_older a a.
Proof. unfold not_older, String.leb. now rewrite string_compare_refl. Qed.

Lemma not_older_trans (a b c : string) : not_older a b -> not_older b c -> not_older a c.
Proof. unfold not_older. intros H1 H2. exact (string_leb_trans _ _ _ H2 H1). Qed.

Lemma not_older_antisym (a b : string) : not_older a b -> not_older b a -> a = b.
Proof. unfold not_older. intros H1 H2. exact (String.leb_antisym _ _ H2 H1). Qed.

(** *** The sort *)

Section Sort.

Context {A : Type} (key_of : A -> string).

Lemma insert_newest_first_perm (x : A) (l : list A) :
  insert_newest_first key_of x l ≡ₚ x :: l.
Proof.
  induction l as [|y l IH]; simpl; [reflexivity|].
  destruct (String.ltb (key_of x) (key_of y)); [|reflexivity].
  rewrite IH. apply Permutation_swap.
Qed.

Lemma sort_newest_first_perm (l : list A) : sort_newest_first key_of l ≡ₚ l.
Proof.
  induction l as [|x l IH]; simpl; [reflexivity|].
  rewrite insert_newest_first_perm. now rewrite IH.
Qed.

Lemma insert_newest_first_HdRel (y x : A) (l : list A) :
  key_not_older key_of y x -> HdRel (key_not_older key_of) y l ->
  HdRel (key_not_older key_of) y (insert_newest_first key_of x l).
Proof.
  intros Hyx Hl. destruct l as [|z l]; simpl.
  - constructor. exact Hyx.
  - destruct (String.ltb (key_of x) (key_of z)).
    + constructor. inversion Hl; assumption.
    + constructor. exact Hyx.
Qed.

Lemma insert_newest_first_sorted (x : A) (l : list A) :
  Sorted (key_not_older key_of) l ->
  Sorted (key_not_older key_of) (insert_newest_first key_of x l).
Proof.
  induction l as [|y l IH]; simpl; intros Hs.
  - repeat constructor.
  - destruct (String.ltb (key_of x) (key_of y)) eqn:E.
    + inversion Hs as [|? ? Hs' Hhd]; subst. constructor; [now apply IH|].
      apply insert_newest_first_HdRel; [|assumption].
      unfold key_not_older, not_older. rewrite string_leb_ltb.
      destruct (String.ltb (key_of y) (key_of x)) eqn:E'; [|reflexivity].
      pose proof (string_ltb_trans _ _ _ E E') as Hxx.
      exfalso. exact (string_ltb_neq _ _ Hxx eq_refl).
    + constructor; [assumption|]. constructor.
      unfold key_not_older, not_older. now rewrite string_leb_ltb, E.
Qed.

Lemma sort_newest_first_sorted (l : list A) :
  Sorted (key_not_older key_of) (sort_newest_first key_of l).
Proof.
  induction l as [|x l IH]; simpl; [constructor|].
  now apply insert_newest_first_sorted.
Qed.

Lemma key_not_older_trans : Relations_1.Transitive (key_not_older key_of).
Proof. intros a b c. unfold key_not_older. apply not_older_trans. Qed.

Lemma sort_newest_first_strongly_sorted (l : list A) :
  StronglySorted (key_not_older key_of) (sort_newest_first key_of l).
Proof.
  apply Sorted_StronglySorted; [exact key_not_older_trans|].
  apply sort_newest_first_sorted.
Qed.

(** Stability: the items of any one key keep their order. *)
Lemma insert_newest_first_stable (k : string) (x : A) (l : list A) :
  filter (fun v => key_of v = k) (insert_newest_first key_of x l)
  = filter (fun v => key_of v = k) (x :: l).
Proof.
  induction l as [|y l IH]; simpl; [reflexivity|].
  destruct (String.ltb (key_of x) (key_of y)) eqn:E; [|reflexivity].
  pose proof (string_ltb_neq _ _ E) as Hne.
  rewrite (filter_cons _ y), IH, !filter_cons.
  repeat case_decide; try reflexivity. congruence.
Qed.

Lemma sort_newest_first_stable (k : string) (l : list A) :
  filter (fun v => key_of v = k) (sort_newest_first key_of l)
  = filter (fun v => key_of v = k) l.
Proof.
  induction l as [|x l IH]; simpl; [reflexivity|].
  rewrite insert_newest_first_stable, !filter_cons, IH. reflexivity.
Qed.

(** Two descending arrangements that agree key by key are the same list. *)
Lemma descending_stable_eq (l1 : list A) :
  forall l2,
    StronglySorted (key_not_older key_of) l1 -> StronglySorted (key_not_older key_of) l2 ->
    (forall k, filter (fun v => key_of v = k) l1
               = filter (fun v => key_of v = k) l2) ->
    l1 = l2.
Proof.
  induction l1 as [|x l1 IH]; intros l2 Hs1 Hs2 Hk.
  - destruct l2 as [|y l2]; [reflexivity|].
    specialize (Hk (key_of y)). rewrite filter_nil, filter_cons in Hk.
    case_decide; [discriminate|congruence].
  - destruct l2 as [|y l2].
    + specialize (Hk (key_of x)). rewrite filter_nil, filter_cons in Hk.
      case_decide; [discriminate|congruence].
    + apply StronglySorted_inv in Hs1 as [Hs1 Hx].
      apply StronglySorted_inv in Hs2 as [Hs2 Hy].
      assert (Hxy : key_of x = key_of y).
      { destruct (decide (key_of x = key_of y)) as [|Hne]; [assumption|].
        exfalso. apply Hne. apply not_older_antisym.
        - (* x comes before y in l1 *)
          pose proof (Hk (key_of y)) as Hky.
          rewrite !filter_cons in Hky.
          destruct (decide (key_of x = key_of y)); [contradiction|].
          destruct (decide (key_of y = key_of y)); [|congruence].
          assert (Hin : y ∈ filter (fun v => key_of v = key_of y) l1).
          { rewrite Hky. left. }
          apply list_elem_of_filter in Hin as [_ Hin].
          rewrite Forall_forall in Hx. apply Hx. exact Hin.
        - pose proof (Hk (key_of x)) as Hkx.
          rewrite !filter_cons in Hkx.
          destruct (decide (key_of x = key_of x)); [|congruence].
          destruct (decide (key_of y = key_of x)); [congruence|].
          assert (Hin : x ∈ filter (fun v => key_of v = key_of x) l2).
          { rewrite <- Hkx. left. }
          apply list_elem_of_filter in Hin as [_ Hin].
          rewrite Forall_forall in Hy. apply Hy. exact Hin. }
      pose proof (Hk (key_of x)) as Hkx.
      rewrite !filter_cons in Hkx.
      destruct (decide (key_of x = key_of x)); [|congruence].
      destruct (decide (key_of y = key_of x)); [|congruence].
      injection Hkx as -> _. f_equal.
      apply IH; try assumption.
      intros k. specialize (Hk k). rewrite !filter_cons in Hk.
      case_decide; [injection Hk as Hk|]; exact Hk.
Qed.

(** The stable descending arrangement of a list is unique: whatever stable
    sorting algorithm [list.sort] runs, it returns [sort_newest_first]. *)
Lemma stable_descending_unique (l l' : list A) :
  Sorted (key_not_older key_of) l' ->
  (forall k, filter (fun v => key_of v = k) l'
             = filter (fun v => key_of v = k) l) ->
  l' = sort_newest_first key_of l.
Proof.
  intros Hs Hk. apply descending_stable_eq.
  - apply Sorted_StronglySorted; [exact key_not_older_trans|assumption].
  - apply sort_newest_first_strongly_sorted.
  - intros k. now rewrite sort_newest_first_stable.
Qed.

End Sort.

(** *** The saved-status index *)

Lemma existsb_ref_id (pid : string) (cur : list PlaylistRef) :
  existsb (fun p => String.eqb (ref_id p) pid) cur = true
  <-> exists p, p ∈ cur /\ ref_id p = pid.
Proof.
  rewrite existsb_exists. split.
  - intros (p & Hin & Heq). exists p. split; [now apply list_elem_of_In|].
    now apply String.eqb_eq.
  - intros (p & Hin & Heq). exists p. split; [now apply list_elem_of_In|].
    now apply String.eqb_eq.
Qed.

Lemma add_ref_keeps (pl : Playlist) (cur : list PlaylistRef) (ref : PlaylistRef) :
  ref ∈ cur -> ref ∈ add_ref pl cur.
Proof.
  unfold add_ref. destruct (existsb _ cur); [auto|].
  intros H. apply elem_of_app. now left.
Qed.

Lemma add_ref_lists (pl : Playlist) (cur : list PlaylistRef) :
  exists ref, ref ∈ add_ref pl cur /\ ref_id ref = pl_id pl.
Proof.
  unfold add_ref. destruct (existsb _ cur) eqn:E.
  - now apply existsb_ref_id in E.
  - exists {| ref_id := pl_id pl; ref_title := pl_title pl |}. split; [|reflexivity].
    apply elem_of_app. right. left.
Qed.

Lemma add_ref_origin (pl : Playlist) (cur : list PlaylistRef) (ref : PlaylistRef) :
  ref ∈ add_ref pl cur ->
  ref ∈ cur \/ ref = {| ref_id := pl_id pl; ref_title := pl_title pl |}.
Proof.
  unfold add_ref. destruct (existsb _ cur); [auto|].
  rewrite elem_of_app, list_elem_of_singleton. tauto.
Qed.

Lemma add_ref_NoDup (pl : Playlist) (cur : list PlaylistRef) :
  NoDup (map ref_id cur) -> NoDup (map ref_id (add_ref pl cur)).
Proof.
  unfold add_ref. destruct (existsb _ cur) eqn:E; [auto|].
  intros Hnd. rewrite map_app. simpl. apply NoDup_app. split; [assumption|].
  split; [|apply NoDup_singleton].
  intros x Hx Hx'. apply list_elem_of_singleton in Hx'. subst x.
  apply list_elem_of_fmap in Hx as (p & Hp & Hin).
  assert (existsb (fun p => String.eqb (ref_id p) (pl_id pl)) cur = true) as E'.
  { apply existsb_ref_id. eauto. }
  congruence.
Qed.

Lemma add_saved_lookup (pl : Playlist) (vid vid' : string)
    (m : gmap string (list PlaylistRef)) :
  add_saved pl vid m !! vid'
  = if decide (vid' = vid) then Some (add_ref pl (refs_of m vid)) else m !! vid'.
Proof.
  unfold add_saved, add_ref, refs_of.
  destruct (m !! vid) as [cur|] eqn:Em; simpl.
  - rewrite Em. simpl. destruct (existsb _ cur).
    + case_decide; [subst; assumption|reflexivity].
    + rewrite lookup_insert. repeat case_decide; congruence.
  - rewrite lookup_insert_eq. simpl.
    rewrite lookup_insert. case_decide.
    + subst. now rewrite decide_True.
    + rewrite decide_False by congruence. now rewrite lookup_insert_ne.
Qed.

(** The index after one playlist, whatever the order in which the set
    [p_ids] is iterated. *)
Lemma index_playlist_lookup (pl : Playlist) (p_ids : gset string)
    (m : gmap string (list PlaylistRef)) (vid : string) :
  index_playlist pl p_ids m !! vid
  = if decide (vid ∈ p_ids) then Some (add_ref pl (refs_of m vid)) else m !! vid.
Proof.
  unfold index_playlist. revert vid.
  refine (set_fold_ind_L
            (fun r (X : gset string) => forall vid,
                 r !! vid = if decide (vid ∈ X)
                            then Some (add_ref pl (refs_of m vid)) else m !! vid)
            (add_saved pl) m _ _ p_ids).
  - intros vid. rewrite decide_False by set_solver. reflexivity.
  - intros x X r Hx IH vid. rewrite add_saved_lookup.
    destruct (decide (vid = x)) as [->|Hne].
    + rewrite (decide_True (P := x ∈ {[x]} ∪ X)) by (apply elem_of_union; left; now apply elem_of_singleton).
      unfold refs_of at 1. rewrite IH, (decide_False (P := x ∈ X)) by assumption. reflexivity.
    + rewrite IH. destruct (decide (vid ∈ X)) as [Hin|Hin].
      * rewrite (decide_True (P := vid ∈ {[x]} ∪ X)) by (apply elem_of_union; now right).
        reflexivity.
      * rewrite (decide_False (P := vid ∈ {[x]} ∪ X)); [reflexivity|].
        rewrite elem_of_union, elem_of_singleton. tauto.
Qed.

Lemma index_playlist_refs (pl : Playlist) (p_ids : gset string)
    (m : gmap string (list PlaylistRef)) (vid : string) :
  refs_of (index_playlist pl p_ids m) vid
  = if decide (vid ∈ p_ids) then add_ref pl (refs_of m vid) else refs_of m vid.
Proof.
  unfold refs_of at 1. rewrite index_playlist_lookup.
  destruct (decide (vid ∈ p_ids)); reflexivity.
Qed.

(** *** The short-form set *)

Lemma collect_shorts_from (results : list (option string)) :
  forall (acc : gset string) (v : string),
    v ∈ foldl (fun shorts_set res =>
                 match res with
                 | Some vid => if truthy_str (Some vid) then shorts_set ∪ {[ vid ]}
                               else shorts_set
                 | None => shorts_set
                 end) acc results
    <-> v ∈ acc \/ (v <> "" /\ Some v ∈ results).
Proof.
  induction results as [|res results IH]; intros acc v; simpl.
  - rewrite elem_of_nil. tauto.
  - rewrite IH, elem_of_cons. destruct res as [[|c vid]|]; simpl.
    + naive_solver.
    + rewrite elem_of_union, elem_of_singleton. naive_solver.
    + naive_solver.
Qed.

Lemma collect_shorts_spec (results : list (option string)) (v : string) :
  v ∈ collect_shorts results <-> v <> "" /\ Some v ∈ results.
Proof.
  unfold collect_shorts. rewrite collect_shorts_from. set_solver.
Qed.

(** *** Runs *)

Lemma only_nil (allowed : origin -> bool) : only allowed [].
Proof. constructor. Qed.

Lemma only_app (allowed : origin -> bool) (t1 t2 : list event) :
  only allowed (t1 ++ t2) <-> only allowed t1 /\ only allowed t2.
Proof. unfold only. apply Forall_app. Qed.

Lemma only_weaken (a b : origin -> bool) (t : list event) :
  (forall o, a o = true -> b o = true) -> only a t -> only b t.
Proof.
  intros Hab Ht. unfold only in *. eapply Forall_impl; [exact Ht|].
  intros ev. apply Hab.
Qed.

Lemma only_omap_nil {B} (allowed : origin -> bool) (f : event -> option B) (t : list event) :
  (forall ev, allowed (origin_of ev) = true -> f ev = None) ->
  only allowed t -> omap f t = [].
Proof.
  intros Hf. induction 1 as [|ev t Hev _ IH]; simpl; [reflexivity|].
  now rewrite (Hf ev Hev).
Qed.

Lemma only_not_elem (allowed : origin -> bool) (t : list event) (ev : event) :
  allowed (origin_of ev) = false -> only allowed t -> ev ∉ t.
Proof.
  intros Hev Ht Hin. unfold only in Ht. rewrite Forall_forall in Ht.
  specialize (Ht ev Hin). congruence.
Qed.

Lemma only_not_served (allowed : origin -> bool) (t : list event) :
  allowed FromCacheHit = false -> only allowed t -> served_from_cache t = false.
Proof.
  intros Ha. induction 1 as [|ev t Hev _ IH]; simpl; [reflexivity|].
  rewrite IH, orb_false_r.
  destruct ev as [| | | | | | | | | | |l m]; try reflexivity.
  destruct l; try reflexivity. destruct m; try reflexivity.
  simpl in Hev. congruence.
Qed.

Lemma served_from_cache_app (t1 t2 : list event) :
  served_from_cache (t1 ++ t2) = served_from_cache t1 || served_from_cache t2.
Proof. unfold served_from_cache. apply existsb_app. Qed.

Section Runs.

Context {World : Type}.

Lemma bind_Ok_inv {A B} (m : M World A) (k : A -> M World B) s b s' t :
  bind m k s = (Ok b, s', t) ->
  exists a s1 t1 t2, m s = (Ok a, s1, t1) /\ k a s1 = (Ok b, s', t2) /\ t = t1 ++ t2.
Proof.
  unfold bind. destruct (m s) as [[[a|e|] s1] t1]; try discriminate.
  destruct (k a s1) as [[r s2] t2] eqn:Ek. intros H. injection H as -> -> <-.
  eauto 10.
Qed.

Lemma try_except_Ok_inv {A} (m : M World A) (h : exn -> M World A) s a s' t :
  try_except m h s = (Ok a, s', t) ->
  m s = (Ok a, s', t)
  \/ exists e s1 t1 t2, m s = (Raise e, s1, t1) /\ h e s1 = (Ok a, s', t2) /\ t = t1 ++ t2.
Proof.
  unfold try_except. destruct (m s) as [[[a'|e|] s1] t1]; try discriminate.
  - intros H. now left.
  - destruct (h e s1) as [[r s2] t2] eqn:Eh. intros H. injection H as -> -> <-.
    right. eauto 10.
Qed.

Lemma quiet_ret {A} allowed (a : A) : quiet allowed (ret (World:=World) a).
Proof. intros s r s' t H. injection H as <- <- <-. split; [reflexivity|apply only_nil]. Qed.

Lemma quiet_raise {A} allowed (e : exn) : quiet allowed (raise (World:=World) (A:=A) e).
Proof. intros s r s' t H. injection H as <- <- <-. split; [reflexivity|apply only_nil]. Qed.

Lemma quiet_out_of_fuel {A} allowed : quiet allowed (out_of_fuel (World:=World) (A:=A)).
Proof. intros s r s' t H. injection H as <- <- <-. split; [reflexivity|apply only_nil]. Qed.

Lemma quiet_bind {A B} allowed (m : M World A) (k : A -> M World B) :
  quiet allowed m -> (forall a, quiet allowed (k a)) -> quiet allowed (bind m k).
Proof.
  intros Hm Hk s r s' t. unfold bind.
  destruct (m s) as [[[a|e|] s1] t1] eqn:Em.
  - destruct (k a s1) as [[r2 s2] t2] eqn:Ek. intros H. injection H as <- <- <-.
    destruct (Hm _ _ _ _ Em) as [Hc1 Ht1]. destruct (Hk a _ _ _ _ Ek) as [Hc2 Ht2].
    split; [congruence|]. apply only_app. auto.
  - intros H. injection H as <- <- <-. exact (Hm _ _ _ _ Em).
  - intros H. injection H as <- <- <-. exact (Hm _ _ _ _ Em).
Qed.

Lemma quiet_try_except {A} allowed (m : M World A) (h : exn -> M World A) :
  quiet allowed m -> (forall e, quiet allowed (h e)) -> quiet allowed (try_except m h).
Proof.
  intros Hm Hh s r s' t. unfold try_except.
  destruct (m s) as [[[a|e|] s1] t1] eqn:Em.
  - intros H. injection H as <- <- <-. exact (Hm _ _ _ _ Em).
  - destruct (h e s1) as [[r2 s2] t2] eqn:Eh. intros H. injection H as <- <- <-.
    destruct (Hm _ _ _ _ Em) as [Hc1 Ht1]. destruct (Hh e _ _ _ _ Eh) as [Hc2 Ht2].
    split; [congruence|]. apply only_app. auto.
  - intros H. injection H as <- <- <-. exact (Hm _ _ _ _ Em).
Qed.

Lemma quiet_call {A} allowed (f : World -> response A * World) (ev : response A -> event) :
  (forall r, allowed (origin_of (ev r)) = true) -> quiet allowed (call f ev).
Proof.
  intros Hev s r s' t. unfold call. destruct (f (world s)) as [[a|e] w];
    intros H; injection H as <- <- <-; (split; [reflexivity|]);
    repeat constructor; apply Hev.
Qed.

Lemma quiet_read_clock {A} allowed (f : World -> A * World) (ev : A -> event) :
  (forall a, allowed (origin_of (ev a)) = true) -> quiet allowed (read_clock f ev).
Proof.
  intros Hev s r s' t. unfold read_clock. destruct (f (world s)) as [a w].
  intros H; injection H as <- <- <-. split; [reflexivity|].
  repeat constructor; apply Hev.
Qed.

Lemma quiet_log allowed (l : level) (m : message) :
  allowed (origin_of (Log l m)) = true -> quiet allowed (log (World:=World) l m).
Proof.
  intros Hev s r s' t H. injection H as <- <- <-. split; [reflexivity|].
  repeat constructor; exact Hev.
Qed.

Lemma quiet_weaken {A} (a b : origin -> bool) (m : M World A) :
  (forall o, a o = true -> b o = true) -> quiet a m -> quiet b m.
Proof.
  intros Hab Hm s r s' t H. destruct (Hm _ _ _ _ H). split; [assumption|].
  eapply only_weaken; eassumption.
Qed.

Lemma quiet_subscript {A} allowed (value : option A) :
  quiet allowed (subscript (World:=World) value).
Proof. destruct value; [apply quiet_ret|apply quiet_raise]. Qed.

(** The record of a computation made of genuine parts is genuine. *)
Context (rt : Runtime World) (youtube : option (Resource World)).

Lemma genuine_app (w w1 w2 : World) (t1 t2 : list event) :
  genuine rt youtube w t1 w1 -> genuine rt youtube w1 t2 w2 ->
  genuine rt youtube w (t1 ++ t2) w2.
Proof.
  induction 1; intros H2; simpl; [exact H2|..]; econstructor; eauto.
Qed.

Lemma faithful_ret {A} (a : A) : faithful rt youtube (ret a).
Proof. intros s r s' t H. injection H as <- <- <-. constructor. Qed.

Lemma faithful_raise {A} (e : exn) : faithful rt youtube (raise (A:=A) e).
Proof. intros s r s' t H. injection H as <- <- <-. constructor. Qed.

Lemma faithful_out_of_fuel {A} : faithful rt youtube (out_of_fuel (A:=A)).
Proof. intros s r s' t H. injection H as <- <- <-. constructor. Qed.

Lemma faithful_subscript {A} (value : option A) : faithful rt youtube (subscript value).
Proof. destruct value; [apply faithful_ret|apply faithful_raise]. Qed.

Lemma faithful_log (l : level) (m : message) : faithful rt youtube (log l m).
Proof. intros s r s' t H. injection H as <- <- <-. repeat constructor. Qed.

Lemma faithful_read_FEED_CACHE : faithful rt youtube read_FEED_CACHE.
Proof. intros s r s' t H. injection H as <- <- <-. constructor. Qed.

Lemma faithful_write_FEED_CACHE (c : cache) : faithful rt youtube (write_FEED_CACHE c).
Proof. intros s r s' t H. injection H as <- <- <-. constructor. Qed.

Lemma faithful_bind {A B} (m : M World A) (k : A -> M World B) :
  faithful rt youtube m -> (forall a, faithful rt youtube (k a)) ->
  faithful rt youtube (bind m k).
Proof.
  intros Hm Hk s r s' t. unfold bind.
  destruct (m s) as [[[a|e|] s1] t1] eqn:Em.
  - destruct (k a s1) as [[r2 s2] t2] eqn:Ek. intros H. injection H as <- <- <-.
    eapply genuine_app; [exact (Hm _ _ _ _ Em)|exact (Hk a _ _ _ _ Ek)].
  - intros H. injection H as <- <- <-. exact (Hm _ _ _ _ Em).
  - intros H. injection H as <- <- <-. exact (Hm _ _ _ _ Em).
Qed.

Lemma faithful_try_except {A} (m : M World A) (h : exn -> M World A) :
  faithful rt youtube m -> (forall e, faithful rt youtube (h e)) ->
  faithful rt youtube (try_except m h).
Proof.
  intros Hm Hh s r s' t. unfold try_except.
  destruct (m s) as [[[a|e|] s1] t1] eqn:Em.
  - intros H. injection H as <- <- <-. exact (Hm _ _ _ _ Em).
  - destruct (h e s1) as [[r2 s2] t2] eqn:Eh. intros H. injection H as <- <- <-.
    eapply genuine_app; [exact (Hm _ _ _ _ Em)|exact (Hh e _ _ _ _ Eh)].
  - intros H. injection H as <- <- <-. exact (Hm _ _ _ _ Em).
Qed.

(** A request is genuine when its record is built by the constructor of
    its collaborator. *)
Lemma faithful_call {A} (f : World -> response A * World) (ev : response A -> event) :
  (forall w r w1, f w = (r, w1) -> genuine rt youtube w [ev r] w1) ->
  faithful rt youtube (call f ev).
Proof.
  intros Hev s r s' t. unfold call. destruct (f (world s)) as [[a|e] w] eqn:Ef;
    intros H; injection H as <- <- <-; exact (Hev _ _ _ Ef).
Qed.

Lemma faithful_read_clock {A} (f : World -> A * World) (ev : A -> event) :
  (forall w a w1, f w = (a, w1) -> genuine rt youtube w [ev a] w1) ->
  faithful rt youtube (read_clock f ev).
Proof.
  intros Hev s r s' t. unfold read_clock. destruct (f (world s)) as [a w] eqn:Ef.
  intros H. injection H as <- <- <-. exact (Hev _ _ _ Ef).
Qed.

End Runs.

Ltac genuine_call :=
  intros; econstructor; [try reflexivity; eassumption..|constructor].

Ltac faithful_step :=
  first
    [ apply faithful_ret
    | apply faithful_raise
    | apply faithful_out_of_fuel
    | apply faithful_subscript
    | apply faithful_log
    | apply faithful_read_FEED_CACHE
    | apply faithful_write_FEED_CACHE
    | apply faithful_call; genuine_call
    | apply faithful_read_clock; genuine_call
    | apply faithful_bind; [|intros]
    | apply faithful_try_except; [|intros]
    | match goal with
      | |- faithful _ _ (if ?b then _ else _) => destruct b
      end ].

Ltac quiet_step :=
  first
    [ apply quiet_ret
    | apply quiet_raise
    | apply quiet_subscript
    | apply quiet_out_of_fuel
    | apply quiet_log; reflexivity
    | apply quiet_call; intros; reflexivity
    | apply quiet_read_clock; intros; reflexivity
    | apply quiet_bind; [|intros]
    | apply quiet_try_except; [|intros] ].

(** *** The upload fetcher *)

Section Uploads.

Context {World : Type}.

Lemma get_recent_videos_loop_quiet (youtube : Resource World) (playlist_ids : list string) :
  forall videos, quiet uploads_or_log (get_recent_videos_loop youtube playlist_ids videos).
Proof.
  induction playlist_ids as [|pid rest IH]; intros videos; simpl.
  - quiet_step.
  - repeat quiet_step. apply IH.
Qed.

Lemma snippet_calls_app (t1 t2 : list event) :
  snippet_calls (t1 ++ t2) = snippet_calls t1 ++ snippet_calls t2.
Proof. unfold snippet_calls. apply omap_app. Qed.

Lemma fetched_app (t1 t2 : list event) : fetched (t1 ++ t2) = fetched t1 ++ fetched t2.
Proof. unfold fetched. now rewrite snippet_calls_app, map_app, concat_app. Qed.

Lemma fetched_zip (pids : list string) (rs : list (response (list PlaylistItem))) :
  length rs = length pids ->
  concat (map (fun c => contribution (snd c)) (zip pids rs)) = concat (map contribution rs).
Proof.
  revert rs. induction pids as [|pid pids IH]; intros [|r rs]; simpl; try discriminate.
  - reflexivity.
  - intros H. injection H as H. now rewrite IH.
Qed.

(** The loop asks for every feed in turn, whatever the earlier requests
    did, and extends [videos] with what each request contributes. *)
Lemma get_recent_videos_loop_run (youtube : Resource World) (playlist_ids : list string) :
  forall videos s,
  exists rs s' t,
    get_recent_videos_loop youtube playlist_ids videos s
    = (Ok (videos ++ concat (map contribution rs)), s', t)
    /\ length rs = length playlist_ids
    /\ snippet_calls t = zip playlist_ids rs.
Proof.
  induction playlist_ids as [|pid rest IH]; intros videos s.
  - exists [], s, []. simpl. unfold ret. rewrite app_nil_r. auto.
  - cbn [get_recent_videos_loop]. unfold bind at 1, try_except, bind at 1, call.
    destruct (playlistItems_list_snippet youtube pid (world s)) as [[items|e] w] eqn:Ecall.
    + cbn [ret]. set (s1 := {| FEED_CACHE := FEED_CACHE s; world := w |}).
      destruct (IH (videos ++ items) s1) as (rs & s' & t & Hrun & Hlen & Hcalls).
      exists (Returns items :: rs), s', (Call_playlistItems_snippet pid (Returns items) :: t).
      rewrite Hrun. simpl. rewrite Hcalls, Hlen, <- app_assoc. auto.
    + cbn [log ret bind]. set (s1 := {| FEED_CACHE := FEED_CACHE s; world := w |}).
      destruct (IH videos s1) as (rs & s' & t & Hrun & Hlen & Hcalls).
      exists (Raises e :: rs), s',
        (Call_playlistItems_snippet pid (Raises e)
           :: Log Error (Error_fetching_playlist pid e) :: t).
      rewrite Hrun. simpl. rewrite Hcalls, Hlen. auto.
Qed.

Lemma uploads_responses_length (youtube : Resource World) (playlist_ids : list string) :
  forall w, length (fst (uploads_responses youtube playlist_ids w)) = length playlist_ids.
Proof.
  induction playlist_ids as [|pid rest IH]; intros w; simpl; [reflexivity|].
  destruct (playlistItems_list_snippet youtube pid w) as [r w1].
  specialize (IH w1). destruct (uploads_responses youtube rest w1) as [rs w2].
  simpl in *. now rewrite IH.
Qed.

Lemma snippet_calls_upload_events (playlist_ids : list string)
    (rs : list (response (list PlaylistItem))) :
  snippet_calls (concat (zip_with upload_events playlist_ids rs)) = zip playlist_ids rs.
Proof.
  revert rs. induction playlist_ids as [|pid rest IH]; intros [|r rs]; simpl;
    try reflexivity.
  rewrite snippet_calls_app, IH. destruct r; reflexivity.
Qed.

(** The loop, request by request: its responses are those the platform
    gives, one after the other, to the requests for the feeds. *)
Lemma get_recent_videos_loop_eq (youtube : Resource World) (playlist_ids : list string) :
  forall videos s,
    get_recent_videos_loop youtube playlist_ids videos s
    = let '(rs, w') := uploads_responses youtube playlist_ids (world s) in
      (Ok (videos ++ concat (map contribution rs)),
       {| FEED_CACHE := FEED_CACHE s; world := w' |},
       concat (zip_with upload_events playlist_ids rs)).
Proof.
  induction playlist_ids as [|pid rest IH]; intros videos s.
  - destruct s. simpl. unfold ret. now rewrite app_nil_r.
  - cbn [get_recent_videos_loop uploads_responses].
    unfold bind at 1, try_except, bind at 1, call.
    destruct (playlistItems_list_snippet youtube pid (world s)) as [[items|e] w].
    + cbn [ret]. rewrite IH. cbn [world FEED_CACHE].
      destruct (uploads_responses youtube rest w) as [rs w2]. simpl.
      now rewrite <- app_assoc.
    + cbn [log bind ret]. rewrite IH. cbn [world FEED_CACHE].
      destruct (uploads_responses youtube rest w) as [rs w2]. reflexivity.
Qed.

Lemma get_recent_videos_loop_faithful (rt : Runtime World) (youtube : Resource World)
    (playlist_ids : list string) :
  forall videos,
    faithful rt (Some youtube) (get_recent_videos_loop youtube playlist_ids videos).
Proof.
  induction playlist_ids as [|pid rest IH]; intros videos; simpl.
  - faithful_step.
  - repeat faithful_step. apply IH.
Qed.

End Uploads.

(** *** The date filter and the short-form classifier *)

Section Filters.

Context {World : Type} (rt : Runtime World).

Lemma filter_by_date_run (cutoff_time : Z) (raw_videos : list PlaylistItem) :
  forall filtered_videos s,
  exists t,
    filter_by_date rt cutoff_time raw_videos filtered_videos s
    = (Ok (filtered_videos
           ++ List.filter (fun v => is_recent rt cutoff_time (publishedAt v)) raw_videos),
       s, t)
    /\ only log_only t.
Proof.
  induction raw_videos as [|v rest IH]; intros filtered_videos s.
  - exists []. simpl. unfold ret. rewrite app_nil_r. split; [reflexivity|apply only_nil].
  - cbn [filter_by_date List.filter]. unfold is_recent at 1.
    unfold bind at 1, try_except, bind at 1.
    destruct (publishedAt v) as [pub_str|].
    + cbn [subscript ret]. unfold bind at 1.
      destruct (fromisoformat rt (normalize_utc pub_str)) as [[us|us]|].
      * cbn [ret raise datetime_ge bind log].
        destruct (IH filtered_videos s) as (t & Hrun & Ht).
        exists (Log Warning (Error_parsing_date (item_id v) TypeError) :: t).
        rewrite Hrun. split; [reflexivity|]. constructor; [reflexivity|exact Ht].
      * cbn [ret raise datetime_ge bind log].
        destruct (cutoff_time <=? us).
        -- destruct (IH (filtered_videos ++ [v]) s) as (t & Hrun & Ht).
           exists t. rewrite Hrun, <- app_assoc. split; [reflexivity|exact Ht].
        -- destruct (IH filtered_videos s) as (t & Hrun & Ht).
           exists t. rewrite Hrun. split; [reflexivity|exact Ht].
      * cbn [ret raise datetime_ge bind log].
        destruct (IH filtered_videos s) as (t & Hrun & Ht).
        exists (Log Warning (Error_parsing_date (item_id v) ValueError) :: t).
        rewrite Hrun. split; [reflexivity|]. constructor; [reflexivity|exact Ht].
    + cbn [subscript raise log bind ret].
      destruct (IH filtered_videos s) as (t & Hrun & Ht).
      exists (Log Warning (Error_parsing_date (item_id v) KeyError) :: t).
      rewrite Hrun. split; [reflexivity|]. constructor; [reflexivity|exact Ht].
Qed.

Lemma check_single_run (vid : string) (s : state World) :
  check_single rt vid s
  = let '(r, w) := client_head rt (shorts_url vid) (world s) in
    (Ok (confirmed vid r), {| FEED_CACHE := FEED_CACHE s; world := w |},
     [Call_head (shorts_url vid) r]).
Proof.
  unfold check_single, try_except, bind, call, shorts_url.
  destruct (client_head rt _ (world s)) as [[status|e] w]; simpl.
  - destruct (status =? 200); reflexivity.
  - reflexivity.
Qed.

Lemma probe_responses_length (video_ids : list string) :
  forall w, length (fst (probe_responses rt video_ids w)) = length video_ids.
Proof.
  induction video_ids as [|vid rest IH]; intros w; simpl; [reflexivity|].
  destruct (client_head rt (shorts_url vid) w) as [r w1].
  specialize (IH w1). destruct (probe_responses rt rest w1) as [rs w2].
  simpl in *. now rewrite IH.
Qed.

(** Every id is probed, in order; no response stops the others. *)
Lemma gather_check_single_eq (video_ids : list string) :
  forall s,
    gather (map (check_single rt) video_ids) s
    = let '(rs, w') := probe_responses rt video_ids (world s) in
      (Ok (zip_with confirmed video_ids rs),
       {| FEED_CACHE := FEED_CACHE s; world := w' |},
       zip_with Call_head (map shorts_url video_ids) rs).
Proof.
  induction video_ids as [|vid rest IH]; intros s.
  - destruct s. reflexivity.
  - cbn [map gather probe_responses]. unfold bind at 1. rewrite check_single_run.
    destruct (client_head rt (shorts_url vid) (world s)) as [r w].
    unfold bind at 1. rewrite IH. cbn [world FEED_CACHE].
    destruct (probe_responses rt rest w) as [rs w2]. simpl.
    now rewrite app_nil_r.
Qed.

Lemma head_calls_zip (urls : list string) (rs : list (response Z)) :
  head_calls (zip_with Call_head urls rs) = zip urls rs.
Proof.
  revert rs. induction urls as [|u urls IH]; intros [|r rs]; simpl; try reflexivity.
  unfold head_calls in *. simpl. now rewrite IH.
Qed.

Lemma only_probe_zip (urls : list string) (rs : list (response Z)) :
  only probe_only (zip_with Call_head urls rs).
Proof.
  revert rs. induction urls as [|u urls IH]; intros [|r rs]; simpl; try apply only_nil.
  constructor; [reflexivity|apply IH].
Qed.

(** The classifier, step by step: the client is created, the ids are
    probed, the client is closed.  An exception of the first or the last
    step is the classifier's. *)
Lemma check_is_short_parallel_eq (video_ids : list string) (s : state World) :
  check_is_short_parallel rt video_ids s
  = let '(opened, w0) := httpx_AsyncClient rt (world s) in
    match opened with
    | Raises e =>
        (Raise e, {| FEED_CACHE := FEED_CACHE s; world := w0 |}, [Call_AsyncClient opened])
    | Returns _ =>
        let '(rs, w1) := probe_responses rt video_ids w0 in
        let '(closed, w2) := client_aclose rt w1 in
        let t := Call_AsyncClient opened
                 :: zip_with Call_head (map shorts_url video_ids) rs
                 ++ [Call_aclose closed] in
        match closed with
        | Raises e => (Raise e, {| FEED_CACHE := FEED_CACHE s; world := w2 |}, t)
        | Returns _ =>
            (Ok (collect_shorts (zip_with confirmed video_ids rs)),
             {| FEED_CACHE := FEED_CACHE s; world := w2 |}, t)
        end
    end.
Proof.
  unfold check_is_short_parallel. unfold bind at 1, call at 1.
  destruct (httpx_AsyncClient rt (world s)) as [[[]|e] w0]; [|reflexivity].
  unfold bind at 1. rewrite gather_check_single_eq. cbn [world FEED_CACHE].
  destruct (probe_responses rt video_ids w0) as [rs w1].
  unfold bind, call. cbn [world FEED_CACHE].
  destruct (client_aclose rt w1) as [[[]|e] w2]; cbn [ret];
    now rewrite ?app_nil_r.
Qed.

(** A completed run of the classifier. *)
Lemma check_is_short_parallel_run (video_ids : list string) (s s' : state World)
    (shorts : gset string) (t : list event) :
  check_is_short_parallel rt video_ids s = (Ok shorts, s', t) ->
  exists rs,
    length rs = length video_ids
    /\ shorts = collect_shorts (zip_with confirmed video_ids rs)
    /\ head_calls t = zip (map shorts_url video_ids) rs
    /\ only probe_only t
    /\ FEED_CACHE s' = FEED_CACHE s.
Proof.
  rewrite check_is_short_parallel_eq.
  destruct (httpx_AsyncClient rt (world s)) as [[[]|e] w0]; [|discriminate].
  pose proof (probe_responses_length video_ids w0) as Hlen.
  destruct (probe_responses rt video_ids w0) as [rs w1].
  destruct (client_aclose rt w1) as [[[]|e] w2]; [|discriminate].
  intros H. injection H as <- <- <-. exists rs. cbn [fst] in Hlen.
  split; [exact Hlen|]. split; [reflexivity|]. split.
  - change (head_calls (Call_AsyncClient (Returns tt)
                        :: zip_with Call_head (map shorts_url video_ids) rs
                        ++ [Call_aclose (Returns tt)]))
      with (head_calls (zip_with Call_head (map shorts_url video_ids) rs
                        ++ [Call_aclose (Returns tt)])).
    unfold head_calls at 1. rewrite omap_app. fold (head_calls (zip_with Call_head
      (map shorts_url video_ids) rs)). rewrite head_calls_zip. cbn. now rewrite app_nil_r.
  - split; [|reflexivity]. constructor; [reflexivity|].
    apply only_app. split; [apply only_probe_zip|]. repeat constructor.
Qed.

Lemma check_is_short_parallel_quiet (video_ids : list string) :
  quiet probe_only (check_is_short_parallel rt video_ids).
Proof.
  intros s r s' t. rewrite check_is_short_parallel_eq.
  destruct (httpx_AsyncClient rt (world s)) as [[[]|e] w0].
  - destruct (probe_responses rt video_ids w0) as [rs w1].
    destruct (client_aclose rt w1) as [[[]|e] w2]; intros H; injection H as <- <- <-;
      (split; [reflexivity|]); (constructor; [reflexivity|]);
      (apply only_app; split; [apply only_probe_zip|repeat constructor]).
  - intros H. injection H as <- <- <-. split; [reflexivity|]. repeat constructor.
Qed.

Lemma gather_check_single_faithful (youtube : option (Resource World))
    (video_ids : list string) :
  faithful rt youtube (gather (map (check_single rt) video_ids)).
Proof.
  induction video_ids as [|vid rest IH]; cbn [map gather].
  - faithful_step.
  - faithful_step; [unfold check_single; repeat faithful_step|].
    faithful_step; [exact IH|faithful_step].
Qed.

Lemma check_is_short_parallel_faithful (youtube : option (Resource World))
    (video_ids : list string) :
  faithful rt youtube (check_is_short_parallel rt video_ids).
Proof.
  unfold check_is_short_parallel.
  faithful_step; [faithful_step|].
  faithful_step; [apply gather_check_single_faithful|].
  repeat faithful_step.
Qed.

Lemma filter_by_date_faithful (youtube : option (Resource World)) (cutoff_time : Z)
    (raw_videos : list PlaylistItem) :
  forall filtered_videos,
    faithful rt youtube (filter_by_date rt cutoff_time raw_videos filtered_videos).
Proof.
  induction raw_videos as [|v rest IH]; intros filtered_videos; cbn [filter_by_date].
  - faithful_step.
  - faithful_step; [|apply IH].
    faithful_step; [|repeat faithful_step].
    faithful_step; [faithful_step|].
    faithful_step; [destruct (fromisoformat rt _); faithful_step|].
    faithful_step; [|faithful_step].
    unfold datetime_ge. destruct a0; faithful_step.
Qed.


End Filters.




(** A client that cannot be created: the classifier raises, before any
    probe. *)
Example check_is_short_parallel_no_client :
  check_is_short_parallel DemoFaults.rt_no_client ["short1"] (Demo.start FEED_CACHE_init)
  = (Raise TransportError, Demo.start FEED_CACHE_init,
     [Call_AsyncClient (Raises TransportError)]).
Proof. reflexivity. Qed.

(** C8.  For every list of upload-feed ids, the fetcher asks for every feed
    in turn and always returns.  The responses are those the platform gives
    to these requests, one after the other, whatever the earlier ones were;
    the result is the concatenation, in order, of what each request
    contributes: the items of a request that returned and nothing for a
    request that raised, which is logged. *)
Theorem upload_fetcher_partial_failure {World : Type} (youtube : Resource World)
    (playlist_ids : list string) (s : state World) :
  exists rs w' t,
    uploads_responses youtube playlist_ids (world s) = (rs, w')
    /\ get_recent_videos_from_playlists youtube playlist_ids s
       = (Ok (concat (map (fun r => match r with
                                    | Returns items => items
                                    | Raises _ => []
                                    end) rs)),
          {| FEED_CACHE := FEED_CACHE s; world := w' |}, t)
    /\ length rs = length playlist_ids
    /\ snippet_calls t = zip playlist_ids rs
    /\ t = concat (zip_with upload_events playlist_ids rs).
Proof.
  unfold get_recent_videos_from_playlists. rewrite get_recent_videos_loop_eq.
  pose proof (uploads_responses_length youtube playlist_ids (world s)) as Hlen.
  destruct (uploads_responses youtube playlist_ids (world s)) as [rs w'].
  exists rs, w', (concat (zip_with upload_events playlist_ids rs)).
  split; [reflexivity|]. split; [reflexivity|]. split; [exact Hlen|].
  split; [apply snippet_calls_upload_events|reflexivity].
Qed.

(** A feed that fails between two that answer: the items of the two come
    back, in order, and the failure is logged. *)
Example upload_fetcher_demo :
  get_recent_videos_from_playlists DemoFaults.youtube_flaky ["UU1"; "broken"; "UU2"]
    (Demo.start FEED_CACHE_init)
  = (Ok [Demo.recent_video; Demo.old_video], Demo.start FEED_CACHE_init,
     [Call_playlistItems_snippet "UU1" (Returns [Demo.recent_video]);
      Call_playlistItems_snippet "broken" (Raises (HttpError 404));
      Log Error (Error_fetching_playlist "broken" (HttpError 404));
      Call_playlistItems_snippet "UU2" (Returns [Demo.old_video])]).
Proof. reflexivity. Qed.

(** *** The saved-status resolver *)

Section Collections.

Context {World : Type}.

Lemma get_playlist_video_ids_loop_quiet (youtube : Resource World) (playlist_id : string)
    (n : nat) :
  forall video_ids next_page_token,
    quiet members_or_log
      (get_playlist_video_ids_loop n youtube playlist_id video_ids next_page_token).
Proof.
  induction n as [|n IH]; intros video_ids next_page_token; simpl.
  - quiet_step.
  - repeat quiet_step. destruct a as [[ids token] [|]]; [quiet_step|apply IH].
Qed.

(** The set returned holds the ids collected before and the ids of every
    page that came back; all requests are for [playlist_id]. *)
Lemma get_playlist_video_ids_loop_run (youtube : Resource World) (playlist_id : string)
    (n : nat) :
  forall video_ids next_page_token s,
  exists ids s' t,
    get_playlist_video_ids_loop n youtube playlist_id video_ids next_page_token s
    = (Ok ids, s', t)
    /\ (forall vid,
          vid ∈ ids
          <-> vid ∈ video_ids
              \/ exists token page,
                   Call_playlistItems_ids playlist_id token (Returns page) ∈ t
                   /\ vid ∈ page_videoIds page)
    /\ (forall pid token r, Call_playlistItems_ids pid token r ∈ t -> pid = playlist_id).
Proof.
  induction n as [|n IH]; intros video_ids next_page_token s.
  - exists video_ids, s, []. simpl. unfold ret. split; [reflexivity|]. split.
    + intros vid. split; [auto|]. intros [H|(token & page & H & _)]; [exact H|].
      now apply elem_of_nil in H.
    + intros pid token r H. now apply elem_of_nil in H.
  - cbn [get_playlist_video_ids_loop]. unfold bind at 1, try_except, bind at 1, call.
    destruct (playlistItems_list_ids youtube playlist_id next_page_token (world s))
      as [[page|e] w].
    + cbn [ret]. set (s1 := {| FEED_CACHE := FEED_CACHE s; world := w |}).
      set (ev := Call_playlistItems_ids playlist_id next_page_token (Returns page)).
      destruct (negb (truthy_str (items_nextPageToken page))).
      * exists (video_ids ∪ list_to_set (page_videoIds page)), s1, [ev].
        split; [reflexivity|]. split.
        -- intros vid. rewrite elem_of_union, elem_of_list_to_set. split.
           ++ intros [H|H]; [now left|]. right. exists next_page_token, page.
              split; [left|exact H].
           ++ intros [H|(token & page' & Hev & Hin)]; [now left|]. right.
              apply list_elem_of_singleton in Hev. injection Hev as _ ->. exact Hin.
        -- intros pid token r Hev. apply list_elem_of_singleton in Hev.
           now injection Hev as -> _ _.
      * destruct (IH (video_ids ∪ list_to_set (page_videoIds page))
                     (items_nextPageToken page) s1)
          as (ids & s' & t & Hrun & Hids & Hpid).
        exists ids, s', (ev :: t). rewrite Hrun. split; [reflexivity|]. split.
        -- intros vid. rewrite Hids, elem_of_union, elem_of_list_to_set. split.
           ++ intros [[H|H]|(token & page' & Hev & Hin)]; [now left| |].
              ** right. exists next_page_token, page. split; [left|exact H].
              ** right. exists token, page'. split; [now right|exact Hin].
           ++ intros [H|(token & page' & Hev & Hin)]; [now left; left|].
              apply elem_of_cons in Hev as [Hev|Hev].
              ** injection Hev as _ ->. left. now right.
              ** right. eauto.
        -- intros pid token r Hev. apply elem_of_cons in Hev as [Hev|Hev].
           ++ now injection Hev as -> _ _.
           ++ eauto.
    + cbn [log bind ret]. set (s1 := {| FEED_CACHE := FEED_CACHE s; world := w |}).
      exists video_ids, s1,
        [Call_playlistItems_ids playlist_id next_page_token (Raises e);
         Log Error (Error_fetching_playlist_items e)].
      split; [reflexivity|]. split.
      * intros vid. split; [auto|]. intros [H|(token & page & Hev & _)]; [exact H|].
        apply elem_of_cons in Hev as [Hev|Hev]; [discriminate|].
        apply list_elem_of_singleton in Hev. discriminate.
      * intros pid token r Hev. apply elem_of_cons in Hev as [Hev|Hev].
        -- now injection Hev as -> _ _.
        -- apply list_elem_of_singleton in Hev. discriminate.
Qed.

Lemma get_user_playlists_loop_quiet (youtube : Resource World) (fuel : nat) :
  forall playlists next_page_token,
    quiet list_or_log (get_user_playlists_loop fuel youtube playlists next_page_token).
Proof.
  induction fuel as [|fuel IH]; intros playlists next_page_token; simpl.
  - quiet_step.
  - repeat quiet_step. destruct a as [[pls token] [|]]; [quiet_step|apply IH].
Qed.

(** The listing never raises; when it returns, the playlists are those
    listed before and those of every page that came back. *)
Lemma get_user_playlists_loop_run (youtube : Resource World) (fuel : nat) :
  forall playlists next_page_token s,
  exists r s' t,
    get_user_playlists_loop fuel youtube playlists next_page_token s = (r, s', t)
    /\ (r = OutOfFuel
        \/ exists pls,
             r = Ok pls
             /\ forall pl,
                  pl ∈ pls
                  <-> pl ∈ playlists
                      \/ exists token page,
                           Call_playlists_list token (Returns page) ∈ t
                           /\ pl ∈ page_playlists page).
Proof.
  induction fuel as [|fuel IH]; intros playlists next_page_token s.
  - exists OutOfFuel, s, []. simpl. unfold out_of_fuel. auto.
  - cbn [get_user_playlists_loop]. unfold bind at 1, try_except, bind at 1, call.
    destruct (playlists_list youtube next_page_token (world s)) as [[page|e] w].
    + cbn [ret]. set (s1 := {| FEED_CACHE := FEED_CACHE s; world := w |}).
      set (ev := Call_playlists_list next_page_token (Returns page)).
      destruct (negb (truthy_str (playlists_nextPageToken page))).
      * exists (Ok (playlists ++ page_playlists page)), s1, [ev].
        split; [reflexivity|]. right. eexists. split; [reflexivity|].
        intros pl. rewrite elem_of_app. split.
        -- intros [H|H]; [now left|]. right. exists next_page_token, page.
           split; [left|exact H].
        -- intros [H|(token & page' & Hev & Hin)]; [now left|]. right.
           apply list_elem_of_singleton in Hev. injection Hev as _ ->. exact Hin.
      * destruct (IH (playlists ++ page_playlists page)
                     (playlists_nextPageToken page) s1)
          as (r & s' & t & Hrun & Hr).
        exists r, s', (ev :: t). rewrite Hrun.
        split; [destruct r; reflexivity|].
        destruct Hr as [->|(pls & -> & Hpls)]; [now left|]. right.
        exists pls. split; [reflexivity|].
        intros pl. rewrite Hpls, elem_of_app. split.
        -- intros [[H|H]|(token & page' & Hev & Hin)]; [now left| |].
           ++ right. exists next_page_token, page. split; [left|exact H].
           ++ right. exists token, page'. split; [now right|exact Hin].
        -- intros [H|(token & page' & Hev & Hin)]; [now left; left|].
           apply elem_of_cons in Hev as [Hev|Hev].
           ++ injection Hev as _ ->. left. now right.
           ++ right. eauto.
    + cbn [log bind ret]. set (s1 := {| FEED_CACHE := FEED_CACHE s; world := w |}).
      exists (Ok playlists), s1,
        [Call_playlists_list next_page_token (Raises e);
         Log Error (Error_fetching_playlists e)].
      split; [reflexivity|]. right. exists playlists. split; [reflexivity|].
      intros pl. split; [auto|]. intros [H|(token & page & Hev & _)]; [exact H|].
      apply elem_of_cons in Hev as [Hev|Hev]; [discriminate|].
      apply list_elem_of_singleton in Hev. discriminate.
Qed.

End Collections.

Section Index.

Context {World : Type}.

Lemma index_grows_refl (m : gmap string (list PlaylistRef)) : index_grows m m.
Proof. intros vid. auto. Qed.

Lemma index_grows_trans (m1 m2 m3 : gmap string (list PlaylistRef)) :
  index_grows m1 m2 -> index_grows m2 m3 -> index_grows m1 m3.
Proof.
  intros H12 H23 vid. destruct (H12 vid) as [Ha Hb]. destruct (H23 vid) as [Hc Hd].
  split; auto.
Qed.

Lemma index_playlist_grows (pl : Playlist) (p_ids : gset string)
    (m : gmap string (list PlaylistRef)) :
  index_grows m (index_playlist pl p_ids m).
Proof.
  intros vid. split.
  - intros H. rewrite index_playlist_lookup. destruct (decide (vid ∈ p_ids)); eauto.
  - intros ref H. rewrite index_playlist_refs.
    destruct (decide (vid ∈ p_ids)); [now apply add_ref_keeps|exact H].
Qed.

Lemma index_playlist_distinct (pl : Playlist) (p_ids : gset string)
    (m : gmap string (list PlaylistRef)) :
  index_distinct m -> index_distinct (index_playlist pl p_ids m).
Proof.
  intros H vid. rewrite index_playlist_refs.
  destruct (decide (vid ∈ p_ids)); [apply add_ref_NoDup|]; apply H.
Qed.

Lemma index_playlist_covers (pl : Playlist) (p_ids : gset string)
    (m : gmap string (list PlaylistRef)) (vid : string) :
  vid ∈ p_ids ->
  is_Some (index_playlist pl p_ids m !! vid)
  /\ exists ref, ref ∈ refs_of (index_playlist pl p_ids m) vid /\ ref_id ref = pl_id pl.
Proof.
  intros Hin. rewrite index_playlist_lookup, index_playlist_refs.
  rewrite !decide_True by assumption. split; [eauto|apply add_ref_lists].
Qed.

Lemma index_playlist_origin (pl : Playlist) (p_ids : gset string)
    (m : gmap string (list PlaylistRef)) (vid : string) (ref : PlaylistRef) :
  ref ∈ refs_of (index_playlist pl p_ids m) vid ->
  ref ∈ refs_of m vid \/ ref = ref_to pl.
Proof.
  rewrite index_playlist_refs. destruct (decide (vid ∈ p_ids)); [|auto].
  apply add_ref_origin.
Qed.

Lemma index_playlists_quiet (youtube : Resource World) (playlists : list Playlist) :
  forall m, quiet members_or_log (index_playlists (Some youtube) playlists m).
Proof.
  induction playlists as [|pl rest IH]; intros m; cbn [index_playlists].
  - quiet_step.
  - apply quiet_bind; [|intros; apply IH].
    apply quiet_try_except; [|intros; repeat quiet_step].
    apply quiet_bind; [|intros; quiet_step].
    apply get_playlist_video_ids_loop_quiet.
Qed.

(** The loop over the playlists always returns.  The index it returns
    keeps what it held, names no playlist twice for a video, holds every
    video of every page that came back under the playlist asked for, and
    gained references to the playlists of the loop only. *)
Lemma index_playlists_run (youtube : Resource World) (playlists : list Playlist) :
  forall m s,
  exists m' s' t,
    index_playlists (Some youtube) playlists m s = (Ok m', s', t)
    /\ index_grows m m'
    /\ (index_distinct m -> index_distinct m')
    /\ (forall pid token page vid,
          Call_playlistItems_ids pid token (Returns page) ∈ t ->
          vid ∈ page_videoIds page ->
          is_Some (m' !! vid) /\ exists ref, ref ∈ refs_of m' vid /\ ref_id ref = pid)
    /\ (forall vid ref,
          ref ∈ refs_of m' vid ->
          ref ∈ refs_of m vid \/ exists pl, pl ∈ playlists /\ ref = ref_to pl).
Proof.
  induction playlists as [|pl rest IH]; intros m s.
  - exists m, s, []. simpl. unfold ret. split; [reflexivity|].
    split; [apply index_grows_refl|]. split; [auto|]. split.
    + intros pid token page vid H. now apply elem_of_nil in H.
    + auto.
  - cbn [index_playlists get_playlist_video_ids].
    unfold bind at 1, try_except, bind at 1.
    destruct (get_playlist_video_ids_loop_run youtube (pl_id pl) 10 ∅ None s)
      as (p_ids & s1 & t1 & Hrun1 & Hids & Hpid).
    rewrite Hrun1. cbn [ret].
    set (m1 := index_playlist pl p_ids m).
    destruct (IH m1 s1) as (m' & s' & t2 & Hrun2 & Hgrow & Hdist & Hcover & Horigin).
    exists m', s', (t1 ++ t2). rewrite Hrun2, app_nil_r.
    split; [reflexivity|].
    split; [eapply index_grows_trans; [apply index_playlist_grows|exact Hgrow]|].
    split; [intros H; apply Hdist; now apply index_playlist_distinct|].
    split.
    + intros pid token page vid Hev Hvid. apply elem_of_app in Hev as [Hev|Hev].
      * pose proof (Hpid _ _ _ Hev) as ->.
        assert (Hin : vid ∈ p_ids) by (apply Hids; right; eauto).
        destruct (index_playlist_covers pl p_ids m vid Hin) as [Hsome (ref & Href & Hid)].
        destruct (Hgrow vid) as [Hg1 Hg2]. split; [auto|]. exists ref. auto.
      * eauto.
    + intros vid ref Href. destruct (Horigin vid ref Href) as [H|(pl' & Hpl' & ->)].
      * apply index_playlist_origin in H as [H| ->]; [now left|].
        right. exists pl. split; [left|reflexivity].
      * right. exists pl'. split; [now right|reflexivity].
Qed.

Lemma build_saved_video_map_quiet (fuel : nat) (youtube : Resource World) :
  quiet collections_or_log (build_saved_video_map fuel (Some youtube)).
Proof.
  unfold build_saved_video_map, get_user_playlists. repeat quiet_step.
  - eapply quiet_weaken; [|apply get_user_playlists_loop_quiet]. now intros [].
  - eapply quiet_weaken; [|apply index_playlists_quiet]. now intros [].
Qed.

(** The index of an assembly: no list names a playlist twice; every video
    of every membership page that came back is indexed under the playlist
    asked for; every reference is to a playlist of a listing page that
    came back. *)
Lemma build_saved_video_map_run (fuel : nat) (youtube : Resource World)
    (s s' : state World) (m : gmap string (list PlaylistRef)) (t : list event) :
  build_saved_video_map fuel (Some youtube) s = (Ok m, s', t) ->
  index_distinct m
  /\ (forall pid token page vid,
        Call_playlistItems_ids pid token (Returns page) ∈ t ->
        vid ∈ page_videoIds page ->
        is_Some (m !! vid) /\ exists ref, ref ∈ refs_of m vid /\ ref_id ref = pid)
  /\ (forall vid ref,
        ref ∈ refs_of m vid ->
        exists token page pl,
          Call_playlists_list token (Returns page) ∈ t
          /\ pl ∈ page_playlists page /\ ref = ref_to pl).
Proof.
  unfold build_saved_video_map, get_user_playlists, try_except, bind.
  destruct (get_user_playlists_loop_run youtube fuel [] None s)
    as (r & s1 & t1 & Hrun1 & Hr).
  rewrite Hrun1. destruct Hr as [->|(pls & -> & Hpls)]; [discriminate|].
  destruct (index_playlists_run youtube pls ∅ s1)
    as (m' & s2 & t2 & Hrun2 & Hgrow & Hdist & Hcover & Horigin).
  rewrite Hrun2. intros H. injection H as <- <- <-.
  assert (Hquiet1 : only list_or_log t1).
  { eapply get_user_playlists_loop_quiet. exact Hrun1. }
  assert (Hquiet2 : only members_or_log t2).
  { eapply index_playlists_quiet. exact Hrun2. }
  split; [|split].
  - apply Hdist. intros vid. unfold refs_of. rewrite lookup_empty. constructor.
  - intros pid token page vid Hev Hvid. apply elem_of_app in Hev as [Hev|Hev].
    + exfalso. revert Hev. eapply only_not_elem; [|exact Hquiet1]. reflexivity.
    + eauto.
  - intros vid ref Href. destruct (Horigin vid ref Href) as [H|(pl & Hpl & ->)].
    + unfold refs_of in H. rewrite lookup_empty in H. now apply elem_of_nil in H.
    + apply Hpls in Hpl as [Hpl|(token & page & Hev & Hin)].
      * now apply elem_of_nil in Hpl.
      * exists token, page, pl. split; [|auto]. apply elem_of_app. now left.
Qed.

End Index.

(** *** The cache check and the assembly *)

Lemma List_filter_sublist {A} (f : A -> bool) (l : list A) : List.filter f l `sublist_of` l.
Proof.
  induction l as [|x l IH]; simpl; [constructor|].
  destruct (f x); [now apply sublist_skip|now apply sublist_cons].
Qed.

Lemma head_calls_app (t1 t2 : list event) :
  head_calls (t1 ++ t2) = head_calls t1 ++ head_calls t2.
Proof. unfold head_calls. apply omap_app. Qed.

Lemma only_head_calls_nil (allowed : origin -> bool) (t : list event) :
  allowed FromProbe = false -> only allowed t -> head_calls t = [].
Proof.
  intros Ha. apply only_omap_nil. intros ev Hev.
  destruct ev; try reflexivity. simpl in Hev. congruence.
Qed.

Lemma mute_reads_app (t1 t2 : list event) :
  mute_reads (t1 ++ t2) = mute_reads t1 ++ mute_reads t2.
Proof. unfold mute_reads. apply omap_app. Qed.

Lemma only_mute_reads_nil (allowed : origin -> bool) (t : list event) :
  allowed FromMuteList = false -> only allowed t -> mute_reads t = [].
Proof.
  intros Ha. apply only_omap_nil. intros ev Hev.
  destruct ev; try reflexivity. simpl in Hev. congruence.
Qed.

Lemma only_fetched_nil (allowed : origin -> bool) (t : list event) :
  allowed FromUploads = false -> only allowed t -> fetched t = [].
Proof.
  intros Ha Ht. unfold fetched, snippet_calls.
  rewrite (only_omap_nil allowed); [reflexivity| |exact Ht].
  intros ev Hev. destruct ev; try reflexivity. simpl in Hev. congruence.
Qed.

Section Feed.

Context {World : Type} (rt : Runtime World).

Lemma emits_of_quiet {A} allowed (m : M World A) : quiet allowed m -> emits allowed m.
Proof. intros H s r s' t Hrun. now destruct (H _ _ _ _ Hrun). Qed.

Lemma emits_ret {A} allowed (a : A) : emits allowed (ret (World:=World) a).
Proof. apply emits_of_quiet, quiet_ret. Qed.

Lemma emits_bind {A B} allowed (m : M World A) (k : A -> M World B) :
  emits allowed m -> (forall a, emits allowed (k a)) -> emits allowed (bind m k).
Proof.
  intros Hm Hk s r s' t. unfold bind.
  destruct (m s) as [[[a|e|] s1] t1] eqn:Em.
  - destruct (k a s1) as [[r2 s2] t2] eqn:Ek. intros H. injection H as <- <- <-.
    apply only_app. split; [exact (Hm _ _ _ _ Em)|exact (Hk a _ _ _ _ Ek)].
  - intros H. injection H as <- <- <-. exact (Hm _ _ _ _ Em).
  - intros H. injection H as <- <- <-. exact (Hm _ _ _ _ Em).
Qed.

Lemma emits_weaken {A} (a b : origin -> bool) (m : M World A) :
  (forall o, a o = true -> b o = true) -> emits a m -> emits b m.
Proof. intros Hab Hm s r s' t H. eapply only_weaken; [exact Hab|]. eapply Hm, H. Qed.

Lemma update_cache_run (key : string) (check_playlist_id : option string)
    (formatted_videos : list FeedEntry) (s : state World) :
  update_cache rt key check_playlist_id formatted_videos s
  = if truthy_str check_playlist_id then (Ok tt, s, [])
    else let '(timestamp, w) := time_time rt (world s) in
         (Ok tt,
          {| FEED_CACHE := {| cache_data := Some formatted_videos;
                              cache_timestamp := timestamp;
                              cache_key := Some key |};
             world := w |},
          [Read_time timestamp; Log Info (Feed_cache_updated (length formatted_videos))]).
Proof.
  unfold update_cache. destruct (truthy_str check_playlist_id); [reflexivity|].
  simpl. unfold bind, read_clock. destruct (time_time rt (world s)) as [ts w].
  reflexivity.
Qed.

Lemma update_cache_emits (key : string) (check_playlist_id : option string)
    (formatted_videos : list FeedEntry) :
  emits clock_or_log (update_cache rt key check_playlist_id formatted_videos).
Proof.
  intros s r s' t. rewrite update_cache_run.
  destruct (truthy_str check_playlist_id).
  - intros H. injection H as <- <- <-. apply only_nil.
  - destruct (time_time rt (world s)) as [ts w]. intros H. injection H as <- <- <-.
    repeat constructor.
Qed.

Lemma assemble_feed_emits (fuel : nat) (youtube : Resource World) (include_shorts : bool)
    (check_playlist_id : option string) (key : string) :
  emits not_cache_hit (assemble_feed rt fuel youtube include_shorts check_playlist_id key).
Proof.
  unfold assemble_feed.
  apply emits_bind; [apply emits_of_quiet; unfold get_subscriptions; quiet_step|].
  intros [|sub subs]; [apply emits_ret|].
  apply emits_bind; [apply emits_of_quiet, quiet_subscript|]. intros channel_ids.
  apply emits_bind.
  { apply emits_of_quiet. unfold get_uploads_playlist_ids. repeat quiet_step. }
  intros upload_playlist_ids. apply emits_bind.
  { apply emits_of_quiet. eapply quiet_weaken; [|apply get_recent_videos_loop_quiet].
    now intros []. }
  intros raw. apply emits_bind; [apply emits_of_quiet; quiet_step|].
  intros muted. apply emits_bind; [apply emits_of_quiet, quiet_subscript|].
  intros unmuted. apply emits_bind; [apply emits_of_quiet; quiet_step|].
  intros now. apply emits_bind.
  { intros s r s' t H.
    destruct (filter_by_date_run rt (now - hours_48) unmuted [] s) as (t' & Hrun & Ht').
    rewrite Hrun in H. injection H as <- <- <-.
    eapply only_weaken; [|exact Ht']. now intros []. }
  intros recent. apply emits_bind.
  { destruct (negb include_shorts); [|apply emits_ret].
    apply emits_bind; [apply emits_of_quiet, quiet_subscript|]. intros video_ids.
    apply emits_bind; [|intros; apply emits_of_quiet, quiet_subscript].
    apply emits_of_quiet. eapply quiet_weaken; [|apply check_is_short_parallel_quiet].
    now intros []. }
  intros kept. apply emits_bind; [apply emits_of_quiet, quiet_subscript|].
  intros sorted. apply emits_bind.
  { apply emits_of_quiet. eapply quiet_weaken; [|apply build_saved_video_map_quiet].
    now intros []. }
  intros m. apply emits_bind; [apply emits_of_quiet, quiet_subscript|].
  intros formatted. apply emits_bind; [|intros; apply emits_ret].
  eapply emits_weaken; [|apply update_cache_emits]. now intros [].
Qed.

End Feed.

Section Lookup.

Context {World : Type} (rt : Runtime World).

(** The cache check, branch by branch. *)
Lemma feed_cache_lookup_run (key : string) (check_playlist_id : option string)
    (force_refresh : bool) (s : state World) :
  feed_cache_lookup rt key check_playlist_id force_refresh s
  = let c := FEED_CACHE s in
    let '(t0, w1) := time_time rt (world s) in
    let '(t1, w2) := time_time rt w1 in
    if negb force_refresh && negb (truthy_str check_playlist_id)
       && truthy_data (cache_data c)
    then
      if bool_decide (cache_key c = Some key) then
        if Qltb (t1 - cache_timestamp c)%Q CACHE_DURATION then
          (Ok (cache_data c), {| FEED_CACHE := c; world := w2 |},
           [Read_time t0; Read_time t1; Log Info Serving_feed_from_cache])
        else (Ok None, {| FEED_CACHE := c; world := w2 |}, [Read_time t0; Read_time t1])
      else (Ok None, {| FEED_CACHE := c; world := w1 |}, [Read_time t0])
    else (Ok None, {| FEED_CACHE := c; world := w1 |}, [Read_time t0]).
Proof.
  unfold feed_cache_lookup, bind at 1, read_clock at 1.
  destruct (time_time rt (world s)) as [t0 w1] eqn:E0.
  unfold bind at 1, read_FEED_CACHE. cbn [FEED_CACHE world].
  destruct (time_time rt w1) as [t1 w2] eqn:E1.
  destruct (negb force_refresh && negb (truthy_str check_playlist_id)
            && truthy_data (cache_data (FEED_CACHE s))); [|reflexivity].
  destruct (bool_decide (cache_key (FEED_CACHE s) = Some key)); [|reflexivity].
  unfold bind, read_clock. cbn [world FEED_CACHE]. rewrite E1.
  destruct (Qltb (t1 - cache_timestamp (FEED_CACHE s)) CACHE_DURATION); reflexivity.
Qed.

(** When the condition holds, the stored list is served: nothing but the
    clock is consulted and [FEED_CACHE] stays as it is. *)
Lemma feed_cache_lookup_hit (key : string) (check_playlist_id : option string)
    (force_refresh : bool) (s : state World) :
  cache_hit rt key check_playlist_id force_refresh s = true ->
  exists e data s' t,
    feed_cache_lookup rt key check_playlist_id force_refresh s = (Ok (Some (e :: data)), s', t)
    /\ cache_data (FEED_CACHE s) = Some (e :: data)
    /\ FEED_CACHE s' = FEED_CACHE s
    /\ collaborator_calls t = []
    /\ served_from_cache t = true.
Proof.
  unfold cache_hit, lookup_time. rewrite feed_cache_lookup_run.
  destruct (time_time rt (world s)) as [t0 w1]. cbn [snd].
  destruct (time_time rt w1) as [t1 w2]. cbn [fst].
  rewrite !andb_true_iff. intros [[Hcond Hkey] Hage].
  cbv zeta. destruct Hcond as [[Hfr Hpl] Hdata].
  rewrite Hfr, Hpl, Hdata, Hkey, Hage. cbn [andb].
  destruct (cache_data (FEED_CACHE s)) as [[|e data]|] eqn:Ed; try discriminate.
  exists e, data. eexists. eexists. split; [reflexivity|]. auto.
Qed.

(** When the condition fails, the check serves nothing and only read the
    clock. *)
Lemma feed_cache_lookup_miss (key : string) (check_playlist_id : option string)
    (force_refresh : bool) (s : state World) :
  cache_hit rt key check_playlist_id force_refresh s = false ->
  exists s' t,
    feed_cache_lookup rt key check_playlist_id force_refresh s = (Ok None, s', t)
    /\ FEED_CACHE s' = FEED_CACHE s
    /\ only clock_or_log t
    /\ collaborator_calls t = [].
Proof.
  unfold cache_hit, lookup_time. rewrite feed_cache_lookup_run.
  destruct (time_time rt (world s)) as [t0 w1]. cbn [snd].
  destruct (time_time rt w1) as [t1 w2]. cbn [fst]. cbv zeta.
  destruct (negb force_refresh && negb (truthy_str check_playlist_id)
            && truthy_data (cache_data (FEED_CACHE s))); cbn [andb].
  - destruct (bool_decide (cache_key (FEED_CACHE s) = Some key)); cbn [andb].
    + intros ->. eexists. eexists. split; [reflexivity|].
      split; [reflexivity|]. split; [repeat constructor|reflexivity].
    + intros _. eexists. eexists. split; [reflexivity|].
      split; [reflexivity|]. split; [repeat constructor|reflexivity].
  - intros _. eexists. eexists. split; [reflexivity|].
    split; [reflexivity|]. split; [repeat constructor|reflexivity].
Qed.

End Lookup.

(** *** The collection requests *)

Section CollectionRequests.

Context {World : Type}.

Lemma member_calls_app (t1 t2 : list event) :
  member_calls (t1 ++ t2) = member_calls t1 ++ member_calls t2.
Proof. unfold member_calls. apply omap_app. Qed.

Lemma listing_calls_app (t1 t2 : list event) :
  listing_calls (t1 ++ t2) = listing_calls t1 ++ listing_calls t2.
Proof. unfold listing_calls. apply omap_app. Qed.

Lemma listed_app (t1 t2 : list event) : listed (t1 ++ t2) = listed t1 ++ listed t2.
Proof. unfold listed. now rewrite listing_calls_app, map_app, concat_app. Qed.

Lemma only_member_calls_nil (allowed : origin -> bool) (t : list event) :
  allowed FromCollectionMembers = false -> only allowed t -> member_calls t = [].
Proof.
  intros Ha. apply only_omap_nil. intros ev Hev.
  destruct ev; try reflexivity. simpl in Hev. congruence.
Qed.

Lemma only_listing_calls_nil (allowed : origin -> bool) (t : list event) :
  allowed FromCollectionList = false -> only allowed t -> listing_calls t = [].
Proof.
  intros Ha. apply only_omap_nil. intros ev Hev.
  destruct ev; try reflexivity. simpl in Hev. congruence.
Qed.

Lemma only_listed_nil (allowed : origin -> bool) (t : list event) :
  allowed FromCollectionList = false -> only allowed t -> listed t = [].
Proof.
  intros Ha Ht. unfold listed. now rewrite (only_listing_calls_nil allowed t).
Qed.

(** One enumeration makes at most [n] requests, ten from [get_feed]. *)
Lemma get_playlist_video_ids_loop_bound (youtube : Resource World) (playlist_id : string)
    (n : nat) :
  forall video_ids next_page_token s r s' t,
    get_playlist_video_ids_loop n youtube playlist_id video_ids next_page_token s
    = (r, s', t) ->
    (length (member_calls t) <= n)%nat.
Proof.
  induction n as [|n IH]; intros video_ids next_page_token s r s' t.
  - simpl. unfold ret. intros H. injection H as _ _ <-. simpl. lia.
  - cbn [get_playlist_video_ids_loop]. unfold bind at 1, try_except, bind at 1, call.
    destruct (playlistItems_list_ids youtube playlist_id next_page_token (world s))
      as [[page|e] w].
    + cbn [ret]. destruct (negb (truthy_str (items_nextPageToken page))).
      * intros H. injection H as _ _ <-. simpl. lia.
      * match goal with
        | |- context [get_playlist_video_ids_loop n ?y ?p ?v ?k ?st] =>
            destruct (get_playlist_video_ids_loop n y p v k st) as [[r2 s2] t2] eqn:E
        end.
        intros H. injection H as _ _ <-. apply IH in E. simpl. lia.
    + cbn [log bind ret]. intros H. injection H as _ _ <-. simpl. lia.
Qed.

(** The playlists come back in the order of the listing pages.  The
    listing never raises; the bound of the model cuts it only after [fuel]
    requests that each asked to continue. *)
Lemma get_user_playlists_loop_listed (youtube : Resource World) (fuel : nat) :
  forall playlists next_page_token s r s' t,
    get_user_playlists_loop fuel youtube playlists next_page_token s = (r, s', t) ->
    match r with
    | Ok pls => pls = playlists ++ listed t
    | Raise _ => False
    | OutOfFuel =>
        length (listing_calls t) = fuel
        /\ Forall (fun c => continues (snd c) = true) (listing_calls t)
    end.
Proof.
  induction fuel as [|fuel IH]; intros playlists next_page_token s r s' t.
  - simpl. unfold out_of_fuel. intros H. injection H as <- _ <-. split; [reflexivity|constructor].
  - cbn [get_user_playlists_loop]. unfold bind at 1, try_except, bind at 1, call.
    destruct (playlists_list youtube next_page_token (world s)) as [[page|e] w].
    + cbn [ret]. destruct (truthy_str (playlists_nextPageToken page)) eqn:Etok; cbn [negb].
      * match goal with
        | |- context [get_user_playlists_loop fuel ?y ?p ?k ?st] =>
            destruct (get_user_playlists_loop fuel y p k st) as [[r2 s2] t2] eqn:E
        end.
        intros H. injection H as <- _ <-. apply IH in E.
        destruct r2 as [pls|e|].
        -- rewrite E, <- app_assoc. reflexivity.
        -- exact E.
        -- destruct E as [E1 E2].
           change (listing_calls (Call_playlists_list next_page_token (Returns page) :: t2))
             with ((next_page_token, Returns page) :: listing_calls t2).
           split; [simpl; now f_equal|]. constructor; [exact Etok|exact E2].
      * intros H. injection H as <- _ <-. cbn. now rewrite app_nil_r.
    + cbn [log bind ret]. intros H. injection H as <- _ <-. cbn. now rewrite app_nil_r.
Qed.

Lemma index_playlists_bound (youtube : Resource World) (playlists : list Playlist) :
  forall m s r s' t,
    index_playlists (Some youtube) playlists m s = (r, s', t) ->
    (length (member_calls t) <= 10 * length playlists)%nat.
Proof.
  induction playlists as [|pl rest IH]; intros m s r s' t.
  - simpl. unfold ret. intros H. injection H as _ _ <-. simpl. lia.
  - cbn [index_playlists get_playlist_video_ids].
    unfold bind at 1, try_except, bind at 1.
    destruct (get_playlist_video_ids_loop_run youtube (pl_id pl) 10 ∅ None s)
      as (p_ids & s1 & t1 & Hrun1 & _).
    pose proof (get_playlist_video_ids_loop_bound _ _ _ _ _ _ _ _ _ Hrun1) as Hb.
    rewrite Hrun1. cbn [ret].
    match goal with
    | |- context [index_playlists ?y rest ?m1 ?st] =>
        destruct (index_playlists y rest m1 st) as [[r2 s2] t2] eqn:E
    end.
    intros H. injection H as _ _ <-. apply IH in E.
    rewrite app_nil_r, member_calls_app, length_app. cbn [length]. lia.
Qed.

Lemma add_ref_nonempty (pl : Playlist) (cur : list PlaylistRef) : add_ref pl cur <> [].
Proof.
  destruct (add_ref_lists pl cur) as (ref & Hin & _). intros H. rewrite H in Hin.
  now apply elem_of_nil in Hin.
Qed.

Lemma index_playlist_nonempty (pl : Playlist) (p_ids : gset string)
    (m : gmap string (list PlaylistRef)) :
  index_nonempty m -> index_nonempty (index_playlist pl p_ids m).
Proof.
  intros Hm vid refs. rewrite index_playlist_lookup.
  destruct (decide (vid ∈ p_ids)); [|apply Hm].
  intros H. injection H as <-. apply add_ref_nonempty.
Qed.

(** Every reference the loop adds is backed by a membership page of the
    run that holds the video, and no video is indexed with an empty list. *)
Lemma index_playlists_backed (youtube : Resource World) (playlists : list Playlist) :
  forall m s m' s' t,
    index_playlists (Some youtube) playlists m s = (Ok m', s', t) ->
    (index_nonempty m -> index_nonempty m')
    /\ forall vid ref,
         ref ∈ refs_of m' vid ->
         ref ∈ refs_of m vid
         \/ exists token page,
              Call_playlistItems_ids (ref_id ref) token (Returns page) ∈ t
              /\ vid ∈ page_videoIds page.
Proof.
  induction playlists as [|pl rest IH]; intros m s m' s' t.
  - simpl. unfold ret. intros H. injection H as <- _ _. auto.
  - cbn [index_playlists get_playlist_video_ids].
    unfold bind at 1, try_except, bind at 1.
    destruct (get_playlist_video_ids_loop_run youtube (pl_id pl) 10 ∅ None s)
      as (p_ids & s1 & t1 & Hrun1 & Hids & _).
    rewrite Hrun1. cbn [ret].
    match goal with
    | |- context [index_playlists ?y rest ?m1 ?st] =>
        destruct (index_playlists y rest m1 st) as [[r2 s2] t2] eqn:E
    end.
    intros H. injection H as -> _ <-. apply IH in E as [Hne Hback].
    split; [intros Hm; apply Hne; now apply index_playlist_nonempty|].
    intros vid ref Href. rewrite app_nil_r.
    destruct (Hback vid ref Href) as [H|(token & page & Hev & Hin)].
    + rewrite index_playlist_refs in H.
      destruct (decide (vid ∈ p_ids)) as [Hvid|]; [|now left].
      apply add_ref_origin in H as [H| ->]; [now left|]. right.
      apply Hids in Hvid as [Hvid|(token & page & Hev & Hin)].
      * now apply elem_of_empty in Hvid.
      * exists token, page. split; [|exact Hin]. apply elem_of_app. now left.
    + right. exists token, page. split; [|exact Hin]. apply elem_of_app. now right.
Qed.

(** The index of an assembly, read from the run: it is backed by the
    membership pages of the run, holds no empty list, and the membership
    requests number at most ten for each listed playlist. *)
Lemma build_saved_video_map_backed (fuel : nat) (youtube : Resource World)
    (s s' : state World) (m : gmap string (list PlaylistRef)) (t : list event) :
  build_saved_video_map fuel (Some youtube) s = (Ok m, s', t) ->
  index_nonempty m
  /\ index_backed m t
  /\ (length (member_calls t) <= 10 * length (listed t))%nat.
Proof.
  unfold build_saved_video_map, get_user_playlists, try_except, bind.
  destruct (get_user_playlists_loop fuel youtube [] None s) as [[r1 s1] t1] eqn:Hrun1.
  pose proof (get_user_playlists_loop_listed _ _ _ _ _ _ _ _ Hrun1) as Hl.
  pose proof (get_user_playlists_loop_quiet youtube fuel [] None _ _ _ _ Hrun1) as [_ Ho1].
  destruct r1 as [pls|e|]; [|contradiction|discriminate].
  cbn [app] in Hl. subst pls.
  destruct (index_playlists (Some youtube) (listed t1) ∅ s1) as [[r2 s2] t2] eqn:Hrun2.
  pose proof (index_playlists_bound _ _ _ _ _ _ _ Hrun2) as Hb.
  pose proof (index_playlists_quiet youtube _ _ _ _ _ _ Hrun2) as [_ Ho2].
  destruct (index_playlists_run youtube (listed t1) ∅ s1) as (m2 & sx & tx & Hrun2' & _).
  rewrite Hrun2 in Hrun2'. injection Hrun2' as -> _ _.
  intros H. injection H as <- _ <-.
  apply index_playlists_backed in Hrun2 as [Hne Hback].
  split; [|split].
  - apply Hne. intros vid refs. rewrite lookup_empty. discriminate.
  - intros vid ref Href. destruct (Hback vid ref Href) as [H|(token & page & Hev & Hin)].
    + unfold refs_of in H. rewrite lookup_empty in H. now apply elem_of_nil in H.
    + exists token, page. split; [|exact Hin]. apply elem_of_app. now right.
  - rewrite member_calls_app, listed_app, !length_app.
    rewrite (only_member_calls_nil list_or_log t1), (only_listed_nil members_or_log t2)
      by (reflexivity || assumption).
    cbn [length]. lia.
Qed.

End CollectionRequests.

(** *** Paging *)

Section Paging.

Context {World : Type}.

Lemma get_user_playlists_loop_chain (youtube : Resource World) (fuel : nat) :
  forall playlists next_page_token s r s' t,
    get_user_playlists_loop fuel youtube playlists next_page_token s = (r, s', t) ->
    listing_chain next_page_token (listing_calls t)
    /\ forall pls,
         r = Ok pls ->
         exists calls last,
           listing_calls t = calls ++ [last] /\ continues (snd last) = false.
Proof.
  induction fuel as [|fuel IH]; intros playlists next_page_token s r s' t.
  - simpl. unfold out_of_fuel. intros H. injection H as <- _ <-.
    split; [exact I|discriminate].
  - cbn [get_user_playlists_loop]. unfold bind at 1, try_except, bind at 1, call.
    destruct (playlists_list youtube next_page_token (world s)) as [[page|e] w].
    + cbn [ret]. destruct (truthy_str (playlists_nextPageToken page)) eqn:Etok; cbn [negb].
      * match goal with
        | |- context [get_user_playlists_loop fuel ?y ?p ?k ?st] =>
            destruct (get_user_playlists_loop fuel y p k st) as [[r2 s2] t2] eqn:E
        end.
        intros H. injection H as <- _ <-. apply IH in E as [E1 E2].
        change (listing_calls (Call_playlists_list next_page_token (Returns page) :: t2))
          with ((next_page_token, Returns page) :: listing_calls t2).
        split.
        -- cbn [listing_chain]. rewrite Etok. auto.
        -- intros pls Hpls. destruct (E2 pls Hpls) as (calls & last & -> & Hlast).
           exists ((next_page_token, Returns page) :: calls), last. auto.
      * intros H. injection H as <- _ <-. cbn. rewrite Etok. split; [auto|].
        intros _ _. exists [], (next_page_token, Returns page). cbn. auto.
    + cbn [log bind ret]. intros H. injection H as <- _ <-. cbn. split; [auto|].
      intros _ _. exists [], (next_page_token, Raises e). auto.
Qed.

Lemma get_playlist_video_ids_loop_chain (youtube : Resource World) (playlist_id : string)
    (n : nat) :
  forall video_ids next_page_token s r s' t,
    get_playlist_video_ids_loop n youtube playlist_id video_ids next_page_token s
    = (r, s', t) ->
    member_chain playlist_id next_page_token (member_calls t).
Proof.
  induction n as [|n IH]; intros video_ids next_page_token s r s' t.
  - simpl. unfold ret. intros H. injection H as _ _ <-. exact I.
  - cbn [get_playlist_video_ids_loop]. unfold bind at 1, try_except, bind at 1, call.
    destruct (playlistItems_list_ids youtube playlist_id next_page_token (world s))
      as [[page|e] w].
    + cbn [ret]. destruct (truthy_str (items_nextPageToken page)) eqn:Etok; cbn [negb].
      * match goal with
        | |- context [get_playlist_video_ids_loop n ?y ?p ?v ?k ?st] =>
            destruct (get_playlist_video_ids_loop n y p v k st) as [[r2 s2] t2] eqn:E
        end.
        intros H. injection H as _ _ <-. apply IH in E.
        change (member_calls
                  (Call_playlistItems_ids playlist_id next_page_token (Returns page) :: t2))
          with ((playlist_id, next_page_token, Returns page) :: member_calls t2).
        cbn [member_chain]. rewrite Etok. auto.
      * intros H. injection H as _ _ <-. cbn. rewrite Etok. auto.
    + cbn [log bind ret]. intros H. injection H as _ _ <-. cbn. auto.
Qed.

End Paging.


(** *** The enumeration of the collections *)

Section Enumeration.

Context {World : Type}.

(** The membership loop reads the pages of the playlist from the first
    one, by the tokens, until a request fails, a page has no token, or the
    rounds are used up. *)
Lemma get_playlist_video_ids_loop_pages (youtube : Resource World) (playlist_id : string)
    (n : nat) :
  forall video_ids next_page_token s r s' t,
    get_playlist_video_ids_loop n youtube playlist_id video_ids next_page_token s
    = (r, s', t) ->
    member_pages n playlist_id next_page_token (member_calls t).
Proof.
  induction n as [|n IH]; intros video_ids next_page_token s r s' t.
  - simpl. unfold ret. intros H. injection H as _ _ <-. reflexivity.
  - cbn [get_playlist_video_ids_loop]. unfold bind at 1, try_except, bind at 1, call.
    destruct (playlistItems_list_ids youtube playlist_id next_page_token (world s))
      as [[page|e] w].
    + cbn [ret]. destruct (truthy_str (items_nextPageToken page)) eqn:Etok; cbn [negb].
      * match goal with
        | |- context [get_playlist_video_ids_loop n ?y ?p ?v ?k ?st] =>
            destruct (get_playlist_video_ids_loop n y p v k st) as [[r2 s2] t2] eqn:E
        end.
        intros H. injection H as _ _ <-. apply IH in E.
        change (member_calls
                  (Call_playlistItems_ids playlist_id next_page_token (Returns page) :: t2))
          with ((playlist_id, next_page_token, Returns page) :: member_calls t2).
        cbn [member_pages]. rewrite Etok. auto.
      * intros H. injection H as _ _ <-. cbn. rewrite Etok. auto.
    + cbn [log bind ret]. intros H. injection H as _ _ <-. cbn. auto.
Qed.

(** A listing that returns has asked for the pages from the first one, by
    the tokens, up to a failed request or a page without a token. *)
Lemma get_user_playlists_loop_pages (youtube : Resource World) (fuel : nat) :
  forall playlists next_page_token s pls s' t,
    get_user_playlists_loop fuel youtube playlists next_page_token s = (Ok pls, s', t) ->
    listing_pages next_page_token (listing_calls t).
Proof.
  induction fuel as [|fuel IH]; intros playlists next_page_token s pls s' t.
  - simpl. unfold out_of_fuel. discriminate.
  - cbn [get_user_playlists_loop]. unfold bind at 1, try_except, bind at 1, call.
    destruct (playlists_list youtube next_page_token (world s)) as [[page|e] w].
    + cbn [ret]. destruct (truthy_str (playlists_nextPageToken page)) eqn:Etok; cbn [negb].
      * match goal with
        | |- context [get_user_playlists_loop fuel ?y ?p ?k ?st] =>
            destruct (get_user_playlists_loop fuel y p k st) as [[r2 s2] t2] eqn:E
        end.
        intros H. injection H as -> _ <-. apply IH in E.
        change (listing_calls (Call_playlists_list next_page_token (Returns page) :: t2))
          with ((next_page_token, Returns page) :: listing_calls t2).
        cbn [listing_pages]. rewrite Etok. auto.
      * intros H. injection H as _ _ <-. cbn. rewrite Etok. auto.
    + cbn [log bind ret]. intros H. injection H as _ _ <-. cbn. auto.
Qed.

(** The loop over the playlists enumerates every one of them, in order. *)
Lemma index_playlists_pages (youtube : Resource World) (playlists : list Playlist) :
  forall m s r s' t,
    index_playlists (Some youtube) playlists m s = (r, s', t) ->
    exists chains,
      member_calls t = concat chains
      /\ Forall2 (fun pl chain => member_pages 10 (pl_id pl) None chain) playlists chains.
Proof.
  induction playlists as [|pl rest IH]; intros m s r s' t.
  - simpl. unfold ret. intros H. injection H as _ _ <-. exists []. split; [reflexivity|].
    constructor.
  - cbn [index_playlists get_playlist_video_ids].
    unfold bind at 1, try_except, bind at 1.
    destruct (get_playlist_video_ids_loop_run youtube (pl_id pl) 10 ∅ None s)
      as (p_ids & s1 & t1 & Hrun1 & _).
    pose proof (get_playlist_video_ids_loop_pages _ _ _ _ _ _ _ _ _ Hrun1) as Hp.
    rewrite Hrun1. cbn [ret].
    match goal with
    | |- context [index_playlists ?y rest ?m1 ?st] =>
        destruct (index_playlists y rest m1 st) as [[r2 s2] t2] eqn:E
    end.
    intros H. injection H as _ _ <-. apply IH in E as (chains & Hcalls & Hall).
    exists (member_calls t1 :: chains). split.
    + rewrite app_nil_r, member_calls_app, Hcalls. reflexivity.
    + constructor; assumption.
Qed.

(** The index of an assembly: the listing was asked for page by page, and
    every playlist it gave was enumerated. *)
Lemma build_saved_video_map_pages (fuel : nat) (youtube : Resource World)
    (s s' : state World) (m : gmap string (list PlaylistRef)) (t : list event) :
  build_saved_video_map fuel (Some youtube) s = (Ok m, s', t) ->
  listing_pages None (listing_calls t)
  /\ exists chains,
       member_calls t = concat chains
       /\ Forall2 (fun pl chain => member_pages 10 (pl_id pl) None chain) (listed t) chains.
Proof.
  unfold build_saved_video_map, get_user_playlists, try_except, bind.
  destruct (get_user_playlists_loop fuel youtube [] None s) as [[r1 s1] t1] eqn:Hrun1.
  pose proof (get_user_playlists_loop_listed _ _ _ _ _ _ _ _ Hrun1) as Hl.
  pose proof (get_user_playlists_loop_quiet youtube fuel [] None _ _ _ _ Hrun1) as [_ Ho1].
  destruct r1 as [pls|e|]; [|contradiction|discriminate].
  apply get_user_playlists_loop_pages in Hrun1 as Hpages.
  cbn [app] in Hl. subst pls.
  destruct (index_playlists (Some youtube) (listed t1) ∅ s1) as [[r2 s2] t2] eqn:Hrun2.
  pose proof (index_playlists_quiet youtube _ _ _ _ _ _ Hrun2) as [_ Ho2].
  destruct (index_playlists_pages _ _ _ _ _ _ _ Hrun2) as (chains & Hcalls & Hall).
  destruct (index_playlists_run youtube (listed t1) ∅ s1) as (m2 & sx & tx & Hrun2' & _).
  rewrite Hrun2 in Hrun2'. injection Hrun2' as -> _ _.
  intros H. injection H as <- _ <-.
  rewrite listing_calls_app, member_calls_app, listed_app.
  rewrite (only_listing_calls_nil members_or_log t2), (only_listed_nil members_or_log t2),
    (only_member_calls_nil list_or_log t1) by (reflexivity || assumption).
  rewrite !app_nil_r. split; [exact Hpages|].
  exists chains. auto.
Qed.

Context (rt : Runtime World).

Lemma get_playlist_video_ids_loop_faithful (youtube : Resource World)
    (playlist_id : string) (n : nat) :
  forall video_ids next_page_token,
    faithful rt (Some youtube)
      (get_playlist_video_ids_loop n youtube playlist_id video_ids next_page_token).
Proof.
  induction n as [|n IH]; intros video_ids next_page_token; simpl.
  - faithful_step.
  - faithful_step; [repeat faithful_step|].
    destruct a as [[ids token] [|]]; [faithful_step|apply IH].
Qed.

Lemma get_user_playlists_loop_faithful (youtube : Resource World) (fuel : nat) :
  forall playlists next_page_token,
    faithful rt (Some youtube)
      (get_user_playlists_loop fuel youtube playlists next_page_token).
Proof.
  induction fuel as [|fuel IH]; intros playlists next_page_token; simpl.
  - faithful_step.
  - faithful_step; [repeat faithful_step|].
    destruct a as [[pls token] [|]]; [faithful_step|apply IH].
Qed.

Lemma index_playlists_faithful (youtube : Resource World) (playlists : list Playlist) :
  forall m, faithful rt (Some youtube) (index_playlists (Some youtube) playlists m).
Proof.
  induction playlists as [|pl rest IH]; intros m; cbn [index_playlists].
  - faithful_step.
  - faithful_step; [|apply IH].
    faithful_step; [|repeat faithful_step].
    faithful_step; [apply get_playlist_video_ids_loop_faithful|faithful_step].
Qed.

Lemma build_saved_video_map_faithful (fuel : nat) (youtube : Resource World) :
  faithful rt (Some youtube) (build_saved_video_map fuel (Some youtube)).
Proof.
  unfold build_saved_video_map.
  faithful_step; [|repeat faithful_step].
  faithful_step; [apply get_user_playlists_loop_faithful|].
  apply index_playlists_faithful.
Qed.

End Enumeration.

(** *** Subscripts, comprehensions and the sort *)

Lemma mapM_omap {A B} (f : A -> option B) (l : list A) (k : list B) :
  mapM f l = Some k -> omap f l = k.
Proof.
  rewrite mapM_Some. induction 1 as [|x y l k Hxy _ IH]; [reflexivity|].
  cbn [omap list_omap]. rewrite Hxy. cbn. now rewrite IH.
Qed.

Lemma mapM_is_Some_Forall {A B} (f : A -> option B) (l : list A) (k : list B) :
  mapM f l = Some k -> Forall (fun x => is_Some (f x)) l.
Proof.
  rewrite mapM_Some. induction 1 as [|x y l k Hxy _ IH]; constructor; eauto.
Qed.

Lemma filter_on_Some (field : PlaylistItem -> option string) (test : string -> bool)
    (l l' : list PlaylistItem) :
  filter_on field test l = Some l' ->
  l' = List.filter (fun v => match field v with
                             | Some x => test x
                             | None => false
                             end) l
  /\ Forall (fun v => is_Some (field v)) l.
Proof.
  unfold filter_on. destruct (mapM field l) as [k|] eqn:E; [|discriminate].
  cbn. intros H. injection H as <-. split; [reflexivity|].
  now apply mapM_is_Some_Forall in E.
Qed.

Lemma format_video_Some (m : gmap string (list PlaylistRef)) (v : PlaylistItem)
    (e : FeedEntry) :
  format_video m v = Some e ->
  videoId v = Some (video_id e)
  /\ title v = Some (fe_title e)
  /\ channelTitle v = Some (channel_title e)
  /\ thumbnail_high_url v = Some (thumbnail_url e)
  /\ publishedAt v = Some (published_at e)
  /\ channelId v = Some (channel_id e)
  /\ saved e = Some (bool_decide (is_Some (m !! video_id e)))
  /\ saved_to e = Some (default [] (m !! video_id e)).
Proof.
  unfold format_video.
  destruct (videoId v), (title v), (channelTitle v), (thumbnail_high_url v),
    (publishedAt v), (channelId v); cbn; try discriminate.
  intros H. injection H as <-. cbn. auto 10.
Qed.

(** Two items with the same fields read by [format_video] make the same
    entry. *)
Lemma format_video_entries (m : gmap string (list PlaylistRef)) (l : list PlaylistItem)
    (out : list FeedEntry) :
  mapM (format_video m) l = Some out ->
  Forall2 (fun v e => format_video m v = Some e) l out.
Proof. now rewrite mapM_Some. Qed.

Section SortedItems.

Lemma zip_keyed (l : list PlaylistItem) (keys : list string) :
  mapM publishedAt l = Some keys -> Forall keyed (zip keys l) /\ (zip keys l).*2 = l.
Proof.
  rewrite mapM_Some. induction 1 as [|v k l keys Hk _ [IH1 IH2]].
  - split; [constructor|reflexivity].
  - split; [constructor; [exact Hk|exact IH1]|].
    change ((zip (k :: keys) (v :: l)).*2) with (v :: (zip keys l).*2). now rewrite IH2.
Qed.

Lemma keyed_filter (k : string) (ps : list (string * PlaylistItem)) :
  Forall keyed ps ->
  (filter (fun p => p.1 = k) ps).*2 = filter (fun v => publishedAt v = Some k) ps.*2.
Proof.
  induction 1 as [|p ps Hp _ IH]; [reflexivity|].
  cbn [fmap list_fmap]. rewrite !filter_cons. unfold keyed in Hp.
  destruct (decide (p.1 = k)) as [Hk|Hk].
  - rewrite decide_True by congruence. cbn. now rewrite IH.
  - rewrite decide_False by congruence. exact IH.
Qed.

Lemma keyed_sorted (ps : list (string * PlaylistItem)) :
  Forall keyed ps ->
  StronglySorted (key_not_older fst) ps -> StronglySorted item_not_older ps.*2.
Proof.
  intros Hk Hs. induction Hs as [|p ps Hs IH Hp]; [constructor|].
  apply Forall_cons in Hk as [Hkp Hk]. cbn. constructor; [now apply IH|].
  apply Forall_fmap, Forall_forall. intros q Hq. cbn.
  exists p.1, q.1. split; [exact Hkp|]. split.
  - rewrite Forall_forall in Hk. exact (Hk q Hq).
  - rewrite Forall_forall in Hp. exact (Hp q Hq).
Qed.

(** What [sort_by_publishedAt] returns: a rearrangement of the list in
    which every item has a [publishedAt], in descending order of these
    strings, the items of any one string in the order they had. *)
Lemma sort_by_publishedAt_Some (l sorted : list PlaylistItem) :
  sort_by_publishedAt l = Some sorted ->
  sorted ≡ₚ l
  /\ StronglySorted item_not_older sorted
  /\ (forall k, filter (fun v => publishedAt v = Some k) sorted
                = filter (fun v => publishedAt v = Some k) l).
Proof.
  unfold sort_by_publishedAt. destruct (mapM publishedAt l) as [keys|] eqn:E; [|discriminate].
  cbn. intros H. injection H as <-.
  destruct (zip_keyed l keys E) as [Hk Hl].
  assert (Hks : Forall keyed (sort_newest_first fst (zip keys l))).
  { apply Forall_forall. intros p Hp. rewrite sort_newest_first_perm in Hp.
    rewrite Forall_forall in Hk. exact (Hk p Hp). }
  split; [|split].
  - rewrite <- Hl at 2. apply fmap_Permutation, sort_newest_first_perm.
  - apply keyed_sorted; [exact Hks|]. apply sort_newest_first_strongly_sorted.
  - intros k. rewrite <- (keyed_filter k _ Hks), sort_newest_first_stable.
    rewrite (keyed_filter k _ Hk). now rewrite Hl.
Qed.

(** Every list whose items have a [publishedAt] can be sorted. *)
Lemma sort_by_publishedAt_is_Some (l : list PlaylistItem) :
  Forall (fun v => is_Some (publishedAt v)) l -> is_Some (sort_by_publishedAt l).
Proof.
  intros H. unfold sort_by_publishedAt.
  assert (Hm : is_Some (mapM publishedAt l)).
  { apply mapM_is_Some. exact H. }
  destruct Hm as [keys ->]. cbn. eauto.
Qed.

End SortedItems.

(** *** The assembly, stage by stage *)

Lemma elem_of_member_calls (t : list event) (pid : string) (token : option string)
    (r : response ItemsPage) :
  (pid, token, r) ∈ member_calls t <-> Call_playlistItems_ids pid token r ∈ t.
Proof.
  unfold member_calls. rewrite list_elem_of_omap. split.
  - intros (ev & Hin & Hev). destruct ev; try discriminate. now injection Hev as -> -> ->.
  - intros Hin. eexists. split; [exact Hin|reflexivity].
Qed.

Lemma elem_of_listing_calls (t : list event) (token : option string)
    (r : response PlaylistsPage) :
  (token, r) ∈ listing_calls t <-> Call_playlists_list token r ∈ t.
Proof.
  unfold listing_calls. rewrite list_elem_of_omap. split.
  - intros (ev & Hin & Hev). destruct ev; try discriminate. now injection Hev as -> ->.
  - intros Hin. eexists. split; [exact Hin|reflexivity].
Qed.

(** The facts of the index depend on the collection requests of the record
    only. *)
Lemma index_facts_transport (m : gmap string (list PlaylistRef)) (t t' : list event) :
  member_calls t' = member_calls t -> listing_calls t' = listing_calls t ->
  index_facts m t -> index_facts m t'.
Proof.
  intros Hm Hl (H1 & H2 & H3 & H4 & H5 & H6 & H7 & H8).
  assert (Hmem : forall pid token r,
             Call_playlistItems_ids pid token r ∈ t'
             <-> Call_playlistItems_ids pid token r ∈ t).
  { intros. now rewrite <- !elem_of_member_calls, Hm. }
  assert (Hlist : forall token r,
             Call_playlists_list token r ∈ t' <-> Call_playlists_list token r ∈ t).
  { intros. now rewrite <- !elem_of_listing_calls, Hl. }
  assert (Hlisted : listed t' = listed t) by (unfold listed; now rewrite Hl).
  split; [exact H1|]. split; [exact H2|]. split; [|split; [|split]].
  - intros pid token page vid Hev Hvid.
    apply (H3 pid token page vid); [now apply Hmem|exact Hvid].
  - intros vid ref Href. destruct (H4 vid ref Href) as (token & page & pl & Hev & Hpl).
    exists token, page, pl. split; [now apply Hlist|exact Hpl].
  - intros vid ref Href. destruct (H5 vid ref Href) as (token & page & Hev & Hin).
    exists token, page. split; [now apply Hmem|exact Hin].
  - rewrite Hl, Hm, Hlisted. auto.
Qed.

Section Assembly.

Context {World : Type} (rt : Runtime World).

Lemma call_Ok_inv {A} (f : World -> response A * World) (ev : response A -> event)
    (s s' : state World) (a : A) (t : list event) :
  call f ev s = (Ok a, s', t) ->
  t = [ev (Returns a)] /\ FEED_CACHE s' = FEED_CACHE s.
Proof.
  unfold call. destruct (f (world s)) as [[a'|e] w]; intros H; [|discriminate].
  injection H as <- <- <-. auto.
Qed.

Lemma read_clock_inv {A} (f : World -> A * World) (ev : A -> event)
    (s s' : state World) (r : result A) (t : list event) :
  read_clock f ev s = (r, s', t) ->
  exists a, r = Ok a /\ t = [ev a] /\ FEED_CACHE s' = FEED_CACHE s.
Proof.
  unfold read_clock. destruct (f (world s)) as [a w]. intros H.
  injection H as <- <- <-. eauto.
Qed.

Lemma subscript_Ok_inv {A} (value : option A) (s s' : state World) (a : A)
    (t : list event) :
  subscript value s = (Ok a, s', t) -> value = Some a /\ s' = s /\ t = [].
Proof.
  destruct value as [a'|]; cbn; [|discriminate]. intros H. injection H as <- <- <-. auto.
Qed.

(** The index of an assembly, read from the record of its construction. *)
Lemma build_saved_video_map_facts (fuel : nat) (youtube : Resource World)
    (s s' : state World) (m : gmap string (list PlaylistRef)) (t : list event) :
  build_saved_video_map fuel (Some youtube) s = (Ok m, s', t) -> index_facts m t.
Proof.
  intros H.
  destruct (build_saved_video_map_run fuel youtube _ _ _ _ H) as (Hdist & Hcover & Horigin).
  destruct (build_saved_video_map_backed fuel youtube _ _ _ _ H) as (Hne & Hback & Hbound).
  destruct (build_saved_video_map_pages fuel youtube _ _ _ _ H) as (Hpages & Hchains).
  unfold index_facts. auto 10.
Qed.

(** What a completed run of the pipeline did.  Either the subscription list
    came back empty and the run returned [[]] at once, or: every fetched
    item had a channel id; the mute list was read once; the clock was read
    for the cutoff; when shorts are excluded, every item that passed the
    mute and date filters had a video id and was probed, in order, and no
    probe was made otherwise; the items left by the three filters were
    sorted and formatted; the index has the properties of [index_facts];
    and the cache was written unless a playlist filter was given. *)
Lemma assemble_feed_run (fuel : nat) (youtube : Resource World) (include_shorts : bool)
    (check_playlist_id : option string) (key : string)
    (s s' : state World) (out : list FeedEntry) (t : list event) :
  assemble_feed rt fuel youtube include_shorts check_playlist_id key s = (Ok out, s', t) ->
  (out = [] /\ t = [Call_subscriptions_list (Returns [])] /\ FEED_CACHE s' = FEED_CACHE s)
  \/ exists sub subs muted now rs sorted m,
       Call_subscriptions_list (Returns (sub :: subs)) ∈ t
       /\ mute_reads t = [Returns muted]
       /\ Read_now now ∈ t
       /\ Forall (fun v => is_Some (channelId v)) (fetched t)
       /\ (if include_shorts then head_calls t = []
           else length rs = length (passes_filters rt muted now (fetched t))
                /\ Forall (fun v => is_Some (videoId v))
                     (passes_filters rt muted now (fetched t))
                /\ head_calls t
                   = zip (map shorts_url
                            (omap videoId (passes_filters rt muted now (fetched t)))) rs)
       /\ sort_by_publishedAt
            (without_shorts include_shorts rs (passes_filters rt muted now (fetched t)))
          = Some sorted
       /\ mapM (format_video m) sorted = Some out
       /\ index_facts m t
       /\ (truthy_str check_playlist_id = true -> FEED_CACHE s' = FEED_CACHE s)
       /\ (truthy_str check_playlist_id = false ->
           exists timestamp t0,
             t = t0 ++ [Read_time timestamp; Log Info (Feed_cache_updated (length out))]
             /\ FEED_CACHE s' = {| cache_data := Some out;
                                   cache_timestamp := timestamp;
                                   cache_key := Some key |}).
Proof.
  intros H. unfold assemble_feed in H.
  apply bind_Ok_inv in H as (subs & s1 & t1 & tr1 & H1 & H & ->).
  apply call_Ok_inv in H1 as [-> Hc1].
  destruct subs as [|sub subs].
  { left. injection H as <- <- <-. auto. }
  right.
  apply bind_Ok_inv in H as (channel_ids & s1' & t1' & tr1' & H1' & H & ->).
  apply subscript_Ok_inv in H1' as (_ & -> & ->).
  apply bind_Ok_inv in H as (upl & s2 & t2 & tr2 & H2 & H & ->).
  assert (Hq2 : FEED_CACHE s2 = FEED_CACHE s1 /\ only channels_only t2).
  { revert H2. unfold get_uploads_playlist_ids.
    match goal with
    | |- ?m s1 = _ -> _ => assert (Hq : quiet channels_only m) by repeat quiet_step
    end.
    apply Hq. }
  destruct Hq2 as [Hc2 Ho2].
  apply bind_Ok_inv in H as (raw & s3 & t3 & tr3 & H3 & H & ->).
  unfold get_recent_videos_from_playlists in H3.
  destruct (get_recent_videos_loop_run youtube upl [] s2)
    as (rs3 & s3' & t3' & Hrun3 & Hlen3 & Hcalls3).
  destruct (get_recent_videos_loop_quiet youtube upl [] _ _ _ _ Hrun3) as [Hc3 Ho3].
  rewrite Hrun3 in H3. injection H3 as <- <- <-.
  assert (Hf3 : fetched t3' = concat (map contribution rs3)).
  { unfold fetched. rewrite Hcalls3. now apply fetched_zip. }
  cbn [app] in H. rewrite <- Hf3 in H.
  apply bind_Ok_inv in H as (muted & s4 & t4 & tr4 & H4 & H & ->).
  apply call_Ok_inv in H4 as [-> Hc4].
  apply bind_Ok_inv in H as (unmuted & s4' & t4' & tr4' & H4' & H & ->).
  apply subscript_Ok_inv in H4' as (Hunmuted & -> & ->).
  apply filter_on_Some in Hunmuted as [-> Hchannels].
  fold (not_muted muted) in H.
  apply bind_Ok_inv in H as (now & s5 & t5 & tr5 & H5 & H & ->).
  apply read_clock_inv in H5 as (now' & Hnow & -> & Hc5). injection Hnow as <-.
  apply bind_Ok_inv in H as (recent & s6 & t6 & tr6 & H6 & H & ->).
  destruct (filter_by_date_run rt (now - hours_48)
              (List.filter (not_muted muted) (fetched t3')) [] s5)
    as (t6' & Hrun6 & Ho6).
  rewrite Hrun6 in H6. injection H6 as <- <- <-. cbn [app] in H.
  fold (passes_filters rt muted now (fetched t3')) in H.
  set (recent := passes_filters rt muted now (fetched t3')) in *.
  apply bind_Ok_inv in H as (kept & s7 & t7 & tr7 & H7 & H & ->).
  assert (H7' : exists rs,
             FEED_CACHE s7 = FEED_CACHE s5 /\ only probe_only t7
             /\ kept = without_shorts include_shorts rs recent
             /\ (if include_shorts then t7 = []
                 else length rs = length recent
                      /\ Forall (fun v => is_Some (videoId v)) recent
                      /\ head_calls t7 = zip (map shorts_url (omap videoId recent)) rs)).
  { destruct include_shorts; cbn [negb] in H7.
    - injection H7 as <- <- <-. exists []. split; [reflexivity|]. split; [apply only_nil|].
      auto.
    - apply bind_Ok_inv in H7 as (video_ids & sa & ta & tb & Ha & H7 & ->).
      apply subscript_Ok_inv in Ha as (Hids & -> & ->).
      apply bind_Ok_inv in H7 as (shorts & sb & tb' & tc & Hb & H7 & ->).
      apply subscript_Ok_inv in H7 as (Hkept & -> & ->).
      destruct (check_is_short_parallel_run rt _ _ _ _ _ Hb)
        as (rs & Hlen & -> & Hhead & Hprobe & Hcb).
      apply filter_on_Some in Hkept as [-> _].
      pose proof (mapM_omap _ _ _ Hids) as Homap.
      pose proof (length_mapM _ _ _ Hids) as Hlids.
      exists rs. split; [exact Hcb|]. rewrite !app_nil_r. cbn [app].
      split; [exact Hprobe|]. unfold without_shorts. rewrite Homap.
      split; [reflexivity|]. split; [congruence|].
      split; [now apply mapM_is_Some_Forall in Hids|exact Hhead]. }
  destruct H7' as (rs & Hc7 & Ho7 & -> & Hprobe).
  apply bind_Ok_inv in H as (sorted & s7' & t7' & tr7' & Hsort & H & ->).
  apply subscript_Ok_inv in Hsort as (Hsort & -> & ->).
  apply bind_Ok_inv in H as (m & s8 & t8 & tr8 & H8 & H & ->).
  destruct (build_saved_video_map_quiet fuel youtube _ _ _ _ H8) as [Hc8 Ho8].
  pose proof (build_saved_video_map_facts fuel youtube _ _ _ _ H8) as Hfacts.
  apply bind_Ok_inv in H as (formatted & s8' & t8' & tr8' & Hfmt & H & ->).
  apply subscript_Ok_inv in Hfmt as (Hfmt & -> & ->).
  apply bind_Ok_inv in H as ([] & s9 & t9 & tr9 & H9 & H & ->).
  injection H as <- <- <-.
  rewrite update_cache_run in H9.
  assert (Ho9 : only clock_or_log t9).
  { eapply (update_cache_emits rt). rewrite update_cache_run. exact H9. }
  cbn [app]. rewrite !app_nil_r.
  set (t := Call_subscriptions_list (Returns (sub :: subs)) :: t2 ++ t3'
            ++ Call_load_muted_channels (Returns muted) :: Read_now now :: t6'
            ++ t7 ++ t8 ++ t9).
  assert (Happ : t = [Call_subscriptions_list (Returns (sub :: subs))] ++ t2 ++ t3'
                     ++ [Call_load_muted_channels (Returns muted)] ++ [Read_now now] ++ t6'
                     ++ t7 ++ t8 ++ t9) by reflexivity.
  assert (Hfetched : fetched t = fetched t3').
  { rewrite Happ, !fetched_app.
    rewrite (only_fetched_nil channels_only t2), (only_fetched_nil log_only t6'),
      (only_fetched_nil probe_only t7), (only_fetched_nil collections_or_log t8),
      (only_fetched_nil clock_or_log t9) by (reflexivity || assumption).
    cbn. now rewrite !app_nil_r. }
  assert (Hmute : mute_reads t = [Returns muted]).
  { rewrite Happ, !mute_reads_app.
    rewrite (only_mute_reads_nil channels_only t2), (only_mute_reads_nil uploads_or_log t3'),
      (only_mute_reads_nil log_only t6'), (only_mute_reads_nil probe_only t7),
      (only_mute_reads_nil collections_or_log t8),
      (only_mute_reads_nil clock_or_log t9) by (reflexivity || assumption).
    reflexivity. }
  assert (Hhead : head_calls t = head_calls t7).
  { rewrite Happ, !head_calls_app.
    rewrite (only_head_calls_nil channels_only t2), (only_head_calls_nil uploads_or_log t3'),
      (only_head_calls_nil log_only t6'), (only_head_calls_nil collections_or_log t8),
      (only_head_calls_nil clock_or_log t9) by (reflexivity || assumption).
    cbn. now rewrite !app_nil_r. }
  assert (Hmember : member_calls t = member_calls t8).
  { rewrite Happ, !member_calls_app.
    rewrite (only_member_calls_nil channels_only t2),
      (only_member_calls_nil uploads_or_log t3'), (only_member_calls_nil log_only t6'),
      (only_member_calls_nil probe_only t7),
      (only_member_calls_nil clock_or_log t9) by (reflexivity || assumption).
    cbn. now rewrite !app_nil_r. }
  assert (Hlisting : listing_calls t = listing_calls t8).
  { rewrite Happ, !listing_calls_app.
    rewrite (only_listing_calls_nil channels_only t2),
      (only_listing_calls_nil uploads_or_log t3'), (only_listing_calls_nil log_only t6'),
      (only_listing_calls_nil probe_only t7),
      (only_listing_calls_nil clock_or_log t9) by (reflexivity || assumption).
    cbn. now rewrite !app_nil_r. }
  exists sub, subs, muted, now, rs, sorted, m.
  split; [left|]. split; [exact Hmute|].
  split; [rewrite Happ, !elem_of_app; do 4 right; left; left|].
  rewrite Hfetched, Hhead. fold recent.
  split; [exact Hchannels|]. split.
  { destruct include_shorts; [now subst t7|exact Hprobe]. }
  split; [exact Hsort|]. split; [exact Hfmt|].
  split; [exact (index_facts_transport m t8 t Hmember Hlisting Hfacts)|]. split.
  - intros Hpl. rewrite Hpl in H9. injection H9 as <- <-. congruence.
  - intros Hpl. rewrite Hpl in H9. destruct (time_time rt (world s8)) as [ts w].
    injection H9 as <- <-. exists ts.
    exists (Call_subscriptions_list (Returns (sub :: subs)) :: t2 ++ t3'
            ++ Call_load_muted_channels (Returns muted) :: Read_now now :: t6'
            ++ t7 ++ t8).
    split; [|reflexivity]. unfold t. cbn [app]. f_equal. rewrite <- !app_assoc.
    do 2 f_equal. cbn [app]. do 2 f_equal. now rewrite <- !app_assoc.
Qed.

End Assembly.

(** *** The record of [get_feed] is what the collaborators did *)

Section Genuine.

Context {World : Type} (rt : Runtime World).

Lemma feed_cache_lookup_faithful (youtube : option (Resource World)) (key : string)
    (check_playlist_id : option string) (force_refresh : bool) :
  faithful rt youtube (feed_cache_lookup rt key check_playlist_id force_refresh).
Proof. unfold feed_cache_lookup. repeat faithful_step. Qed.

Lemma update_cache_faithful (youtube : option (Resource World)) (key : string)
    (check_playlist_id : option string) (formatted_videos : list FeedEntry) :
  faithful rt youtube (update_cache rt key check_playlist_id formatted_videos).
Proof. unfold update_cache. repeat faithful_step. Qed.

Lemma assemble_feed_faithful (fuel : nat) (youtube : Resource World)
    (include_shorts : bool) (check_playlist_id : option string) (key : string) :
  faithful rt (Some youtube)
    (assemble_feed rt fuel youtube include_shorts check_playlist_id key).
Proof.
  unfold assemble_feed.
  faithful_step; [unfold get_subscriptions; faithful_step|].
  destruct a as [|sub subs]; [faithful_step|].
  faithful_step; [faithful_step|].
  faithful_step; [unfold get_uploads_playlist_ids; repeat faithful_step|].
  faithful_step; [apply get_recent_videos_loop_faithful|].
  faithful_step; [faithful_step|]. faithful_step; [faithful_step|].
  faithful_step; [faithful_step|].
  faithful_step; [apply filter_by_date_faithful|].
  faithful_step.
  { destruct (negb include_shorts); [|faithful_step].
    faithful_step; [faithful_step|].
    faithful_step; [apply check_is_short_parallel_faithful|faithful_step]. }
  faithful_step; [faithful_step|].
  faithful_step; [apply build_saved_video_map_faithful|].
  faithful_step; [faithful_step|].
  faithful_step; [apply update_cache_faithful|faithful_step].
Qed.

(** Every request in the record of [get_feed] got the response its
    collaborator gives at that point, and every clock reading is the clock's;
    in mock mode the record holds no request to the platform. *)
Lemma get_feed_faithful (fuel : nat) (youtube : option (Resource World))
    (include_shorts : bool) (check_playlist_id : option string) (force_refresh : bool) :
  faithful rt youtube
    (get_feed rt fuel youtube include_shorts check_playlist_id force_refresh).
Proof.
  unfold get_feed. faithful_step; [apply feed_cache_lookup_faithful|].
  destruct a as [data|]; [faithful_step|].
  destruct youtube as [yt|]; [apply assemble_feed_faithful|faithful_step].
Qed.

End Genuine.

Section GetFeed.

Context {World : Type} (rt : Runtime World).

Lemma get_feed_hit (fuel : nat) (youtube : option (Resource World)) (include_shorts : bool)
    (check_playlist_id : option string) (force_refresh : bool) (s : state World) :
  cache_hit rt (cache_key_of include_shorts) check_playlist_id force_refresh s = true ->
  exists e data s' t,
    get_feed rt fuel youtube include_shorts check_playlist_id force_refresh s
    = (Ok (e :: data), s', t)
    /\ cache_data (FEED_CACHE s) = Some (e :: data)
    /\ FEED_CACHE s' = FEED_CACHE s
    /\ collaborator_calls t = []
    /\ served_from_cache t = true.
Proof.
  intros Hhit.
  destruct (feed_cache_lookup_hit rt _ _ _ _ Hhit)
    as (e & data & s' & t & Hrun & Hdata & Hcache & Hcalls & Hserved).
  exists e, data, s', t. unfold get_feed, bind. rewrite Hrun. cbn [ret].
  rewrite app_nil_r. auto.
Qed.

Lemma get_feed_miss (fuel : nat) (youtube : option (Resource World)) (include_shorts : bool)
    (check_playlist_id : option string) (force_refresh : bool)
    (s s' : state World) (r : result (list FeedEntry)) (t : list event) :
  cache_hit rt (cache_key_of include_shorts) check_playlist_id force_refresh s = false ->
  get_feed rt fuel youtube include_shorts check_playlist_id force_refresh s = (r, s', t) ->
  exists s1 t1 t2,
    FEED_CACHE s1 = FEED_CACHE s
    /\ only clock_or_log t1
    /\ collaborator_calls t1 = []
    /\ t = t1 ++ t2
    /\ served_from_cache t = false
    /\ match youtube with
       | None => r = Ok get_mock_feed /\ s' = s1 /\ t2 = []
       | Some yt =>
           assemble_feed rt fuel yt include_shorts check_playlist_id
             (cache_key_of include_shorts) s1 = (r, s', t2)
       end.
Proof.
  intros Hmiss.
  destruct (feed_cache_lookup_miss rt _ _ _ _ Hmiss) as (s1 & t1 & Hrun & Hcache & Ho1 & Hc1).
  unfold get_feed, bind. rewrite Hrun.
  destruct youtube as [yt|].
  - destruct (assemble_feed rt fuel yt include_shorts check_playlist_id
                (cache_key_of include_shorts) s1) as [[r2 s2] t2] eqn:Easm.
    intros H. injection H as <- <- <-. exists s1, t1, t2.
    split; [exact Hcache|]. split; [exact Ho1|]. split; [exact Hc1|].
    split; [reflexivity|]. split; [|exact Easm].
    rewrite served_from_cache_app.
    rewrite (only_not_served clock_or_log t1 eq_refl Ho1).
    apply (only_not_served not_cache_hit); [reflexivity|].
    eapply assemble_feed_emits. exact Easm.
  - cbn [ret]. intros H. injection H as <- <- <-. exists s1, t1, [].
    split; [exact Hcache|]. split; [exact Ho1|]. split; [exact Hc1|].
    split; [reflexivity|]. split; [|auto].
    rewrite app_nil_r. apply (only_not_served clock_or_log); [reflexivity|exact Ho1].
Qed.

(** A run wrote the cache-hit log record exactly when the condition of the
    cache check held in its starting state. *)
Lemma get_feed_served (fuel : nat) (youtube : option (Resource World)) (include_shorts : bool)
    (check_playlist_id : option string) (force_refresh : bool)
    (s s' : state World) (r : result (list FeedEntry)) (t : list event) :
  get_feed rt fuel youtube include_shorts check_playlist_id force_refresh s = (r, s', t) ->
  served_from_cache t
  = cache_hit rt (cache_key_of include_shorts) check_playlist_id force_refresh s.
Proof.
  intros Hrun.
  destruct (cache_hit rt (cache_key_of include_shorts) check_playlist_id force_refresh s)
    eqn:Ehit.
  - destruct (get_feed_hit fuel youtube _ _ _ _ Ehit) as (e & data & s2 & t2 & Hrun2 & H).
    rewrite Hrun2 in Hrun. injection Hrun as _ _ <-. tauto.
  - destruct (get_feed_miss fuel youtube _ _ _ _ _ _ _ Ehit Hrun)
      as (s1 & t1 & t2 & _ & _ & _ & _ & H & _).
    exact H.
Qed.

(** A completed run on a resource that did not serve the cache ran the
    pipeline from a state with the same [FEED_CACHE]. *)
Lemma get_feed_assembled (fuel : nat) (youtube : Resource World) (include_shorts : bool)
    (check_playlist_id : option string) (force_refresh : bool)
    (s s' : state World) (r : result (list FeedEntry)) (t : list event) :
  get_feed rt fuel (Some youtube) include_shorts check_playlist_id force_refresh s
  = (r, s', t) ->
  served_from_cache t = false ->
  exists s1 t1 t2,
    FEED_CACHE s1 = FEED_CACHE s
    /\ only clock_or_log t1
    /\ t = t1 ++ t2
    /\ assemble_feed rt fuel youtube include_shorts check_playlist_id
         (cache_key_of include_shorts) s1 = (r, s', t2).
Proof.
  intros Hrun Hserved. rewrite (get_feed_served _ _ _ _ _ _ _ _ _ Hrun) in Hserved.
  destruct (get_feed_miss fuel (Some youtube) _ _ _ _ _ _ _ Hserved Hrun)
    as (s1 & t1 & t2 & H1 & H2 & _ & H3 & _ & H4).
  exists s1, t1, t2. auto.
Qed.

(** A call whose cache check falls through is a miss. *)
Lemma get_feed_cache_miss (fuel : nat) (youtube : option (Resource World))
    (include_shorts : bool) (check_playlist_id : option string) (force_refresh : bool)
    (s s' : state World) (r : result (list FeedEntry)) (t : list event) :
  cache_hit rt (cache_key_of include_shorts) check_playlist_id force_refresh s = false ->
  get_feed rt fuel youtube include_shorts check_playlist_id force_refresh s = (r, s', t) ->
  cache_miss rt fuel youtube include_shorts check_playlist_id force_refresh s r s' t.
Proof.
  intros Hmiss.
  destruct (feed_cache_lookup_miss rt _ _ _ _ Hmiss) as (s1 & t1 & Hrun & Hcache & Ho1 & Hc1).
  unfold get_feed, bind. rewrite Hrun. intros H. exists s1, t1.
  destruct youtube as [yt|].
  - destruct (assemble_feed rt fuel yt include_shorts check_playlist_id
                (cache_key_of include_shorts) s1) as [[r2 s2] t2] eqn:Easm.
    injection H as <- <- <-. exists t2. auto.
  - cbn [ret] in H. injection H as <- <- <-. exists []. auto 10.
Qed.

(** A call whose cache check succeeds is a hit. *)
Lemma get_feed_cache_served (fuel : nat) (youtube : option (Resource World))
    (include_shorts : bool) (check_playlist_id : option string) (force_refresh : bool)
    (s s' : state World) (r : result (list FeedEntry)) (t : list event) :
  cache_hit rt (cache_key_of include_shorts) check_playlist_id force_refresh s = true ->
  get_feed rt fuel youtube include_shorts check_playlist_id force_refresh s = (r, s', t) ->
  exists data,
    cache_served rt include_shorts check_playlist_id force_refresh s data r s' t
    /\ FEED_CACHE s' = FEED_CACHE s
    /\ collaborator_calls t = []
    /\ served_from_cache t = true.
Proof.
  intros Hhit.
  destruct (feed_cache_lookup_hit rt _ _ _ _ Hhit)
    as (e & data & s2 & t2 & Hrun & Hdata & Hcache & Hcalls & Hserved).
  unfold get_feed, bind. rewrite Hrun. cbn [ret]. rewrite app_nil_r.
  intros H. injection H as <- <- <-. exists (e :: data). unfold cache_served. auto 10.
Qed.

End GetFeed.

(** *** The feed cache *)

(** C1.  Every call of [get_feed] is either a hit or a miss.  It is a hit
    (the cache check returns the stored list at line 325), with no
    collaborator called and [FEED_CACHE] left as it was, only if the slot
    was populated, force-refresh was not requested, no playlist filter was
    requested, the stored key is the key of the request, and the age of the
    slot at the check is strictly less than [CACHE_DURATION] (300 seconds).
    As soon as one of the five conditions fails the call is a miss: its
    outcome is that of the pipeline (of the mock feed without a client) run
    after the check.  In particular a call whose short-form flag is the
    opposite of the one in the stored key is a miss, whatever the age. *)
Theorem feed_cache_lookup_sound {World : Type} (rt : Runtime World) (fuel : nat)
    (youtube : option (Resource World)) (include_shorts : bool)
    (check_playlist_id : option string) (force_refresh : bool)
    (s s' : state World) (r : result (list FeedEntry)) (t : list event) :
  get_feed rt fuel youtube include_shorts check_playlist_id force_refresh s = (r, s', t) ->
  ((exists data,
       cache_served rt include_shorts check_playlist_id force_refresh s data r s' t
       /\ force_refresh = false
       /\ truthy_str check_playlist_id = false
       /\ cache_key (FEED_CACHE s) = Some (cache_key_of include_shorts)
       /\ (lookup_time rt s - cache_timestamp (FEED_CACHE s) < CACHE_DURATION)%Q
       /\ FEED_CACHE s' = FEED_CACHE s
       /\ collaborator_calls t = []
       /\ served_from_cache t = true)
   \/ (cache_miss rt fuel youtube include_shorts check_playlist_id force_refresh s r s' t
       /\ served_from_cache t = false))
  /\ (cache_data (FEED_CACHE s) = None
      \/ force_refresh = true
      \/ truthy_str check_playlist_id = true
      \/ cache_key (FEED_CACHE s) <> Some (cache_key_of include_shorts)
      \/ ~ (lookup_time rt s - cache_timestamp (FEED_CACHE s) < CACHE_DURATION)%Q ->
      cache_miss rt fuel youtube include_shorts check_playlist_id force_refresh s r s' t)
  /\ (cache_key (FEED_CACHE s) = Some (cache_key_of (negb include_shorts)) ->
      cache_miss rt fuel youtube include_shorts check_playlist_id force_refresh s r s' t).
Proof.
  intros Hrun.
  assert (Hfail : cache_data (FEED_CACHE s) = None
      \/ force_refresh = true
      \/ truthy_str check_playlist_id = true
      \/ cache_key (FEED_CACHE s) <> Some (cache_key_of include_shorts)
      \/ ~ (lookup_time rt s - cache_timestamp (FEED_CACHE s) < CACHE_DURATION)%Q ->
      cache_hit rt (cache_key_of include_shorts) check_playlist_id force_refresh s = false).
  { unfold cache_hit. intros [Hd|[Hf|[Hp|[Hk|Ha]]]].
    - rewrite Hd. cbn [truthy_data]. now rewrite andb_false_r.
    - now rewrite Hf.
    - rewrite Hp. cbn [negb]. now rewrite andb_false_r.
    - rewrite (bool_decide_eq_false_2 _ Hk). now rewrite andb_false_r.
    - destruct (Qltb _ CACHE_DURATION) eqn:Eq; [|apply andb_false_r].
      apply Qltb_lt in Eq. contradiction. }
  split; [|split].
  - destruct (cache_hit rt (cache_key_of include_shorts) check_playlist_id force_refresh s)
      eqn:Ehit.
    + left.
      destruct (get_feed_cache_served rt fuel youtube _ _ _ _ _ _ _ Ehit Hrun)
        as (data & Hserved & Hcache & Hcalls & Hlog).
      exists data. split; [exact Hserved|].
      unfold cache_hit in Ehit. rewrite !andb_true_iff in Ehit.
      destruct Ehit as [[[[Hfr Hpl] _] Hkey] Hage].
      apply negb_true_iff in Hfr, Hpl. apply bool_decide_eq_true in Hkey.
      apply Qltb_lt in Hage. auto 10.
    + right. split; [exact (get_feed_cache_miss rt fuel youtube _ _ _ _ _ _ _ Ehit Hrun)|].
      rewrite (get_feed_served rt _ _ _ _ _ _ _ _ _ Hrun). exact Ehit.
  - intros H. exact (get_feed_cache_miss rt fuel youtube _ _ _ _ _ _ _ (Hfail H) Hrun).
  - intros Hkey. apply (get_feed_cache_miss rt fuel youtube _ _ _ _ _ _ _); [|exact Hrun].
    apply Hfail. do 3 right. left. rewrite Hkey. intros H.
    assert (H' : cache_key_of (negb include_shorts) = cache_key_of include_shorts)
      by congruence.
    apply cache_key_of_inj in H'. now destruct include_shorts.
Qed.

(** The request on the populated slot is a hit; the request with the flag
    flipped is a miss and returns what the pipeline assembles, the empty
    feed, not the stored list. *)
Lemma feed_cache_lookup_sound_witness :
  (Demo.hit_run
   = (Ok [Demo.recent_entry], Demo.state_of Demo.hit_run, Demo.events_of Demo.hit_run)
   /\ exists data,
        cache_served Demo.rt true None false (Demo.start Demo.warm_cache) data
          (Ok [Demo.recent_entry]) (Demo.state_of Demo.hit_run)
          (Demo.events_of Demo.hit_run)
        /\ collaborator_calls (Demo.events_of Demo.hit_run) = [])
  /\ (DemoLookup.flipped_run
      = (Ok [], Demo.state_of DemoLookup.flipped_run, Demo.events_of DemoLookup.flipped_run)
      /\ cache_data (FEED_CACHE (Demo.start Demo.warm_cache)) = Some [Demo.recent_entry]
      /\ cache_miss Demo.rt 5 (Some Demo.youtube_stale) false None false
           (Demo.start Demo.warm_cache) (Ok [])
           (Demo.state_of DemoLookup.flipped_run) (Demo.events_of DemoLookup.flipped_run)).
Proof.
  assert (Hhit : Demo.hit_run
                 = (Ok [Demo.recent_entry], Demo.state_of Demo.hit_run,
                    Demo.events_of Demo.hit_run)) by (vm_compute; reflexivity).
  assert (Hflip : DemoLookup.flipped_run
                  = (Ok [], Demo.state_of DemoLookup.flipped_run,
                     Demo.events_of DemoLookup.flipped_run)) by (vm_compute; reflexivity).
  split.
  - split; [exact Hhit|].
    destruct (proj1 (feed_cache_lookup_sound Demo.rt 5 (Some Demo.youtube) true None false
                       (Demo.start Demo.warm_cache) (Demo.state_of Demo.hit_run)
                       (Ok [Demo.recent_entry]) (Demo.events_of Demo.hit_run) Hhit))
      as [(data & Hserved & _ & _ & _ & _ & _ & Hcalls & _)|[_ Hlog]].
    + exists data. split; [exact Hserved|exact Hcalls].
    + vm_compute in Hlog. discriminate.
  - split; [exact Hflip|]. split; [reflexivity|].
    exact (proj2 (proj2 (feed_cache_lookup_sound Demo.rt 5 (Some Demo.youtube_stale) false
                           None false (Demo.start Demo.warm_cache)
                           (Demo.state_of DemoLookup.flipped_run) (Ok [])
                           (Demo.events_of DemoLookup.flipped_run) Hflip)) eq_refl).
Defined.




Section Store.

Context {World : Type} (rt : Runtime World).

Lemma filter_by_date_quiet (cutoff_time : Z) (raw_videos filtered_videos : list PlaylistItem) :
  quiet log_only (filter_by_date rt cutoff_time raw_videos filtered_videos).
Proof.
  intros s r s' t H.
  destruct (filter_by_date_run rt cutoff_time raw_videos filtered_videos s)
    as (t' & Hrun & Ht').
  rewrite Hrun in H. injection H as <- <- <-. auto.
Qed.

(** With a playlist filter the pipeline leaves [FEED_CACHE] alone, whatever
    its outcome. *)
Lemma assemble_feed_scoped (fuel : nat) (youtube : Resource World) (include_shorts : bool)
    (check_playlist_id : option string) (key : string) :
  truthy_str check_playlist_id = true ->
  quiet not_cache_hit
    (assemble_feed rt fuel youtube include_shorts check_playlist_id key).
Proof.
  intros Hpl. unfold assemble_feed.
  apply quiet_bind; [unfold get_subscriptions; quiet_step|].
  intros [|sub subs]; [quiet_step|].
  apply quiet_bind; [quiet_step|]. intros channel_ids.
  apply quiet_bind; [unfold get_uploads_playlist_ids; repeat quiet_step|].
  intros upload_playlist_ids. apply quiet_bind.
  { eapply quiet_weaken; [|apply get_recent_videos_loop_quiet]. now intros []. }
  intros raw. apply quiet_bind; [quiet_step|].
  intros muted. apply quiet_bind; [quiet_step|].
  intros unmuted. apply quiet_bind; [quiet_step|].
  intros now. apply quiet_bind.
  { eapply quiet_weaken; [|apply filter_by_date_quiet]. now intros []. }
  intros recent. apply quiet_bind.
  { destruct (negb include_shorts); [|quiet_step].
    apply quiet_bind; [quiet_step|]. intros video_ids.
    apply quiet_bind; [|intros; quiet_step].
    eapply quiet_weaken; [|apply check_is_short_parallel_quiet]. now intros []. }
  intros kept. apply quiet_bind; [quiet_step|].
  intros sorted. apply quiet_bind.
  { eapply quiet_weaken; [|apply build_saved_video_map_quiet]. now intros []. }
  intros m. apply quiet_bind; [quiet_step|].
  intros formatted. apply quiet_bind; [|intros; quiet_step].
  unfold update_cache. rewrite Hpl. cbn [negb]. quiet_step.
Qed.

Lemma collaborator_calls_nil (t : list event) (ev : event) :
  collaborator_calls t = [] -> ev ∈ t -> is_collaborator_call ev = false.
Proof.
  unfold collaborator_calls. intros Hnil Hin.
  destruct (is_collaborator_call ev) eqn:E; [|reflexivity].
  assert (Hf : In ev (List.filter is_collaborator_call t)).
  { apply filter_In. split; [now apply list_elem_of_In|exact E]. }
  rewrite Hnil in Hf. destruct Hf.
Qed.

(** A completed, unfiltered run that received a non-empty subscription list
    ends by writing the slot: the returned list, the clock reading taken at
    that point, the key of the request. *)
Lemma get_feed_stores (fuel : nat) (youtube : option (Resource World))
    (include_shorts : bool) (check_playlist_id : option string) (force_refresh : bool)
    (s s' : state World) (out : list FeedEntry) (t : list event)
    (sub : Subscription) (subs : list Subscription) :
  get_feed rt fuel youtube include_shorts check_playlist_id force_refresh s
  = (Ok out, s', t) ->
  truthy_str check_playlist_id = false ->
  Call_subscriptions_list (Returns (sub :: subs)) ∈ t ->
  exists timestamp t0,
    t = t0 ++ [Read_time timestamp; Log Info (Feed_cache_updated (length out))]
    /\ FEED_CACHE s' = {| cache_data := Some out;
                          cache_timestamp := timestamp;
                          cache_key := Some (cache_key_of include_shorts) |}.
Proof.
  intros Hrun Hpl Hsub.
  destruct (cache_hit rt (cache_key_of include_shorts) check_playlist_id force_refresh s)
    eqn:Ehit.
  { destruct (get_feed_hit rt fuel youtube _ _ _ _ Ehit)
      as (e & data & s2 & t2 & Hrun2 & _ & _ & Hcalls & _).
    rewrite Hrun2 in Hrun. injection Hrun as _ _ <-.
    pose proof (collaborator_calls_nil _ _ Hcalls Hsub). discriminate. }
  destruct (get_feed_miss rt fuel youtube _ _ _ _ _ _ _ Ehit Hrun)
    as (s1 & t1 & t2 & Hc1 & Ho1 & _ & -> & _ & Hk).
  apply elem_of_app in Hsub as [Hsub|Hsub].
  { exfalso. revert Hsub. eapply only_not_elem; [|exact Ho1]. reflexivity. }
  destruct youtube as [yt|].
  - apply assemble_feed_run in Hk as [(-> & -> & _)|Hk].
    + apply list_elem_of_singleton in Hsub. discriminate.
    + destruct Hk as (sub' & subs' & muted & now & rs & sorted & m & _ & _ & _ & _ & _
                      & _ & _ & _ & _ & Hstore).
      destruct (Hstore Hpl) as (ts & t0 & -> & Hcache).
      exists ts, (t1 ++ t0). rewrite <- app_assoc. auto.
  - destruct Hk as (_ & _ & ->). now apply elem_of_nil in Hsub.
Qed.

End Store.

(** C3 (as amended).  A completed run without a playlist filter that
    received a non-empty subscription list ends by overwriting the slot
    with the list it returns, the clock reading taken at that point and the
    key of the request.  A call with a playlist filter never changes the
    slot, whatever its outcome. *)
Theorem feed_cache_store {World : Type} (rt : Runtime World) (fuel : nat)
    (youtube : option (Resource World)) (include_shorts : bool)
    (check_playlist_id : option string) (force_refresh : bool)
    (s s' : state World) (r : result (list FeedEntry)) (t : list event) :
  get_feed rt fuel youtube include_shorts check_playlist_id force_refresh s = (r, s', t) ->
  (truthy_str check_playlist_id = false ->
   forall out sub subs,
     r = Ok out ->
     Call_subscriptions_list (Returns (sub :: subs)) ∈ t ->
     exists timestamp t0,
       t = t0 ++ [Read_time timestamp; Log Info (Feed_cache_updated (length out))]
       /\ FEED_CACHE s' = {| cache_data := Some out;
                             cache_timestamp := timestamp;
                             cache_key := Some (cache_key_of include_shorts) |})
  /\ (truthy_str check_playlist_id = true -> FEED_CACHE s' = FEED_CACHE s).
Proof.
  intros Hrun. split.
  - intros Hpl out sub subs -> Hsub. eapply get_feed_stores; eassumption.
  - intros Hpl.
    assert (Ehit : cache_hit rt (cache_key_of include_shorts) check_playlist_id
                     force_refresh s = false).
    { unfold cache_hit. rewrite Hpl. cbn [negb]. now rewrite andb_false_r. }
    destruct (get_feed_miss rt fuel youtube _ _ _ _ _ _ _ Ehit Hrun)
      as (s1 & t1 & t2 & Hc1 & _ & _ & _ & _ & Hk).
    destruct youtube as [yt|].
    + destruct (assemble_feed_scoped rt fuel yt include_shorts check_playlist_id
                  (cache_key_of include_shorts) Hpl _ _ _ _ Hk) as [Hc _].
      congruence.
    + destruct Hk as (_ & -> & _). exact Hc1.
Qed.

Lemma feed_cache_store_witness :
  Demo.first_run
  = (Ok [Demo.recent_entry], Demo.state_of Demo.first_run, Demo.events_of Demo.first_run)
  /\ Call_subscriptions_list (Returns [ {| sub_channelId := Some "UC123" |} ])
     ∈ Demo.events_of Demo.first_run
  /\ (exists timestamp t0,
        Demo.events_of Demo.first_run
        = t0 ++ [Read_time timestamp;
                 Log Info (Feed_cache_updated (length [Demo.recent_entry]))]
        /\ FEED_CACHE (Demo.state_of Demo.first_run)
           = {| cache_data := Some [Demo.recent_entry];
                cache_timestamp := timestamp;
                cache_key := Some (cache_key_of true) |})
  /\ (truthy_str None = true ->
      FEED_CACHE (Demo.state_of Demo.first_run) = FEED_CACHE (Demo.start FEED_CACHE_init)).
Proof.
  assert (Hrun : Demo.first_run
                 = (Ok [Demo.recent_entry], Demo.state_of Demo.first_run,
                    Demo.events_of Demo.first_run)) by (vm_compute; reflexivity).
  assert (Hsub : Call_subscriptions_list (Returns [ {| sub_channelId := Some "UC123" |} ])
                 ∈ Demo.events_of Demo.first_run).
  { vm_compute. apply list_elem_of_further, list_elem_of_here. }
  destruct (feed_cache_store Demo.rt 5 (Some Demo.youtube) true None false
              (Demo.start FEED_CACHE_init) (Demo.state_of Demo.first_run)
              (Ok [Demo.recent_entry]) (Demo.events_of Demo.first_run) Hrun)
    as [Hstore Hscoped].
  split; [exact Hrun|]. split; [exact Hsub|]. split; [|exact Hscoped].
  exact (Hstore eq_refl [Demo.recent_entry] _ _ eq_refl Hsub).
Defined.

(** C3 as stated fails: a forced, unfiltered request of a user without
    subscriptions returns the empty feed and leaves the slot as it was,
    with the earlier list, timestamp and key. *)
Lemma feed_cache_store_counterexample :
  Demo.no_subs_run
  = (Ok [],
     {| FEED_CACHE := Demo.warm_cache; world := Demo.noon + 1 |},
     [Read_time (inject_Z Demo.noon); Call_subscriptions_list (Returns [])])
  /\ cache_data Demo.warm_cache = Some [Demo.recent_entry]
  /\ FEED_CACHE (Demo.state_of Demo.no_subs_run) <> 
     {| cache_data := Some [];
        cache_timestamp := cache_timestamp (FEED_CACHE (Demo.state_of Demo.no_subs_run));
        cache_key := Some (cache_key_of true) |}.
Proof.
  split; [vm_compute; reflexivity|]. split; [reflexivity|].
  vm_compute. intros H. discriminate H.
Qed.

Section Idempotence.

Context {World : Type} (rt : Runtime World).

(** A request without force-refresh and without playlist filter, made on a
    slot that holds a non-empty list under the key of the request and is
    younger than [CACHE_DURATION], returns that list, calls no collaborator
    and leaves the slot as it is. *)
Lemma stored_feed_served (fuel : nat) (youtube : option (Resource World))
    (include_shorts : bool) (check_playlist_id : option string) (s : state World)
    (e : FeedEntry) (data : list FeedEntry) :
  truthy_str check_playlist_id = false ->
  cache_data (FEED_CACHE s) = Some (e :: data) ->
  cache_key (FEED_CACHE s) = Some (cache_key_of include_shorts) ->
  (lookup_time rt s - cache_timestamp (FEED_CACHE s) < CACHE_DURATION)%Q ->
  exists s' t,
    get_feed rt fuel youtube include_shorts check_playlist_id false s
    = (Ok (e :: data), s', t)
    /\ collaborator_calls t = []
    /\ FEED_CACHE s' = FEED_CACHE s.
Proof.
  intros Hpl Hdata Hkey Hage.
  assert (Hhit : cache_hit rt (cache_key_of include_shorts) check_playlist_id false s = true).
  { unfold cache_hit. rewrite Hpl, Hdata, Hkey. cbn [negb andb truthy_data].
    rewrite bool_decide_eq_true_2 by reflexivity. cbn [andb]. now apply Qltb_lt. }
  destruct (get_feed_hit rt fuel youtube _ _ _ _ Hhit)
    as (e' & data' & s' & t & Hrun & Hd & Hc & Hcalls & _).
  exists s', t. rewrite Hrun. rewrite Hdata in Hd. injection Hd as <- <-. auto.
Qed.

End Idempotence.

(** C2 (as amended).  After a completed run of the pipeline without a
    playlist filter that returned at least one entry, two requests in a row
    with the same short-form flag, without force-refresh and without a
    playlist filter, each made while the slot is younger than 300 seconds,
    return the stored list and call no collaborator; the slot stays as the
    assembly left it. *)
Theorem feed_cache_idempotent {World : Type} (rt : Runtime World)
    (fuel : nat) (youtube : Resource World) (include_shorts : bool)
    (check_playlist_id : option string) (force_refresh : bool)
    (s s1 : state World) (e : FeedEntry) (out : list FeedEntry) (t1 : list event)
    (fuel2 : nat) (youtube2 : option (Resource World)) (playlist2 : option string)
    (s2 : state World)
    (fuel3 : nat) (youtube3 : option (Resource World)) (playlist3 : option string)
    (s3 : state World) :
  get_feed rt fuel (Some youtube) include_shorts check_playlist_id force_refresh s
  = (Ok (e :: out), s1, t1) ->
  served_from_cache t1 = false ->
  truthy_str check_playlist_id = false ->
  truthy_str playlist2 = false ->
  FEED_CACHE s2 = FEED_CACHE s1 ->
  (lookup_time rt s2 - cache_timestamp (FEED_CACHE s1) < CACHE_DURATION)%Q ->
  truthy_str playlist3 = false ->
  FEED_CACHE s3
  = FEED_CACHE (snd (fst (get_feed rt fuel2 youtube2 include_shorts playlist2 false s2))) ->
  (lookup_time rt s3 - cache_timestamp (FEED_CACHE s1) < CACHE_DURATION)%Q ->
  exists s2' t2 s3' t3,
    get_feed rt fuel2 youtube2 include_shorts playlist2 false s2 = (Ok (e :: out), s2', t2)
    /\ collaborator_calls t2 = []
    /\ get_feed rt fuel3 youtube3 include_shorts playlist3 false s3 = (Ok (e :: out), s3', t3)
    /\ collaborator_calls t3 = []
    /\ FEED_CACHE s3' = FEED_CACHE s1.
Proof.
  intros Hrun Hmiss Hpl Hpl2 Hc2 Hage2 Hpl3 Hc3 Hage3.
  assert (Hstored : exists ts, FEED_CACHE s1 = {| cache_data := Some (e :: out);
                                                  cache_timestamp := ts;
                                                  cache_key := Some (cache_key_of include_shorts) |}).
  { destruct (get_feed_assembled rt _ _ _ _ _ _ _ _ _ Hrun Hmiss)
      as (s0 & t0 & t0' & _ & _ & _ & Hasm).
    apply assemble_feed_run in Hasm as [(Hnil & _)|Hasm]; [discriminate|].
    destruct Hasm as (sub & subs & muted & now & rs & sorted & m & _ & _ & _ & _ & _
                      & _ & _ & _ & _ & Hstore).
    destruct (Hstore Hpl) as (ts & t0'' & _ & Hcache). eauto. }
  destruct Hstored as (ts & Hstored).
  destruct (stored_feed_served rt fuel2 youtube2 include_shorts playlist2 s2 e out)
    as (s2' & t2 & Hrun2 & Hcalls2 & Hcache2).
  { exact Hpl2. }
  { now rewrite Hc2, Hstored. }
  { now rewrite Hc2, Hstored. }
  { now rewrite Hc2. }
  rewrite Hrun2 in Hc3. cbn [fst snd] in Hc3.
  assert (Hc3' : FEED_CACHE s3 = FEED_CACHE s1) by congruence.
  destruct (stored_feed_served rt fuel3 youtube3 include_shorts playlist3 s3 e out)
    as (s3' & t3 & Hrun3 & Hcalls3 & Hcache3).
  { exact Hpl3. }
  { now rewrite Hc3', Hstored. }
  { now rewrite Hc3', Hstored. }
  { now rewrite Hc3'. }
  exists s2', t2, s3', t3. repeat split; try assumption. congruence.
Qed.

Lemma feed_cache_idempotent_witness :
  (Demo.first_run
   = (Ok [Demo.recent_entry], Demo.state_of Demo.first_run, Demo.events_of Demo.first_run)
   /\ served_from_cache (Demo.events_of Demo.first_run) = false
   /\ (lookup_time Demo.rt (Demo.state_of Demo.first_run)
       - cache_timestamp (FEED_CACHE (Demo.state_of Demo.first_run)) < CACHE_DURATION)%Q
   /\ (lookup_time Demo.rt (Demo.state_of Demo.second_lookup)
       - cache_timestamp (FEED_CACHE (Demo.state_of Demo.first_run)) < CACHE_DURATION)%Q)
  /\ exists s2' t2 s3' t3,
       get_feed Demo.rt 5 (Some Demo.youtube) true None false (Demo.state_of Demo.first_run)
       = (Ok [Demo.recent_entry], s2', t2)
       /\ collaborator_calls t2 = []
       /\ get_feed Demo.rt 5 (Some Demo.youtube) true None false
            (Demo.state_of Demo.second_lookup)
          = (Ok [Demo.recent_entry], s3', t3)
       /\ collaborator_calls t3 = []
       /\ FEED_CACHE s3' = FEED_CACHE (Demo.state_of Demo.first_run).
Proof.
  assert (Hrun : Demo.first_run
                 = (Ok [Demo.recent_entry], Demo.state_of Demo.first_run,
                    Demo.events_of Demo.first_run)) by (vm_compute; reflexivity).
  assert (Hmiss : served_from_cache (Demo.events_of Demo.first_run) = false)
    by (vm_compute; reflexivity).
  assert (Hage2 : (lookup_time Demo.rt (Demo.state_of Demo.first_run)
                   - cache_timestamp (FEED_CACHE (Demo.state_of Demo.first_run))
                   < CACHE_DURATION)%Q) by (vm_compute; reflexivity).
  assert (Hage3 : (lookup_time Demo.rt (Demo.state_of Demo.second_lookup)
                   - cache_timestamp (FEED_CACHE (Demo.state_of Demo.first_run))
                   < CACHE_DURATION)%Q) by (vm_compute; reflexivity).
  split; [auto|].
  apply (feed_cache_idempotent Demo.rt 5 Demo.youtube true None false
           (Demo.start FEED_CACHE_init) (Demo.state_of Demo.first_run)
           Demo.recent_entry [] (Demo.events_of Demo.first_run)
           5 (Some Demo.youtube) None (Demo.state_of Demo.first_run)
           5 (Some Demo.youtube) None (Demo.state_of Demo.second_lookup));
    try assumption; try reflexivity.
Defined.

(** C2 as stated fails.  (1) An assembly whose every upload is too old
    completes, without a playlist filter, and stores the empty list; the
    request that follows two seconds later, same flag, nothing forced, is
    not served from the slot and calls the collaborators again.  (2) After
    an assembly that stored one entry, a request with the same flag and
    nothing forced, but with a playlist filter, calls the collaborators
    again as well. *)
Lemma feed_cache_idempotent_counterexample :
  (Demo.stale_run = (Ok [], Demo.state_of Demo.stale_run, Demo.events_of Demo.stale_run)
   /\ FEED_CACHE (Demo.state_of Demo.stale_run)
      = {| cache_data := Some [];
           cache_timestamp := inject_Z (Demo.noon + 2);
           cache_key := Some "shorts:True" |}
   /\ lookup_time Demo.rt (Demo.state_of Demo.stale_run) = inject_Z (Demo.noon + 4)
   /\ served_from_cache (Demo.events_of Demo.stale_lookup) = false
   /\ collaborator_calls (Demo.events_of Demo.stale_lookup) <> [])
  /\ (Demo.first_run
      = (Ok [Demo.recent_entry], Demo.state_of Demo.first_run, Demo.events_of Demo.first_run)
      /\ lookup_time Demo.rt (Demo.state_of Demo.first_run) = inject_Z (Demo.noon + 4)
      /\ cache_timestamp (FEED_CACHE (Demo.state_of Demo.first_run))
         = inject_Z (Demo.noon + 2)
      /\ served_from_cache (Demo.events_of Demo.filtered_lookup) = false
      /\ collaborator_calls (Demo.events_of Demo.filtered_lookup) <> []).
Proof.
  repeat split; try (vm_compute; reflexivity); vm_compute; intros H; discriminate H.
Qed.


(** *** The assembled feed *)


Lemma without_shorts_sublist (include_shorts : bool) (rs : list (response Z))
    (recent : list PlaylistItem) :
  without_shorts include_shorts rs recent `sublist_of` recent.
Proof.
  unfold without_shorts. destruct include_shorts; [reflexivity|apply List_filter_sublist].
Qed.

Lemma passes_filters_elem {World} (rt : Runtime World) (muted : gset string) (now : Z)
    (raw : list PlaylistItem) (v : PlaylistItem) :
  v ∈ passes_filters rt muted now raw
  <-> (v ∈ raw) /\ not_muted muted v = true
      /\ is_recent rt (now - hours_48) (publishedAt v) = true.
Proof.
  unfold passes_filters. rewrite !list_elem_of_In, !filter_In, <- list_elem_of_In.
  tauto.
Qed.

Lemma format_video_sorted (m : gmap string (list PlaylistRef)) (l : list PlaylistItem)
    (out : list FeedEntry) :
  Forall2 (fun v e => format_video m v = Some e) l out ->
  StronglySorted item_not_older l -> StronglySorted entry_not_older out.
Proof.
  intros HF. induction HF as [|v e l out Hve HF IH]; intros Hs; [constructor|].
  apply StronglySorted_inv in Hs as [Hs Hv]. constructor; [now apply IH|].
  apply Forall_forall. intros e' He'. apply list_elem_of_lookup_1 in He' as [i Hi].
  destruct (Forall2_lookup_r _ _ _ _ _ HF Hi) as (v' & Hv' & Hve').
  rewrite Forall_forall in Hv.
  destruct (Hv v' (list_elem_of_lookup_2 _ _ _ Hv')) as (ka & kb & Hka & Hkb & Hle).
  apply format_video_Some in Hve as (_ & _ & _ & _ & Hp & _).
  apply format_video_Some in Hve' as (_ & _ & _ & _ & Hp' & _).
  unfold entry_not_older. congruence.
Qed.

Lemma format_video_filter (m : gmap string (list PlaylistRef)) (k : string)
    (l : list PlaylistItem) (out : list FeedEntry) :
  Forall2 (fun v e => format_video m v = Some e) l out ->
  Forall2 (fun v e => format_video m v = Some e)
    (filter (fun v => publishedAt v = Some k) l)
    (filter (fun e => published_at e = k) out).
Proof.
  induction 1 as [|v e l out Hve HF IH]; [constructor|].
  rewrite !filter_cons.
  pose proof (format_video_Some _ _ _ Hve) as (_ & _ & _ & _ & Hp & _).
  destruct (decide (published_at e = k)) as [Hk|Hk].
  - rewrite decide_True by congruence. now constructor.
  - rewrite decide_False by congruence. exact IH.
Qed.

Lemma format_video_functional (m : gmap string (list PlaylistRef)) (l : list PlaylistItem) :
  forall out1 out2,
    Forall2 (fun v e => format_video m v = Some e) l out1 ->
    Forall2 (fun v e => format_video m v = Some e) l out2 ->
    out1 = out2.
Proof.
  intros out1 out2 H1 H2. apply mapM_Some in H1, H2. congruence.
Qed.

(** The feed made of the items [kept]: the entries of [kept], sorted. *)
Lemma formatted_feed (m : gmap string (list PlaylistRef))
    (kept sorted : list PlaylistItem) (out : list FeedEntry) :
  sort_by_publishedAt kept = Some sorted ->
  mapM (format_video m) sorted = Some out ->
  exists entries,
    mapM (format_video m) kept = Some entries
    /\ out = sort_newest_first published_at entries
    /\ StronglySorted entry_not_older out
    /\ (forall k, filter (fun e => published_at e = k) out
                  = filter (fun e => published_at e = k) entries)
    /\ forall e, e ∈ out <-> exists v, v ∈ kept /\ format_video m v = Some e.
Proof.
  intros Hsort Hfmt.
  destruct (sort_by_publishedAt_Some _ _ Hsort) as (Hperm & Hss & Hstable).
  pose proof (format_video_entries _ _ _ Hfmt) as HF.
  assert (Hall : is_Some (mapM (format_video m) kept)).
  { apply mapM_is_Some, Forall_forall. intros v Hv. rewrite <- Hperm in Hv.
    pose proof (mapM_is_Some_Forall _ _ _ Hfmt) as Hs. rewrite Forall_forall in Hs.
    exact (Hs v Hv). }
  destruct Hall as [entries Hentries]. exists entries.
  pose proof (format_video_entries _ _ _ Hentries) as HE.
  assert (Hsorted : StronglySorted entry_not_older out)
    by exact (format_video_sorted m sorted out HF Hss).
  assert (Hkeys : forall k, filter (fun e => published_at e = k) out
                            = filter (fun e => published_at e = k) entries).
  { intros k. eapply format_video_functional.
    - apply format_video_filter. exact HF.
    - rewrite Hstable. apply format_video_filter. exact HE. }
  split; [exact Hentries|]. split; [|split; [exact Hsorted|split; [exact Hkeys|]]].
  - apply stable_descending_unique; [|exact Hkeys].
    apply StronglySorted_Sorted. exact Hsorted.
  - intros e. split.
    + intros He. apply list_elem_of_lookup_1 in He as [i Hi].
      destruct (Forall2_lookup_r _ _ _ _ _ HF Hi) as (v & Hv & Hve).
      exists v. split; [|exact Hve]. rewrite <- Hperm.
      exact (list_elem_of_lookup_2 _ _ _ Hv).
    + intros (v & Hv & Hve). rewrite <- Hperm in Hv.
      apply list_elem_of_lookup_1 in Hv as [i Hi].
      destruct (Forall2_lookup_l _ _ _ _ _ HF Hi) as (e' & He' & Hve').
      assert (e' = e) by congruence. subst e'.
      exact (list_elem_of_lookup_2 _ _ _ He').
Qed.

Lemma fetched_after_lookup (t1 t2 : list event) :
  only clock_or_log t1 -> fetched (t1 ++ t2) = fetched t2.
Proof.
  intros Ho. now rewrite fetched_app, (only_fetched_nil clock_or_log t1).
Qed.

Lemma mute_reads_after_lookup (t1 t2 : list event) :
  only clock_or_log t1 -> mute_reads (t1 ++ t2) = mute_reads t2.
Proof.
  intros Ho. now rewrite mute_reads_app, (only_mute_reads_nil clock_or_log t1).
Qed.




(** C5.  In an assembly, the cutoff is the clock reading [now] taken for the
    date filter minus 48 hours.  Every returned entry has a [publishedAt]
    that, normalized, parses to an aware datetime not before the cutoff,
    hence not before 48 hours before any instant up to [now], the start of
    the assembly among them.  No fetched item whose [publishedAt] fails the
    test (it does not parse, parses to a naive datetime, or is before the
    cutoff) has its entry in the returned list. *)
Theorem feed_recency {World : Type} (rt : Runtime World) (fuel : nat)
    (youtube : Resource World) (include_shorts : bool)
    (check_playlist_id : option string) (force_refresh : bool)
    (s s' : state World) (out : list FeedEntry) (t : list event) :
  get_feed rt fuel (Some youtube) include_shorts check_playlist_id force_refresh s
  = (Ok out, s', t) ->
  served_from_cache t = false ->
  out = []
  \/ exists now,
       Read_now now ∈ t
       /\ (forall e,
             e ∈ out ->
             exists us,
               fromisoformat rt (normalize_utc (published_at e)) = Some (Aware us)
               /\ now - hours_48 <= us
               /\ forall start, start <= now -> start - hours_48 <= us)
       /\ (forall v m e,
             v ∈ fetched t ->
             is_recent rt (now - hours_48) (publishedAt v) = false ->
             format_video m v = Some e ->
             e ∉ out).
Proof.
  intros Hrun Hmiss.
  destruct (get_feed_assembled rt _ _ _ _ _ _ _ _ _ Hrun Hmiss)
    as (s1 & t1 & t2 & _ & Ho1 & -> & Hasm).
  rewrite (fetched_after_lookup _ _ Ho1).
  apply assemble_feed_run in Hasm as [(-> & _)|Hasm]; [now left|]. right.
  destruct Hasm as (sub & subs & muted & now & rs & sorted & m & _ & _ & Hnow & _ & _
                    & Hsort & Hfmt & _).
  destruct (formatted_feed _ _ _ _ Hsort Hfmt) as (entries & _ & _ & _ & _ & Hout).
  assert (Hkept : forall e, e ∈ out ->
                            is_recent rt (now - hours_48) (Some (published_at e)) = true).
  { intros e He. apply Hout in He as (v & Hv & Hve).
    apply (sublist_subseteq _ _ (without_shorts_sublist _ _ _)) in Hv.
    apply passes_filters_elem in Hv as (_ & _ & Hv).
    apply format_video_Some in Hve as (_ & _ & _ & _ & Hp & _). now rewrite <- Hp. }
  exists now. split; [apply elem_of_app; now right|]. split.
  - intros e He. specialize (Hkept e He). unfold is_recent in Hkept.
    destruct (fromisoformat rt (normalize_utc (published_at e))) as [[us|us]|];
      try discriminate.
    exists us. apply Z.leb_le in Hkept. split; [reflexivity|]. split; [exact Hkept|].
    intros start Hstart. lia.
  - intros v m' e Hv Hold Hve He. specialize (Hkept e He).
    apply format_video_Some in Hve as (_ & _ & _ & _ & Hp & _). congruence.
Qed.

Lemma feed_recency_witness :
  (Demo.first_run
   = (Ok [Demo.recent_entry], Demo.state_of Demo.first_run, Demo.events_of Demo.first_run)
   /\ served_from_cache (Demo.events_of Demo.first_run) = false)
  /\ ([Demo.recent_entry] = []
      \/ exists now,
           Read_now now ∈ Demo.events_of Demo.first_run
           /\ (forall e,
                 e ∈ [Demo.recent_entry] ->
                 exists us,
                   fromisoformat Demo.rt (normalize_utc (published_at e)) = Some (Aware us)
                   /\ now - hours_48 <= us
                   /\ forall start, start <= now -> start - hours_48 <= us)
           /\ (forall v m e,
                 v ∈ fetched (Demo.events_of Demo.first_run) ->
                 is_recent Demo.rt (now - hours_48) (publishedAt v) = false ->
                 format_video m v = Some e ->
                 e ∉ [Demo.recent_entry])).
Proof.
  assert (Hrun : Demo.first_run
                 = (Ok [Demo.recent_entry], Demo.state_of Demo.first_run,
                    Demo.events_of Demo.first_run)) by (vm_compute; reflexivity).
  assert (Hmiss : served_from_cache (Demo.events_of Demo.first_run) = false)
    by (vm_compute; reflexivity).
  split; [auto|].
  exact (feed_recency Demo.rt 5 Demo.youtube true None false (Demo.start FEED_CACHE_init)
           (Demo.state_of Demo.first_run) [Demo.recent_entry]
           (Demo.events_of Demo.first_run) Hrun Hmiss).
Defined.




Lemma index_facts_after_lookup (m : gmap string (list PlaylistRef)) (t1 t2 : list event) :
  only clock_or_log t1 -> index_facts m t2 -> index_facts m (t1 ++ t2).
Proof.
  intros Ho. apply index_facts_transport.
  - now rewrite member_calls_app, (only_member_calls_nil clock_or_log t1).
  - now rewrite listing_calls_app, (only_listing_calls_nil clock_or_log t1).
Qed.

(** C7 (as amended).  An assembly that returns entries has read the listing
    of the playlists from its first page, following the tokens, up to a
    page without a token or a failed request, and has enumerated every
    listed playlist, in order, from its first page, following the tokens,
    up to a page without a token, a failed request or the tenth page.  For
    every returned entry: its [saved_to] list names no playlist id twice;
    and for every membership page that came back and holds the entry's
    video id, the entry has [saved = true] and its [saved_to] holds a
    reference with the id of the playlist that was asked for and the title
    under which a listing page of the run gave that playlist.  The record
    of the run is what the collaborators answered.  The loop over the
    playlists always returns, whatever its requests do, and keeps every
    video and every reference the index already held. *)
Theorem saved_status {World : Type} (rt : Runtime World) (fuel : nat)
    (youtube : Resource World) (include_shorts : bool)
    (check_playlist_id : option string) (force_refresh : bool)
    (s s' : state World) (out : list FeedEntry) (t : list event) :
  get_feed rt fuel (Some youtube) include_shorts check_playlist_id force_refresh s
  = (Ok out, s', t) ->
  served_from_cache t = false ->
  genuine rt (Some youtube) (world s) t (world s')
  /\ (out = []
      \/ (listing_pages None (listing_calls t)
          /\ exists chains,
               member_calls t = concat chains
               /\ Forall2 (fun pl chain => member_pages 10 (pl_id pl) None chain)
                    (listed t) chains))
  /\ (forall e,
        e ∈ out ->
        (exists refs, saved_to e = Some refs /\ NoDup (map ref_id refs))
        /\ forall pid token page,
             Call_playlistItems_ids pid token (Returns page) ∈ t ->
             video_id e ∈ page_videoIds page ->
             saved e = Some true
             /\ exists refs ref token' listing pl,
                  saved_to e = Some refs
                  /\ ref ∈ refs
                  /\ ref_id ref = pid
                  /\ Call_playlists_list token' (Returns listing) ∈ t
                  /\ pl ∈ page_playlists listing
                  /\ ref = ref_to pl)
  /\ (forall (youtube' : Resource World) playlists m0 s0,
        exists m' s0' t0,
          index_playlists (Some youtube') playlists m0 s0 = (Ok m', s0', t0)
          /\ index_grows m0 m').
Proof.
  intros Hrun Hmiss.
  split; [exact (get_feed_faithful rt _ _ _ _ _ _ _ _ _ Hrun)|].
  assert (Hloop : forall (youtube' : Resource World) playlists m0 s0,
             exists m' s0' t0,
               index_playlists (Some youtube') playlists m0 s0 = (Ok m', s0', t0)
               /\ index_grows m0 m').
  { intros youtube' playlists m0 s0.
    destruct (index_playlists_run youtube' playlists m0 s0)
      as (m' & s0' & t0 & Hrun' & Hgrow & _).
    eauto. }
  destruct (get_feed_assembled rt _ _ _ _ _ _ _ _ _ Hrun Hmiss)
    as (s1 & t1 & t2 & _ & Ho1 & -> & Hasm).
  apply assemble_feed_run in Hasm as [(-> & _)|Hasm].
  { split; [now left|]. split; [|exact Hloop].
    intros e He. now apply elem_of_nil in He. }
  destruct Hasm as (sub & subs & muted & now & rs & sorted & m & _ & _ & _ & _ & _
                    & Hsort & Hfmt & Hfacts & _).
  apply (index_facts_after_lookup m t1 t2 Ho1) in Hfacts.
  destruct Hfacts as (Hdist & _ & Hcover & Horigin & _ & Hpages & Hchains & _).
  destruct (formatted_feed _ _ _ _ Hsort Hfmt) as (entries & _ & _ & _ & _ & Hout).
  split; [right; split; [exact Hpages|exact Hchains]|]. split; [|exact Hloop].
  intros e He. apply Hout in He as (v & _ & Hve).
  apply format_video_Some in Hve as (_ & _ & _ & _ & _ & _ & Hsaved & Hto).
  fold (refs_of m (video_id e)) in Hto. split.
  - exists (refs_of m (video_id e)). split; [exact Hto|apply Hdist].
  - intros pid token page Hev Hvid.
    destruct (Hcover pid token page (video_id e) Hev Hvid) as (Hsome & ref & Href & Hid).
    split; [now rewrite Hsaved, bool_decide_eq_true_2|].
    destruct (Horigin _ _ Href) as (token' & listing & pl & Hev' & Hpl & Heq).
    exists (refs_of m (video_id e)), ref, token', listing, pl. auto 10.
Qed.

(** The first request of the reference instance: one playlist is listed, it
    is enumerated over its one page, which holds [vid1], and the entry of
    [vid1] is annotated with it. *)
Lemma saved_status_witness :
  (Demo.first_run
   = (Ok [Demo.recent_entry], Demo.state_of Demo.first_run, Demo.events_of Demo.first_run)
   /\ served_from_cache (Demo.events_of Demo.first_run) = false
   /\ listed (Demo.events_of Demo.first_run) = [Demo.saved_playlist]
   /\ member_calls (Demo.events_of Demo.first_run)
      = [("PL1", None, Returns {| page_videoIds := ["vid1"];
                                  items_nextPageToken := None |})]
   /\ saved Demo.recent_entry = Some true)
  /\ genuine Demo.rt (Some Demo.youtube) (world (Demo.start FEED_CACHE_init))
       (Demo.events_of Demo.first_run) (world (Demo.state_of Demo.first_run))
  /\ ([Demo.recent_entry] = []
      \/ (listing_pages None (listing_calls (Demo.events_of Demo.first_run))
          /\ exists chains,
               member_calls (Demo.events_of Demo.first_run) = concat chains
               /\ Forall2 (fun pl chain => member_pages 10 (pl_id pl) None chain)
                    (listed (Demo.events_of Demo.first_run)) chains))
  /\ (forall e,
        e ∈ [Demo.recent_entry] ->
        (exists refs, saved_to e = Some refs /\ NoDup (map ref_id refs))
        /\ forall pid token page,
             Call_playlistItems_ids pid token (Returns page) ∈ Demo.events_of Demo.first_run ->
             video_id e ∈ page_videoIds page ->
             saved e = Some true
             /\ exists refs ref token' listing pl,
                  saved_to e = Some refs
                  /\ ref ∈ refs
                  /\ ref_id ref = pid
                  /\ Call_playlists_list token' (Returns listing)
                     ∈ Demo.events_of Demo.first_run
                  /\ pl ∈ page_playlists listing
                  /\ ref = ref_to pl)
  /\ (forall (youtube' : Resource Z) playlists m0 s0,
        exists m' s0' t0,
          index_playlists (Some youtube') playlists m0 s0 = (Ok m', s0', t0)
          /\ index_grows m0 m').
Proof.
  assert (Hrun : Demo.first_run
                 = (Ok [Demo.recent_entry], Demo.state_of Demo.first_run,
                    Demo.events_of Demo.first_run)) by (vm_compute; reflexivity).
  assert (Hmiss : served_from_cache (Demo.events_of Demo.first_run) = false)
    by (vm_compute; reflexivity).
  split.
  { split; [exact Hrun|]. split; [exact Hmiss|].
    split; [vm_compute; reflexivity|]. split; [vm_compute; reflexivity|reflexivity]. }
  exact (saved_status Demo.rt 5 Demo.youtube true None false (Demo.start FEED_CACHE_init)
           (Demo.state_of Demo.first_run) [Demo.recent_entry]
           (Demo.events_of Demo.first_run) Hrun Hmiss).
Defined.

(** C7 as stated fails: the playlist PL1 is listed and holds [vid1], on its
    eleventh page; the enumeration stops after ten pages, and the assembly
    returns [vid1] with [saved = false] and an empty [saved_to]. *)
Lemma saved_status_counterexample :
  In "vid1" (Demo.members_of Demo.members_long "PL1" 11 None)
  /\ Demo.one_page [Demo.saved_playlist] None
     = Returns {| page_playlists := [Demo.saved_playlist];
                  playlists_nextPageToken := None |}
  /\ pl_id Demo.saved_playlist = "PL1"
  /\ fst (fst Demo.long_run)
     = Ok [ {| video_id := "vid1"; fe_title := "Video vid1";
               channel_title := "Channel 1"; thumbnail_url := "http://thumb";
               published_at := "2023-10-27T11:00:00Z"; channel_id := "UC123";
               saved := Some false; saved_to := Some [] |} ].
Proof.
  split; [vm_compute; tauto|]. split; [reflexivity|]. split; [reflexivity|].
  vm_compute. reflexivity.
Qed.

(** *** The service on the reference instance *)

(** tests/test_services.py, [test_get_feed_date_filter]: one subscribed
    channel whose two uploads are an hour and fifty hours old; a forced
    request returns the recent one only. *)
Example test_get_feed_date_filter :
  fst (fst (get_feed Demo.rt 5 (Some Demo.youtube) true None true
              (Demo.start FEED_CACHE_init)))
  = Ok [Demo.recent_entry].
Proof. vm_compute. reflexivity. Qed.

(** Without a client the mock feed is returned and nothing is stored. *)
Example get_feed_mock_mode :
  get_feed Demo.rt 0 None true None false (Demo.start FEED_CACHE_init)
  = (Ok get_mock_feed,
     {| FEED_CACHE := FEED_CACHE_init; world := Demo.noon + 1 |},
     [Read_time (inject_Z Demo.noon)]).
Proof. vm_compute. reflexivity. Qed.

Example normalize_utc_Z :
  normalize_utc "2023-10-25T10:00:00Z" = "2023-10-25T10:00:00+00:00".
Proof. reflexivity. Qed.

Example normalize_utc_offset :
  normalize_utc "2023-10-25T12:00:00+02:00" = "2023-10-25T12:00:00+02:00".
Proof. reflexivity. Qed.

(** Items of equal [publishedAt] keep their order under the sort. *)
Example sort_by_publishedAt_ties :
  sort_by_publishedAt
    [ Demo.video "a" "2023-10-25T10:00:00Z" "UC1";
      Demo.video "b" "2023-10-27T11:00:00Z" "UC1";
      Demo.video "c" "2023-10-25T10:00:00Z" "UC2";
      Demo.video "d" "2023-10-26T09:30:00Z" "UC2" ]
  = Some [ Demo.video "b" "2023-10-27T11:00:00Z" "UC1";
           Demo.video "d" "2023-10-26T09:30:00Z" "UC2";
           Demo.video "a" "2023-10-25T10:00:00Z" "UC1";
           Demo.video "c" "2023-10-25T10:00:00Z" "UC2" ].
Proof. vm_compute. reflexivity. Qed.

(** An item without [publishedAt] cannot be sorted: the key function of
    line 391 raises [KeyError]. *)
Example sort_by_publishedAt_KeyError :
  sort_by_publishedAt
    [ Demo.video "a" "2023-10-25T10:00:00Z" "UC1";
      {| item_id := Some "item-b"; videoId := Some "b"; title := Some "Video b";
         channelTitle := Some "Channel 1"; thumbnail_high_url := Some "http://thumb";
         publishedAt := None; channelId := Some "UC1" |} ]
  = None.
Proof. reflexivity. Qed.

(** The classifier on a short, a long-form video and a failing probe. *)
Example check_is_short_parallel_demo :
  fst (fst (check_is_short_parallel Demo.rt_probe ["short1"; "vid1"; "gone"]
              (Demo.start FEED_CACHE_init)))
  = Ok {[ "short1" ]}.
Proof. vm_compute. reflexivity. Qed.

(** ** Further properties of the service *)

(** *** What a failed run leaves *)

Section Failures.

Context {World : Type} (rt : Runtime World).

Lemma bind_inv {A B} (m : M World A) (k : A -> M World B) s r s' t :
  bind m k s = (r, s', t) ->
  (exists a s1 t1 t2, m s = (Ok a, s1, t1) /\ k a s1 = (r, s', t2) /\ t = t1 ++ t2)
  \/ (exists e, m s = (Raise e, s', t) /\ r = Raise e)
  \/ (m s = (OutOfFuel, s', t) /\ r = OutOfFuel).
Proof.
  unfold bind. destruct (m s) as [[[a|e|] s1] t1].
  - destruct (k a s1) as [[r2 s2] t2] eqn:Ek. intros H. injection H as <- <- <-.
    left. eauto 10.
  - intros H. injection H as <- <- <-. right. left. eauto.
  - intros H. injection H as <- <- <-. right. right. auto.
Qed.

Lemma always_returns_ret {A} (a : A) : always_returns (ret (World:=World) a).
Proof. intros s r s' t H. injection H as <- _ _. eauto. Qed.

Lemma always_returns_bind {A B} (m : M World A) (k : A -> M World B) :
  always_returns m -> (forall a, always_returns (k a)) -> always_returns (bind m k).
Proof.
  intros Hm Hk s r s' t H.
  apply bind_inv in H as [(a & s1 & t1 & t2 & H1 & H2 & _)|[(e & H1 & _)|[H1 _]]].
  - exact (Hk a _ _ _ _ H2).
  - destruct (Hm _ _ _ _ H1) as (a & Ha). discriminate.
  - destruct (Hm _ _ _ _ H1) as (a & Ha). discriminate.
Qed.

Lemma failure_keeps_cache_of_always {A} (m : M World A) :
  always_returns m -> failure_keeps_cache m.
Proof.
  intros Hm s r s' t H Hr. destruct (Hm _ _ _ _ H) as (a & ->).
  exfalso. exact (Hr a eq_refl).
Qed.

Lemma failure_keeps_cache_bind {A B} allowed (m : M World A) (k : A -> M World B) :
  quiet allowed m -> (forall a, failure_keeps_cache (k a)) ->
  failure_keeps_cache (bind m k).
Proof.
  intros Hm Hk s r s' t H Hr.
  apply bind_inv in H as [(a & s1 & t1 & t2 & H1 & H2 & _)|[(e & H1 & _)|[H1 _]]].
  - destruct (Hm _ _ _ _ H1) as [Hc _]. rewrite <- Hc. exact (Hk a _ _ _ _ H2 Hr).
  - exact (proj1 (Hm _ _ _ _ H1)).
  - exact (proj1 (Hm _ _ _ _ H1)).
Qed.

Lemma update_cache_always_returns (key : string) (check_playlist_id : option string)
    (formatted_videos : list FeedEntry) :
  always_returns (update_cache rt key check_playlist_id formatted_videos).
Proof.
  intros s r s' t. rewrite update_cache_run.
  destruct (truthy_str check_playlist_id); [|destruct (time_time rt (world s))];
    intros H; injection H as <- _ _; eauto.
Qed.

(** A run of the pipeline that does not return leaves the slot as it was:
    the slot is written last. *)
Lemma assemble_feed_failure_keeps_cache (fuel : nat) (youtube : Resource World)
    (include_shorts : bool) (check_playlist_id : option string) (key : string) :
  failure_keeps_cache
    (assemble_feed rt fuel youtube include_shorts check_playlist_id key).
Proof.
  unfold assemble_feed.
  apply (failure_keeps_cache_bind not_cache_hit); [unfold get_subscriptions; quiet_step|].
  intros [|sub subs]; [apply failure_keeps_cache_of_always, always_returns_ret|].
  apply (failure_keeps_cache_bind not_cache_hit); [quiet_step|].
  intros channel_ids. apply (failure_keeps_cache_bind not_cache_hit).
  { unfold get_uploads_playlist_ids. repeat quiet_step. }
  intros upl. apply (failure_keeps_cache_bind uploads_or_log).
  { apply get_recent_videos_loop_quiet. }
  intros raw. apply (failure_keeps_cache_bind not_cache_hit); [quiet_step|].
  intros muted. apply (failure_keeps_cache_bind not_cache_hit); [quiet_step|].
  intros unmuted. apply (failure_keeps_cache_bind not_cache_hit); [quiet_step|].
  intros now. apply (failure_keeps_cache_bind log_only); [apply filter_by_date_quiet|].
  intros recent. apply (failure_keeps_cache_bind probe_only).
  { destruct (negb include_shorts); [|quiet_step].
    apply quiet_bind; [quiet_step|]. intros video_ids.
    apply quiet_bind; [apply check_is_short_parallel_quiet|intros; quiet_step]. }
  intros kept. apply (failure_keeps_cache_bind not_cache_hit); [quiet_step|].
  intros sorted. apply (failure_keeps_cache_bind collections_or_log).
  { apply build_saved_video_map_quiet. }
  intros m. apply (failure_keeps_cache_bind not_cache_hit); [quiet_step|].
  intros formatted. apply failure_keeps_cache_of_always.
  apply always_returns_bind; [apply update_cache_always_returns|].
  intros. apply always_returns_ret.
Qed.

Lemma get_feed_failure_keeps_cache (fuel : nat) (youtube : option (Resource World))
    (include_shorts : bool) (check_playlist_id : option string) (force_refresh : bool) :
  failure_keeps_cache
    (get_feed rt fuel youtube include_shorts check_playlist_id force_refresh).
Proof.
  intros s r s' t Hrun Hr.
  destruct (cache_hit rt (cache_key_of include_shorts) check_playlist_id force_refresh s)
    eqn:Ehit.
  - destruct (get_feed_hit rt fuel youtube _ _ _ _ Ehit) as (e & data & s2 & t2 & Hrun2 & _).
    rewrite Hrun2 in Hrun. injection Hrun as <- _ _. exfalso. exact (Hr _ eq_refl).
  - destruct (get_feed_miss rt fuel youtube _ _ _ _ _ _ _ Ehit Hrun)
      as (s1 & t1 & t2 & Hc1 & _ & _ & _ & _ & Hk).
    destruct youtube as [yt|].
    + rewrite <- Hc1. exact (assemble_feed_failure_keeps_cache _ _ _ _ _ _ _ _ _ Hk Hr).
    + destruct Hk as (-> & _). exfalso. exact (Hr _ eq_refl).
Qed.

End Failures.

(** *** The record of a call *)



(** A response with a key missing makes the call raise [KeyError]: a
    subscription without channel id (line 342), an upload without
    thumbnail (line 432); the slot is left as it was.  An upload without
    [publishedAt] is dropped by the date filter, whose [try] catches the
    [KeyError] of line 363. *)
Example get_feed_KeyError_channelId :
  get_feed Demo.rt 5 (Some DemoKeys.youtube_no_channel) true None true
    (Demo.start Demo.warm_cache)
  = (Raise KeyError,
     {| FEED_CACHE := Demo.warm_cache; world := Demo.noon + 1 |},
     [Read_time (inject_Z Demo.noon);
      Call_subscriptions_list (Returns [ {| sub_channelId := None |} ])]).
Proof. vm_compute. reflexivity. Qed.

Example get_feed_KeyError_thumbnail :
  fst (get_feed Demo.rt 5 (Some DemoKeys.youtube_no_thumbnail) true None true
         (Demo.start Demo.warm_cache))
  = (Raise KeyError, {| FEED_CACHE := Demo.warm_cache; world := Demo.noon + 2 |}).
Proof. vm_compute. reflexivity. Qed.

Example get_feed_KeyError_publishedAt :
  fst (fst (get_feed Demo.rt 5 (Some DemoKeys.youtube_no_date) true None true
              (Demo.start Demo.warm_cache)))
  = Ok [Demo.recent_entry]
  /\ Log Warning (Error_parsing_date (Some "item-vid4") KeyError)
     ∈ snd (get_feed Demo.rt 5 (Some DemoKeys.youtube_no_date) true None true
              (Demo.start Demo.warm_cache)).
Proof.
  split; [vm_compute; reflexivity|].
  vm_compute. do 6 apply list_elem_of_further. apply list_elem_of_here.
Qed.

(** X2.  Without a client, [get_feed] calls no collaborator and never
    writes the slot; it returns the mock feed, unless the slot passes the
    cache check, in which case the stored list is returned instead. *)
Theorem mock_mode_inert {World : Type} (rt : Runtime World) (fuel : nat)
    (include_shorts : bool) (check_playlist_id : option string) (force_refresh : bool)
    (s s' : state World) (r : result (list FeedEntry)) (t : list event) :
  get_feed rt fuel None include_shorts check_playlist_id force_refresh s = (r, s', t) ->
  collaborator_calls t = []
  /\ FEED_CACHE s' = FEED_CACHE s
  /\ (r = Ok get_mock_feed
      \/ exists e data, cache_data (FEED_CACHE s) = Some (e :: data) /\ r = Ok (e :: data)).
Proof.
  intros Hrun.
  destruct (cache_hit rt (cache_key_of include_shorts) check_playlist_id force_refresh s)
    eqn:Ehit.
  - destruct (get_feed_hit rt fuel None _ _ _ _ Ehit)
      as (e & data & s2 & t2 & Hrun2 & Hdata & Hc & Hcalls & _).
    rewrite Hrun2 in Hrun. injection Hrun as <- <- <-. eauto 10.
  - destruct (get_feed_miss rt fuel None _ _ _ _ _ _ _ Ehit Hrun)
      as (s1 & t1 & t2 & Hc1 & _ & Hcalls & -> & _ & (-> & -> & ->)).
    rewrite app_nil_r. auto.
Qed.

Lemma mock_mode_inert_witness :
  Demo.mock_run
  = (Ok [Demo.recent_entry], Demo.state_of Demo.mock_run, Demo.events_of Demo.mock_run)
  /\ collaborator_calls (Demo.events_of Demo.mock_run) = []
  /\ FEED_CACHE (Demo.state_of Demo.mock_run) = FEED_CACHE (Demo.start Demo.warm_cache)
  /\ (Ok [Demo.recent_entry] = Ok get_mock_feed
      \/ exists e data,
           cache_data (FEED_CACHE (Demo.start Demo.warm_cache)) = Some (e :: data)
           /\ Ok [Demo.recent_entry] = Ok (e :: data)).
Proof.
  assert (Hrun : Demo.mock_run
                 = (Ok [Demo.recent_entry], Demo.state_of Demo.mock_run,
                    Demo.events_of Demo.mock_run)) by (vm_compute; reflexivity).
  split; [exact Hrun|].
  exact (mock_mode_inert Demo.rt 5 true None false (Demo.start Demo.warm_cache)
           (Demo.state_of Demo.mock_run) (Ok [Demo.recent_entry])
           (Demo.events_of Demo.mock_run) Hrun).
Defined.

(** *** What the parameters do *)

(** X3.  [check_playlist_id] is used for its truth value only: two calls
    that differ in the playlist id alone, both with or both without one,
    behave identically.  The id never selects or removes an item; it only
    switches the cache check and the cache update off.  In particular the
    empty string is no filter. *)
Theorem playlist_id_only_gates_cache {World : Type} (rt : Runtime World) (fuel : nat)
    (youtube : option (Resource World)) (include_shorts : bool)
    (playlist1 playlist2 : option string) (force_refresh : bool) (s : state World) :
  truthy_str playlist1 = truthy_str playlist2 ->
  get_feed rt fuel youtube include_shorts playlist1 force_refresh s
  = get_feed rt fuel youtube include_shorts playlist2 force_refresh s.
Proof.
  intros H. unfold get_feed, feed_cache_lookup, assemble_feed, update_cache.
  rewrite H. reflexivity.
Qed.

Lemma playlist_id_only_gates_cache_witness :
  truthy_str (Some "PL1") = truthy_str (Some "PL2")
  /\ get_feed Demo.rt 5 (Some Demo.youtube) true (Some "PL1") false
       (Demo.start Demo.warm_cache)
     = get_feed Demo.rt 5 (Some Demo.youtube) true (Some "PL2") false
         (Demo.start Demo.warm_cache).
Proof.
  split; [reflexivity|].
  apply (playlist_id_only_gates_cache Demo.rt 5 (Some Demo.youtube) true
           (Some "PL1") (Some "PL2") false (Demo.start Demo.warm_cache)).
  reflexivity.
Defined.


Section Probes.

Context {World : Type} (rt : Runtime World).

Lemma head_calls_of_no_call (t : list event) :
  collaborator_calls t = [] -> head_calls t = [].
Proof.
  unfold collaborator_calls, head_calls.
  induction t as [|ev t IH]; simpl; [reflexivity|].
  destruct ev; simpl; try discriminate; exact IH.
Qed.

Lemma assemble_feed_no_probe (fuel : nat) (youtube : Resource World)
    (check_playlist_id : option string) (key : string) :
  emits no_probe (assemble_feed rt fuel youtube true check_playlist_id key).
Proof.
  unfold assemble_feed.
  apply emits_bind; [apply emits_of_quiet; unfold get_subscriptions; quiet_step|].
  intros [|sub subs]; [apply emits_ret|].
  apply emits_bind; [apply emits_of_quiet; quiet_step|].
  intros channel_ids. apply emits_bind.
  { apply emits_of_quiet. unfold get_uploads_playlist_ids. repeat quiet_step. }
  intros upload_playlist_ids. apply emits_bind.
  { apply emits_of_quiet. eapply quiet_weaken; [|apply get_recent_videos_loop_quiet].
    now intros []. }
  intros raw. apply emits_bind; [apply emits_of_quiet; quiet_step|].
  intros muted. apply emits_bind; [apply emits_of_quiet; quiet_step|].
  intros unmuted. apply emits_bind; [apply emits_of_quiet; quiet_step|].
  intros now. apply emits_bind.
  { apply emits_of_quiet. eapply quiet_weaken; [|apply filter_by_date_quiet].
    now intros []. }
  intros recent. cbn [negb]. apply emits_bind; [apply emits_ret|].
  intros kept. apply emits_bind; [apply emits_of_quiet; quiet_step|].
  intros sorted. apply emits_bind.
  { apply emits_of_quiet. eapply quiet_weaken; [|apply build_saved_video_map_quiet].
    now intros []. }
  intros m. apply emits_bind; [apply emits_of_quiet; quiet_step|].
  intros formatted. apply emits_bind; [|intros; apply emits_ret].
  eapply emits_weaken; [|apply update_cache_emits]. now intros [].
Qed.

End Probes.

(** X4.  When short-form items are allowed ([include_shorts] is true), a
    call of [get_feed] makes no probe at all, whatever its outcome. *)
Theorem no_probe_when_shorts_included {World : Type} (rt : Runtime World) (fuel : nat)
    (youtube : option (Resource World)) (check_playlist_id : option string)
    (force_refresh : bool) (s s' : state World) (r : result (list FeedEntry))
    (t : list event) :
  get_feed rt fuel youtube true check_playlist_id force_refresh s = (r, s', t) ->
  head_calls t = [].
Proof.
  intros Hrun.
  destruct (cache_hit rt (cache_key_of true) check_playlist_id force_refresh s) eqn:Ehit.
  - destruct (get_feed_hit rt fuel youtube _ _ _ _ Ehit)
      as (e & data & s2 & t2 & Hrun2 & _ & _ & Hcalls & _).
    rewrite Hrun2 in Hrun. injection Hrun as _ _ <-.
    now apply head_calls_of_no_call.
  - destruct (get_feed_miss rt fuel youtube _ _ _ _ _ _ _ Ehit Hrun)
      as (s1 & t1 & t2 & _ & Ho1 & _ & -> & _ & Hk).
    rewrite head_calls_app, (only_head_calls_nil clock_or_log t1) by (reflexivity || assumption).
    destruct youtube as [yt|].
    + apply (only_head_calls_nil no_probe); [reflexivity|].
      eapply assemble_feed_no_probe. exact Hk.
    + destruct Hk as (_ & _ & ->). reflexivity.
Qed.

Lemma no_probe_when_shorts_included_witness :
  Demo.first_run
  = (Ok [Demo.recent_entry], Demo.state_of Demo.first_run, Demo.events_of Demo.first_run)
  /\ head_calls (Demo.events_of Demo.first_run) = [].
Proof.
  assert (Hrun : Demo.first_run
                 = (Ok [Demo.recent_entry], Demo.state_of Demo.first_run,
                    Demo.events_of Demo.first_run)) by (vm_compute; reflexivity).
  split; [exact Hrun|].
  exact (no_probe_when_shorts_included Demo.rt 5 (Some Demo.youtube) None false
           (Demo.start FEED_CACHE_init) (Demo.state_of Demo.first_run)
           (Ok [Demo.recent_entry]) (Demo.events_of Demo.first_run) Hrun).
Defined.


(** *** The collection requests *)

(** *** The feed of a run, item by item *)

Lemma shorts_url_inj (a b : string) : shorts_url a = shorts_url b -> a = b.
Proof.
  unfold shorts_url. intros H.
  repeat (match type of H with (String _ _ ++ _)%string = _ => cbn [String.append] in H end;
          injection H as H).
  exact H.
Qed.

(** The probe of an item answered 200 exactly when the classifier's
    result list holds the item's id. *)
Lemma confirmed_in_zip (ids : list string) (rs : list (response Z)) (vid : string) :
  Some vid ∈ zip_with confirmed ids rs <-> (shorts_url vid, Returns 200) ∈ zip (map shorts_url ids) rs.
Proof.
  revert rs. induction ids as [|i ids IH]; intros [|r rs]; cbn [map zip_with];
    try (rewrite !elem_of_nil; tauto).
  change (zip (shorts_url i :: map shorts_url ids) (r :: rs))
    with ((shorts_url i, r) :: zip (map shorts_url ids) rs).
  rewrite !elem_of_cons, IH. split; intros [H|H]; auto; left.
  - destruct r as [status|e]; cbn [confirmed] in H; [|discriminate].
    destruct (status =? 200) eqn:E; [|discriminate].
    apply Z.eqb_eq in E. congruence.
  - pose proof (f_equal fst H) as Hurl. pose proof (f_equal snd H) as Hr.
    cbn [fst snd] in Hurl, Hr. apply shorts_url_inj in Hurl. subst. reflexivity.
Qed.

Lemma formatted_feed_complete (m : gmap string (list PlaylistRef))
    (kept sorted : list PlaylistItem) (out : list FeedEntry) (v : PlaylistItem) :
  sort_by_publishedAt kept = Some sorted ->
  mapM (format_video m) sorted = Some out ->
  v ∈ kept -> exists e, format_video m v = Some e /\ e ∈ out.
Proof.
  intros Hsort Hfmt Hv.
  destruct (formatted_feed _ _ _ _ Hsort Hfmt) as (entries & Hentries & _ & _ & _ & Hout).
  pose proof (mapM_is_Some_Forall _ _ _ Hentries) as Hall. rewrite Forall_forall in Hall.
  destruct (Hall v Hv) as [e He]. exists e. split; [exact He|]. apply Hout. eauto.
Qed.

Lemma without_shorts_elem (include_shorts : bool) (rs : list (response Z))
    (recent : list PlaylistItem) (v : PlaylistItem) :
  v ∈ without_shorts include_shorts rs recent
  <-> v ∈ recent
      /\ (include_shorts = true
          \/ exists vid,
               videoId v = Some vid
               /\ (vid = ""
                   \/ (shorts_url vid, Returns 200)
                      ∉ zip (map shorts_url (omap videoId recent)) rs)).
Proof.
  unfold without_shorts. destruct include_shorts; [intuition|].
  rewrite list_elem_of_In, filter_In, <- list_elem_of_In. unfold not_short.
  destruct (videoId v) as [vid|].
  - rewrite bool_decide_eq_true, collect_shorts_spec, confirmed_in_zip.
    destruct (decide (vid = "")) as [E|E].
    + split; [intros [Hin _]; split; [exact Hin|]; right; eauto|tauto].
    + split.
      * intros [Hin Hn]. split; [exact Hin|]. right. exists vid. split; [reflexivity|].
        right. tauto.
      * intros [Hin [Hn|(vid' & Hvid & [Hn|Hn])]]; [discriminate| |];
          injection Hvid as <-; tauto.
  - split; [intros [_ H]; discriminate|].
    intros [_ [H|(vid & H & _)]]; discriminate.
Qed.

Section Items.

Context {World : Type} (rt : Runtime World).

Lemma head_calls_after_lookup (t1 t2 : list event) :
  only clock_or_log t1 -> head_calls (t1 ++ t2) = head_calls t2.
Proof.
  intros Ho. now rewrite head_calls_app, (only_head_calls_nil clock_or_log t1).
Qed.

Lemma member_calls_after_lookup (t1 t2 : list event) :
  only clock_or_log t1 -> member_calls (t1 ++ t2) = member_calls t2.
Proof.
  intros Ho. now rewrite member_calls_app, (only_member_calls_nil clock_or_log t1).
Qed.

(** [assemble_feed_run], read on the record of the whole request. *)
Lemma get_feed_detail (fuel : nat) (youtube : Resource World) (include_shorts : bool)
    (check_playlist_id : option string) (force_refresh : bool)
    (s s' : state World) (out : list FeedEntry) (t : list event) :
  get_feed rt fuel (Some youtube) include_shorts check_playlist_id force_refresh s
  = (Ok out, s', t) ->
  served_from_cache t = false ->
  (out = [] /\ fetched t = [] /\ head_calls t = [] /\ member_calls t = []
   /\ mute_reads t = [])
  \/ exists muted now rs sorted m,
       mute_reads t = [Returns muted]
       /\ Read_now now ∈ t
       /\ Forall (fun v => is_Some (channelId v)) (fetched t)
       /\ (if include_shorts then head_calls t = []
           else length rs = length (passes_filters rt muted now (fetched t))
                /\ Forall (fun v => is_Some (videoId v))
                     (passes_filters rt muted now (fetched t))
                /\ head_calls t
                   = zip (map shorts_url
                            (omap videoId (passes_filters rt muted now (fetched t)))) rs)
       /\ sort_by_publishedAt
            (without_shorts include_shorts rs (passes_filters rt muted now (fetched t)))
          = Some sorted
       /\ mapM (format_video m) sorted = Some out
       /\ index_facts m t.
Proof.
  intros Hrun Hmiss.
  destruct (get_feed_assembled rt _ _ _ _ _ _ _ _ _ Hrun Hmiss)
    as (s1 & t1 & t2 & _ & Ho1 & -> & Hasm).
  rewrite (fetched_after_lookup _ _ Ho1), (head_calls_after_lookup _ _ Ho1),
    (member_calls_after_lookup _ _ Ho1), (mute_reads_after_lookup _ _ Ho1).
  apply assemble_feed_run in Hasm as [(-> & -> & _)|Hasm]; [left; auto|right].
  destruct Hasm as (sub & subs & muted & now & rs & sorted & m & _ & H1 & H2 & H3 & H4
                    & H5 & H6 & H7 & _).
  exists muted, now, rs, sorted, m.
  split; [exact H1|]. split; [apply elem_of_app; now right|].
  split; [exact H3|]. split; [exact H4|]. split; [exact H5|]. split; [exact H6|].
  now apply index_facts_after_lookup.
Qed.

End Items.

(** X5.  When shorts are excluded, an assembly that received
    subscriptions probes exactly the items that passed the mute filter and
    the date filter, each of which has a video id, at its shorts address, in
    the order in which they were fetched; and no returned entry with a
    non-empty id had a probe of its address answered by status 200. *)
Theorem short_filter_probes {World : Type} (rt : Runtime World) (fuel : nat)
    (youtube : Resource World) (check_playlist_id : option string) (force_refresh : bool)
    (s s' : state World) (out : list FeedEntry) (t : list event) :
  get_feed rt fuel (Some youtube) false check_playlist_id force_refresh s
  = (Ok out, s', t) ->
  served_from_cache t = false ->
  (out = [] /\ head_calls t = [] /\ mute_reads t = [])
  \/ exists muted now,
       mute_reads t = [Returns muted]
       /\ Read_now now ∈ t
       /\ Forall (fun v => is_Some (videoId v)) (passes_filters rt muted now (fetched t))
       /\ map fst (head_calls t)
          = map shorts_url (omap videoId (passes_filters rt muted now (fetched t)))
       /\ forall e,
            e ∈ out -> video_id e <> "" ->
            (shorts_url (video_id e), Returns 200) ∉ head_calls t.
Proof.
  intros Hrun Hmiss.
  destruct (get_feed_detail rt _ _ _ _ _ _ _ _ _ Hrun Hmiss)
    as [(-> & _ & -> & _ & ->)
       |(muted & now & rs & sorted & m & Hmute & Hnow & _ & (Hlen & Hids & Hhead) & Hsort
         & Hfmt & _)];
    [left; auto|right].
  exists muted, now. split; [exact Hmute|]. split; [exact Hnow|]. split; [exact Hids|].
  assert (Hlen' : length (omap videoId (passes_filters rt muted now (fetched t)))
                  = length (passes_filters rt muted now (fetched t))).
  { destruct (proj2 (mapM_is_Some videoId _) Hids) as [ids Hm].
    rewrite (mapM_omap _ _ _ Hm). symmetry. exact (length_mapM _ _ _ Hm). }
  split.
  - rewrite Hhead. apply fst_zip. rewrite length_map. lia.
  - intros e He Hid.
    destruct (formatted_feed _ _ _ _ Hsort Hfmt) as (entries & _ & _ & _ & _ & Hout).
    apply Hout in He as (v & Hv & Hve).
    apply format_video_Some in Hve as (Hvid & _).
    apply without_shorts_elem in Hv as [_ [Hv|(vid & Hv & [Hn|Hn])]]; [discriminate| |];
      rewrite Hvid in Hv; injection Hv as <-; [contradiction|].
    now rewrite Hhead.
Qed.

Lemma short_filter_probes_witness :
  (DemoShorts.filtered_run
   = (Ok [Demo.recent_entry], Demo.state_of DemoShorts.filtered_run,
      Demo.events_of DemoShorts.filtered_run)
   /\ served_from_cache (Demo.events_of DemoShorts.filtered_run) = false)
  /\ (([Demo.recent_entry] = [] /\ head_calls (Demo.events_of DemoShorts.filtered_run) = []
       /\ mute_reads (Demo.events_of DemoShorts.filtered_run) = [])
      \/ exists muted now,
           mute_reads (Demo.events_of DemoShorts.filtered_run) = [Returns muted]
           /\ Read_now now ∈ Demo.events_of DemoShorts.filtered_run
           /\ Forall (fun v => is_Some (videoId v))
                (passes_filters Demo.rt_probe muted now
                   (fetched (Demo.events_of DemoShorts.filtered_run)))
           /\ map fst (head_calls (Demo.events_of DemoShorts.filtered_run))
              = map shorts_url
                  (omap videoId
                     (passes_filters Demo.rt_probe muted now
                        (fetched (Demo.events_of DemoShorts.filtered_run))))
           /\ forall e,
                e ∈ [Demo.recent_entry] -> video_id e <> "" ->
                (shorts_url (video_id e), Returns 200)
                ∉ head_calls (Demo.events_of DemoShorts.filtered_run)).
Proof.
  assert (Hrun : DemoShorts.filtered_run
                 = (Ok [Demo.recent_entry], Demo.state_of DemoShorts.filtered_run,
                    Demo.events_of DemoShorts.filtered_run)) by (vm_compute; reflexivity).
  assert (Hmiss : served_from_cache (Demo.events_of DemoShorts.filtered_run) = false)
    by (vm_compute; reflexivity).
  split; [auto|].
  exact (short_filter_probes Demo.rt_probe 5 DemoShorts.youtube None false
           (Demo.start FEED_CACHE_init) (Demo.state_of DemoShorts.filtered_run)
           [Demo.recent_entry] (Demo.events_of DemoShorts.filtered_run) Hrun Hmiss).
Defined.

(** X6.  The filters drop nothing else: in an assembly that received
    subscriptions, every fetched item has a channel id, and every fetched
    item whose channel is not in the mute list read by the run, whose
    [publishedAt] passes the date test at the run's clock reading, and
    which is not a confirmed short (shorts are included, or its id is
    empty, or no probe of its address was answered by status 200) has its
    entry in the returned list; and the list has at most as many entries as
    items were fetched. *)
Theorem feed_complete {World : Type} (rt : Runtime World) (fuel : nat)
    (youtube : Resource World) (include_shorts : bool)
    (check_playlist_id : option string) (force_refresh : bool)
    (s s' : state World) (out : list FeedEntry) (t : list event) :
  get_feed rt fuel (Some youtube) include_shorts check_playlist_id force_refresh s
  = (Ok out, s', t) ->
  served_from_cache t = false ->
  (out = [] /\ fetched t = [])
  \/ exists muted now m,
       mute_reads t = [Returns muted]
       /\ Read_now now ∈ t
       /\ Forall (fun v => is_Some (channelId v)) (fetched t)
       /\ (forall v,
             v ∈ fetched t ->
             (forall c, channelId v = Some c -> c ∉ muted) ->
             is_recent rt (now - hours_48) (publishedAt v) = true ->
             (include_shorts = true
              \/ forall vid,
                   videoId v = Some vid ->
                   vid = "" \/ (shorts_url vid, Returns 200) ∉ head_calls t) ->
             exists e, format_video m v = Some e /\ e ∈ out)
       /\ (length out <= length (fetched t))%nat.
Proof.
  intros Hrun Hmiss.
  destruct (get_feed_detail rt _ _ _ _ _ _ _ _ _ Hrun Hmiss)
    as [(-> & -> & _)
       |(muted & now & rs & sorted & m & Hmute & Hnow & Hch & Hhead & Hsort & Hfmt & _)];
    [left; auto|right].
  exists muted, now, m. split; [exact Hmute|]. split; [exact Hnow|].
  split; [exact Hch|]. split.
  - intros v Hv Hmuted Hrec Hshort.
    apply (formatted_feed_complete _ _ _ _ _ Hsort Hfmt).
    assert (Hpass : v ∈ passes_filters rt muted now (fetched t)).
    { apply passes_filters_elem. split; [exact Hv|]. split; [|exact Hrec].
      rewrite Forall_forall in Hch. destruct (Hch v Hv) as [c Hc].
      unfold not_muted. rewrite Hc. apply bool_decide_eq_true. now apply Hmuted. }
    apply without_shorts_elem. split; [exact Hpass|].
    destruct include_shorts; [now left|]. right.
    destruct Hhead as (_ & Hids & Hhead). rewrite Forall_forall in Hids.
    destruct (Hids v Hpass) as [vid Hvid]. exists vid. split; [exact Hvid|].
    destruct Hshort as [Hshort|Hshort]; [discriminate|].
    rewrite <- Hhead. now apply Hshort.
  - destruct (formatted_feed _ _ _ _ Hsort Hfmt) as (entries & Hentries & -> & _).
    rewrite (Permutation_length (sort_newest_first_perm _ _)).
    rewrite <- (length_mapM _ _ _ Hentries).
    assert (Hle : forall (A : Type) (f : A -> bool) (l : list A),
               (length (List.filter f l) <= length l)%nat).
    { intros A f l. induction l as [|a l IH]; simpl; [lia|]. destruct (f a); simpl; lia. }
    unfold without_shorts, passes_filters.
    destruct include_shorts;
      repeat (etransitivity; [apply Hle|]); reflexivity.
Qed.

Lemma feed_complete_witness :
  (DemoShorts.filtered_run
   = (Ok [Demo.recent_entry], Demo.state_of DemoShorts.filtered_run,
      Demo.events_of DemoShorts.filtered_run)
   /\ served_from_cache (Demo.events_of DemoShorts.filtered_run) = false)
  /\ (([Demo.recent_entry] = [] /\ fetched (Demo.events_of DemoShorts.filtered_run) = [])
      \/ exists muted now m,
           mute_reads (Demo.events_of DemoShorts.filtered_run) = [Returns muted]
           /\ Read_now now ∈ Demo.events_of DemoShorts.filtered_run
           /\ Forall (fun v => is_Some (channelId v))
                (fetched (Demo.events_of DemoShorts.filtered_run))
           /\ (forall v,
                 v ∈ fetched (Demo.events_of DemoShorts.filtered_run) ->
                 (forall c, channelId v = Some c -> c ∉ muted) ->
                 is_recent Demo.rt_probe (now - hours_48) (publishedAt v) = true ->
                 (false = true
                  \/ forall vid,
                       videoId v = Some vid ->
                       vid = ""
                       \/ (shorts_url vid, Returns 200)
                          ∉ head_calls (Demo.events_of DemoShorts.filtered_run)) ->
                 exists e, format_video m v = Some e /\ e ∈ [Demo.recent_entry])
           /\ (length [Demo.recent_entry]
               <= length (fetched (Demo.events_of DemoShorts.filtered_run)))%nat).
Proof.
  assert (Hrun : DemoShorts.filtered_run
                 = (Ok [Demo.recent_entry], Demo.state_of DemoShorts.filtered_run,
                    Demo.events_of DemoShorts.filtered_run)) by (vm_compute; reflexivity).
  assert (Hmiss : served_from_cache (Demo.events_of DemoShorts.filtered_run) = false)
    by (vm_compute; reflexivity).
  split; [auto|].
  exact (feed_complete Demo.rt_probe 5 DemoShorts.youtube false None false
           (Demo.start FEED_CACHE_init) (Demo.state_of DemoShorts.filtered_run)
           [Demo.recent_entry] (Demo.events_of DemoShorts.filtered_run) Hrun Hmiss).
Defined.

(** X7.  In an assembly, every returned entry carries both annotations,
    [saved] is true exactly when [saved_to] is not empty, and every
    reference of [saved_to] is backed by the run: a membership page of the
    referenced playlist came back during the run and holds the entry's
    video id. *)
Theorem saved_refs_backed {World : Type} (rt : Runtime World) (fuel : nat)
    (youtube : Resource World) (include_shorts : bool)
    (check_playlist_id : option string) (force_refresh : bool)
    (s s' : state World) (out : list FeedEntry) (t : list event) :
  get_feed rt fuel (Some youtube) include_shorts check_playlist_id force_refresh s
  = (Ok out, s', t) ->
  served_from_cache t = false ->
  forall e,
    e ∈ out ->
    exists refs,
      saved_to e = Some refs
      /\ saved e = Some (negb (bool_decide (refs = [])))
      /\ forall ref,
           ref ∈ refs ->
           exists token page,
             Call_playlistItems_ids (ref_id ref) token (Returns page) ∈ t
             /\ video_id e ∈ page_videoIds page.
Proof.
  intros Hrun Hmiss e He.
  destruct (get_feed_detail rt _ _ _ _ _ _ _ _ _ Hrun Hmiss)
    as [(-> & _)|(muted & now & rs & sorted & m & _ & _ & _ & _ & Hsort & Hfmt & Hfacts)].
  { now apply elem_of_nil in He. }
  destruct Hfacts as (_ & Hne & _ & _ & Hback & _).
  destruct (formatted_feed _ _ _ _ Hsort Hfmt) as (entries & _ & _ & _ & _ & Hout).
  destruct (proj1 (Hout e) He) as (v & _ & Hve).
  apply format_video_Some in Hve as (_ & _ & _ & _ & _ & _ & Hsaved & Hto).
  exists (default [] (m !! video_id e)). split; [exact Hto|]. split.
  - rewrite Hsaved. f_equal. destruct (m !! video_id e) as [refs|] eqn:E; cbn [default].
    + rewrite bool_decide_eq_true_2 by eauto.
      rewrite bool_decide_eq_false_2; [reflexivity|]. exact (Hne _ _ E).
    + rewrite bool_decide_eq_false_2 by (intros [? ?]; discriminate).
      now rewrite bool_decide_eq_true_2.
  - intros ref Href. exact (Hback (video_id e) ref Href).
Qed.

Lemma saved_refs_backed_witness :
  (Demo.first_run
   = (Ok [Demo.recent_entry], Demo.state_of Demo.first_run, Demo.events_of Demo.first_run)
   /\ served_from_cache (Demo.events_of Demo.first_run) = false)
  /\ forall e,
       e ∈ [Demo.recent_entry] ->
       exists refs,
         saved_to e = Some refs
         /\ saved e = Some (negb (bool_decide (refs = [])))
         /\ forall ref,
              ref ∈ refs ->
              exists token page,
                Call_playlistItems_ids (ref_id ref) token (Returns page)
                ∈ Demo.events_of Demo.first_run
                /\ video_id e ∈ page_videoIds page.
Proof.
  assert (Hrun : Demo.first_run
                 = (Ok [Demo.recent_entry], Demo.state_of Demo.first_run,
                    Demo.events_of Demo.first_run)) by (vm_compute; reflexivity).
  assert (Hmiss : served_from_cache (Demo.events_of Demo.first_run) = false)
    by (vm_compute; reflexivity).
  split; [auto|].
  exact (saved_refs_backed Demo.rt 5 Demo.youtube true None false
           (Demo.start FEED_CACHE_init) (Demo.state_of Demo.first_run)
           [Demo.recent_entry] (Demo.events_of Demo.first_run) Hrun Hmiss).
Defined.

(** X8.  An assembly sends at most ten membership requests for each
    playlist that the listing pages of the run gave. *)
Theorem membership_requests_bounded {World : Type} (rt : Runtime World) (fuel : nat)
    (youtube : Resource World) (include_shorts : bool)
    (check_playlist_id : option string) (force_refresh : bool)
    (s s' : state World) (out : list FeedEntry) (t : list event) :
  get_feed rt fuel (Some youtube) include_shorts check_playlist_id force_refresh s
  = (Ok out, s', t) ->
  served_from_cache t = false ->
  (length (member_calls t) <= 10 * length (listed t))%nat.
Proof.
  intros Hrun Hmiss.
  destruct (get_feed_detail rt _ _ _ _ _ _ _ _ _ Hrun Hmiss)
    as [(_ & _ & _ & -> & _)
       |(muted & now & rs & sorted & m & _ & _ & _ & _ & _ & _ & Hfacts)].
  - simpl. lia.
  - exact (proj2 (proj2 (proj2 (proj2 (proj2 (proj2 (proj2 Hfacts))))))).
Qed.

Lemma membership_requests_bounded_witness :
  (Demo.long_run
   = (Ok [unsaved_entry], Demo.state_of Demo.long_run, Demo.events_of Demo.long_run)
   /\ served_from_cache (Demo.events_of Demo.long_run) = false)
  /\ (length (member_calls (Demo.events_of Demo.long_run))
      <= 10 * length (listed (Demo.events_of Demo.long_run)))%nat.
Proof.
  assert (Hrun : Demo.long_run
                 = (Ok [unsaved_entry], Demo.state_of Demo.long_run,
                    Demo.events_of Demo.long_run)) by (vm_compute; reflexivity).
  assert (Hmiss : served_from_cache (Demo.events_of Demo.long_run) = false)
    by (vm_compute; reflexivity).
  split; [auto|].
  exact (membership_requests_bounded Demo.rt 5 Demo.youtube_long true None false
           (Demo.start FEED_CACHE_init) (Demo.state_of Demo.long_run)
           [unsaved_entry] (Demo.events_of Demo.long_run) Hrun Hmiss).
Defined.


(** *** What the slot holds *)

Lemma format_video_annotated (m : gmap string (list PlaylistRef)) (v : PlaylistItem)
    (e : FeedEntry) :
  index_nonempty m -> format_video m v = Some e -> annotated e.
Proof.
  intros Hne Hve.
  apply format_video_Some in Hve as (_ & _ & _ & _ & _ & _ & Hsaved & Hto).
  exists (default [] (m !! video_id e)). split; [exact Hto|]. rewrite Hsaved. f_equal.
  destruct (m !! video_id e) as [refs|] eqn:E; cbn [default].
  - rewrite bool_decide_eq_true_2 by eauto.
    rewrite bool_decide_eq_false_2; [reflexivity|]. exact (Hne _ _ E).
  - rewrite bool_decide_eq_false_2 by (intros [? ?]; discriminate).
    now rewrite bool_decide_eq_true_2.
Qed.

Lemma FEED_CACHE_init_well_formed : cache_well_formed FEED_CACHE_init.
Proof.
  intros data Hdata. discriminate.
Qed.

Section Slot.

Context {World : Type} (rt : Runtime World).

(** The list of a completed pipeline is sorted and annotated. *)
Lemma assemble_feed_well_formed (fuel : nat) (youtube : Resource World)
    (include_shorts : bool) (check_playlist_id : option string) (key : string)
    (s s' : state World) (out : list FeedEntry) (t : list event) :
  assemble_feed rt fuel youtube include_shorts check_playlist_id key s = (Ok out, s', t) ->
  StronglySorted entry_not_older out /\ Forall annotated out.
Proof.
  intros Hasm.
  apply assemble_feed_run in Hasm
      as [(-> & _)|(sub & subs & muted & now & rs & sorted & m & _ & _ & _ & _ & _ & Hsort
                    & Hfmt & Hfacts & _)].
  { split; constructor. }
  destruct (formatted_feed _ _ _ _ Hsort Hfmt) as (entries & _ & _ & Hsorted & _ & Hout).
  split; [exact Hsorted|].
  apply Forall_forall. intros e He. destruct (proj1 (Hout e) He) as (v & _ & Hve).
  eapply format_video_annotated; [|exact Hve]. exact (proj1 (proj2 Hfacts)).
Qed.

End Slot.

(** X9.  [get_feed] keeps the slot well formed: if, before a request, a
    stored list is in descending order of [publishedAt], its entries carry
    consistent [saved] and [saved_to] annotations and the stored key is the
    key of some request, then the same holds after the request, whatever
    its arguments and however it ends.  The list a request returns is then
    sorted and annotated as well, also when it is served from the slot;
    the only other list returned is the mock feed of a request without
    client. *)
Theorem cache_invariant {World : Type} (rt : Runtime World) (fuel : nat)
    (youtube : option (Resource World)) (include_shorts : bool)
    (check_playlist_id : option string) (force_refresh : bool)
    (s s' : state World) (r : result (list FeedEntry)) (t : list event) :
  cache_well_formed (FEED_CACHE s) ->
  get_feed rt fuel youtube include_shorts check_playlist_id force_refresh s = (r, s', t) ->
  cache_well_formed (FEED_CACHE s')
  /\ forall out,
       r = Ok out ->
       (youtube = None /\ out = get_mock_feed)
       \/ (StronglySorted entry_not_older out /\ Forall annotated out).
Proof.
  intros Hwf Hrun.
  destruct (cache_hit rt (cache_key_of include_shorts) check_playlist_id force_refresh s)
    eqn:Ehit.
  - destruct (get_feed_hit rt fuel youtube _ _ _ _ Ehit)
      as (e & data & s2 & t2 & Hrun2 & Hdata & Hcache & _).
    rewrite Hrun2 in Hrun. injection Hrun as <- <- <-. rewrite Hcache.
    split; [exact Hwf|]. intros out Hout. injection Hout as <-. right.
    destruct (Hwf _ Hdata) as (Hs & Ha & _). auto.
  - destruct (get_feed_miss rt fuel youtube _ _ _ _ _ _ _ Ehit Hrun)
      as (s1 & t1 & t2 & Hc1 & _ & _ & _ & _ & Hk).
    destruct youtube as [yt|].
    + destruct r as [out|e|].
      * destruct (assemble_feed_well_formed rt _ _ _ _ _ _ _ _ _ Hk) as [Hs Ha].
        split; [|intros out' Hout; injection Hout as <-; auto].
        apply assemble_feed_run in Hk as [(_ & _ & Hc)|Hk].
        { rewrite Hc, Hc1. exact Hwf. }
        destruct Hk as (sub' & subs' & muted & now & rs & sorted & m & _ & _ & _ & _ & _
                        & _ & _ & _ & Hkeep & Hstore).
        destruct (truthy_str check_playlist_id) eqn:Epl.
        { rewrite (Hkeep eq_refl), Hc1. exact Hwf. }
        destruct (Hstore eq_refl) as (ts & t0 & _ & ->).
        intros data Hdata. cbn [cache_data cache_key] in *. injection Hdata as <-.
        split; [exact Hs|]. split; [exact Ha|]. now exists include_shorts.
      * split; [|discriminate].
        rewrite (assemble_feed_failure_keeps_cache rt _ _ _ _ _ _ _ _ _ Hk), Hc1;
          [exact Hwf|discriminate].
      * split; [|discriminate].
        rewrite (assemble_feed_failure_keeps_cache rt _ _ _ _ _ _ _ _ _ Hk), Hc1;
          [exact Hwf|discriminate].
    + destruct Hk as (-> & -> & _). rewrite Hc1. split; [exact Hwf|].
      intros out Hout. injection Hout as <-. now left.
Qed.

Lemma cache_invariant_witness :
  (cache_well_formed (FEED_CACHE (Demo.start FEED_CACHE_init))
   /\ Demo.first_run
      = (Ok [Demo.recent_entry], Demo.state_of Demo.first_run, Demo.events_of Demo.first_run))
  /\ cache_well_formed (FEED_CACHE (Demo.state_of Demo.first_run))
  /\ forall out,
       Ok [Demo.recent_entry] = Ok out ->
       (Some Demo.youtube = None /\ out = get_mock_feed)
       \/ (StronglySorted entry_not_older out /\ Forall annotated out).
Proof.
  assert (Hwf : cache_well_formed (FEED_CACHE (Demo.start FEED_CACHE_init))).
  { intros data Hdata. vm_compute in Hdata. discriminate. }
  assert (Hrun : Demo.first_run
                 = (Ok [Demo.recent_entry], Demo.state_of Demo.first_run,
                    Demo.events_of Demo.first_run)) by (vm_compute; reflexivity).
  split; [auto|].
  exact (cache_invariant Demo.rt 5 (Some Demo.youtube) true None false
           (Demo.start FEED_CACHE_init) (Demo.state_of Demo.first_run)
           (Ok [Demo.recent_entry]) (Demo.events_of Demo.first_run) Hwf Hrun).
Defined.


(** X10.  [get_user_playlists] on a client never raises and leaves the
    feed slot alone.  Its requests page through the listing: the first one
    carries no token, each later one the token of the page before it, and
    the first failed request or page without a token is the last request.
    When it returns, the result is exactly the playlists of the pages
    received, in order, those received before a failed request included.
    It does not return only when every page, without end, names a next
    page. *)
Theorem get_user_playlists_pages {World : Type} (fuel : nat) (youtube : Resource World)
    (s s' : state World) (r : result (list Playlist)) (t : list event) :
  get_user_playlists fuel (Some youtube) s = (r, s', t) ->
  FEED_CACHE s' = FEED_CACHE s
  /\ listing_chain None (listing_calls t)
  /\ match r with
     | Ok playlists =>
         playlists = listed t
         /\ exists calls last,
              listing_calls t = calls ++ [last] /\ continues (snd last) = false
     | Raise _ => False
     | OutOfFuel =>
         length (listing_calls t) = fuel
         /\ Forall (fun c => continues (snd c) = true) (listing_calls t)
     end.
Proof.
  cbn [get_user_playlists]. intros Hrun.
  split; [exact (proj1 (get_user_playlists_loop_quiet youtube fuel [] None _ _ _ _ Hrun))|].
  destruct (get_user_playlists_loop_chain youtube fuel _ _ _ _ _ _ Hrun) as [Hchain Hlast].
  split; [exact Hchain|].
  pose proof (get_user_playlists_loop_listed youtube fuel _ _ _ _ _ _ Hrun) as H.
  destruct r as [pls|e|]; [|exact H|exact H].
  split; [exact H|]. exact (Hlast pls eq_refl).
Qed.

Lemma get_user_playlists_pages_witness :
  DemoPages.listing_run
  = (Ok [DemoPages.playlist "1"; DemoPages.playlist "2"; DemoPages.playlist "3"],
     snd (fst DemoPages.listing_run), snd DemoPages.listing_run)
  /\ FEED_CACHE (snd (fst DemoPages.listing_run))
     = FEED_CACHE (Demo.start Demo.warm_cache)
  /\ listing_chain None (listing_calls (snd DemoPages.listing_run))
  /\ [DemoPages.playlist "1"; DemoPages.playlist "2"; DemoPages.playlist "3"]
     = listed (snd DemoPages.listing_run)
  /\ exists calls last,
       listing_calls (snd DemoPages.listing_run) = calls ++ [last]
       /\ continues (snd last) = false.
Proof.
  assert (Hrun : DemoPages.listing_run
                 = (Ok [DemoPages.playlist "1"; DemoPages.playlist "2";
                        DemoPages.playlist "3"],
                    snd (fst DemoPages.listing_run), snd DemoPages.listing_run))
    by (vm_compute; reflexivity).
  split; [exact Hrun|].
  exact (get_user_playlists_pages 5 (DemoPages.youtube DemoPages.failing_listing)
           (Demo.start Demo.warm_cache) (snd (fst DemoPages.listing_run))
           (Ok [DemoPages.playlist "1"; DemoPages.playlist "2"; DemoPages.playlist "3"])
           (snd DemoPages.listing_run) Hrun).
Defined.

(** X11.  [get_playlist_video_ids] always returns, with or without client,
    and leaves the feed slot alone.  It sends at most ten requests, all for
    the playlist asked, paging from the first page by the tokens received
    and stopping at the first failed request or page without a token.  The
    set returned holds exactly the video ids of the pages received: what
    was read before a failure is kept, what lies beyond the tenth page is
    never read.  Without client it sends nothing and the set is empty. *)
Theorem get_playlist_video_ids_pages {World : Type} (youtube : option (Resource World))
    (playlist_id : string) (s s' : state World) (r : result (gset string))
    (t : list event) :
  get_playlist_video_ids youtube playlist_id s = (r, s', t) ->
  FEED_CACHE s' = FEED_CACHE s
  /\ (youtube = None -> t = [])
  /\ (length (member_calls t) <= 10)%nat
  /\ member_chain playlist_id None (member_calls t)
  /\ exists video_ids,
       r = Ok video_ids
       /\ forall vid,
            vid ∈ video_ids
            <-> exists token page,
                  Call_playlistItems_ids playlist_id token (Returns page) ∈ t
                  /\ vid ∈ page_videoIds page.
Proof.
  destruct youtube as [yt|]; cbn [get_playlist_video_ids].
  - intros Hrun.
    split; [exact (proj1 (get_playlist_video_ids_loop_quiet yt playlist_id 10 ∅ None
                            _ _ _ _ Hrun))|].
    split; [discriminate|].
    split; [exact (get_playlist_video_ids_loop_bound yt playlist_id 10 _ _ _ _ _ _ Hrun)|].
    split; [exact (get_playlist_video_ids_loop_chain yt playlist_id 10 _ _ _ _ _ _ Hrun)|].
    destruct (get_playlist_video_ids_loop_run yt playlist_id 10 ∅ None s)
      as (ids & s2 & t2 & Hrun2 & Hids & _).
    rewrite Hrun2 in Hrun. injection Hrun as <- <- <-.
    exists ids. split; [reflexivity|]. intros vid. rewrite Hids. set_solver.
  - unfold ret. intros H. injection H as <- <- <-.
    split; [reflexivity|]. split; [reflexivity|]. split; [simpl; lia|]. split; [exact I|].
    exists ∅. split; [reflexivity|]. intros vid. split; [set_solver|].
    intros (token & page & Hev & _). now apply elem_of_nil in Hev.
Qed.

Lemma get_playlist_video_ids_pages_witness :
  DemoPages.members_run
  = (fst (fst DemoPages.members_run), snd (fst DemoPages.members_run),
     snd DemoPages.members_run)
  /\ FEED_CACHE (snd (fst DemoPages.members_run)) = FEED_CACHE (Demo.start Demo.warm_cache)
  /\ (Some (DemoPages.youtube DemoPages.failing_listing) = None
      -> snd DemoPages.members_run = [])
  /\ (length (member_calls (snd DemoPages.members_run)) <= 10)%nat
  /\ member_chain "PL1" None (member_calls (snd DemoPages.members_run))
  /\ exists video_ids,
       fst (fst DemoPages.members_run) = Ok video_ids
       /\ forall vid,
            vid ∈ video_ids
            <-> exists token page,
                  Call_playlistItems_ids "PL1" token (Returns page)
                  ∈ snd DemoPages.members_run
                  /\ vid ∈ page_videoIds page.
Proof.
  assert (Hrun : DemoPages.members_run
                 = (fst (fst DemoPages.members_run), snd (fst DemoPages.members_run),
                    snd DemoPages.members_run)) by (vm_compute; reflexivity).
  split; [exact Hrun|].
  exact (get_playlist_video_ids_pages (Some (DemoPages.youtube DemoPages.failing_listing))
           "PL1" (Demo.start Demo.warm_cache) (snd (fst DemoPages.members_run))
           (fst (fst DemoPages.members_run)) (snd DemoPages.members_run) Hrun).
Defined.

(** *** The mute list on disk *)

Section MuteListProperties.

Context {World Content Json : Type} (fs : Storage.Files World Content Json).

Lemma unknown_channels_from (data : list string) :
  forall (acc : gmap string Json) (c : string),
    foldl (fun d cid => <[cid := Storage.json_str fs "Unknown Channel"]> d) acc data !! c
    = if bool_decide (c ∈ data) then Some (Storage.json_str fs "Unknown Channel")
      else acc !! c.
Proof.
  induction data as [|x data IH]; intros acc c; cbn [foldl].
  - rewrite bool_decide_eq_false_2; [reflexivity|apply not_elem_of_nil].
  - rewrite IH. destruct (decide (c ∈ data)) as [Hin|Hin].
    + rewrite !bool_decide_eq_true_2; [reflexivity|now right|exact Hin].
    + rewrite (bool_decide_eq_false_2 _ Hin). destruct (decide (c = x)) as [->|Hne].
      * rewrite lookup_insert_eq, bool_decide_eq_true_2; [reflexivity|now left].
      * rewrite lookup_insert_ne by congruence.
        rewrite bool_decide_eq_false_2; [reflexivity|].
        rewrite elem_of_cons. tauto.
Qed.

Lemma unknown_channels_lookup (data : list string) (c : string) :
  Storage.unknown_channels fs data !! c
  = if bool_decide (c ∈ data) then Some (Storage.json_str fs "Unknown Channel") else None.
Proof.
  unfold Storage.unknown_channels. now rewrite unknown_channels_from, lookup_empty.
Qed.

Lemma unknown_channels_dom (data : list string) :
  dom (Storage.unknown_channels fs data) = list_to_set data.
Proof.
  apply set_eq. intros c. rewrite elem_of_dom, unknown_channels_lookup, elem_of_list_to_set.
  destruct (decide (c ∈ data)) as [Hin|Hin].
  - rewrite bool_decide_eq_true_2 by exact Hin. split; [auto|eauto].
  - rewrite bool_decide_eq_false_2 by exact Hin. split; [intros [? ?]; discriminate|tauto].
Qed.

(** The loader never raises by itself and logs at most one record. *)
Lemma load_muted_channels_dict_outcome (w : World) :
  forall r t,
    Storage.load_muted_channels_dict fs w = (r, t) ->
    (forall e, r <> Storage.Raised e) /\ Storage.writes t = [].
Proof.
  intros r t. unfold Storage.load_muted_channels_dict, Storage.load_failed.
  destruct (Storage.os_path_exists fs w); cbn [negb];
    [|intros H; injection H as <- <-; split; [discriminate|reflexivity]].
  destruct (Storage.read fs w) as [text|e];
    [|destruct e; intros H; injection H as <- <-; split; (discriminate || reflexivity)].
  destruct (Storage.is_empty fs (Storage.strip fs text));
    [intros H; injection H as <- <-; split; [discriminate|reflexivity]|].
  destruct (Storage.json_loads fs (Storage.strip fs text)) as [[d|l| | |s|]|e];
    try (intros H; injection H as <- <-; split; (discriminate || reflexivity)).
  destruct e; intros H; injection H as <- <-; split; (discriminate || reflexivity).
Qed.

Hypothesis write_then_read : Storage.write_then_read fs.
Hypothesis dumps_then_loads : Storage.dumps_then_loads fs.

(** After a successful save the loader returns the saved dictionary. *)
Lemma load_after_save (muted : gmap string Json) (w w' : World)
    (t : list (Storage.entry Content)) :
  Storage.save fs muted w = (true, w', t) ->
  Storage.load_muted_channels_dict fs w' = (Storage.Returned (Storage.MutedDict muted), []).
Proof.
  unfold Storage.save.
  destruct (Storage.write fs (Storage.json_dumps fs muted) w) as [[[]|e] w1] eqn:Ew;
    [|discriminate].
  intros H. injection H as <- _.
  destruct (write_then_read _ _ _ Ew) as [Hex Hread].
  destruct (dumps_then_loads muted) as [Hne Hloads].
  unfold Storage.load_muted_channels_dict. rewrite Hex, Hread. cbn [negb].
  now rewrite Hne, Hloads.
Qed.

End MuteListProperties.

(** X12.  On a file system where a written file reads back and with a
    codec where a dictionary survives serialization, a successful
    [mute_channel] stores the channel: the dictionary loaded afterwards is
    the one loaded before with the channel mapped to the given title, the
    other entries unchanged, and [load_muted_channels] holds the channel.
    (A file that was missing, blank, unreadable or corrupt counted as the
    empty dictionary, so its former content is replaced.) *)
Theorem mute_channel_then_load {World Content Json : Type}
    (fs : Storage.Files World Content Json)
    (channel_id channel_title : string) (w w' : World)
    (t : list (Storage.entry Content)) :
  Storage.write_then_read fs ->
  Storage.dumps_then_loads fs ->
  Storage.mute_channel fs channel_id channel_title w = (Storage.Returned true, w', t) ->
  exists muted,
    fst (Storage.load_muted_channels_dict fs w) = Storage.Returned (Storage.MutedDict muted)
    /\ Storage.load_muted_channels_dict fs w'
       = (Storage.Returned
            (Storage.MutedDict (<[channel_id := Storage.json_str fs channel_title]> muted)),
          [])
    /\ Storage.load_muted_channels fs w'
       = (Storage.Returned (dom muted ∪ {[channel_id]}), []).
Proof.
  intros Hwr Hcodec. unfold Storage.mute_channel.
  destruct (Storage.load_muted_channels_dict fs w) as [r t0] eqn:Eload.
  destruct r as [[muted|s|]|e|]; try discriminate.
  destruct (Storage.save fs (<[channel_id := Storage.json_str fs channel_title]> muted) w)
    as [[ok w1] t1] eqn:Esave.
  intros H. injection H as -> <- _.
  pose proof (load_after_save fs Hwr Hcodec _ _ _ _ Esave) as Hafter.
  exists muted. split; [reflexivity|]. split; [exact Hafter|].
  unfold Storage.load_muted_channels. rewrite Hafter. f_equal. f_equal.
  rewrite dom_insert_L. set_solver.
Qed.

Lemma demo_write_then_read : Storage.write_then_read DemoStorage.fs.
Proof.
  intros text [f [|]] w'; cbn; intros H; [|discriminate].
  injection H as <-. cbn. split; [reflexivity|reflexivity].
Qed.

Lemma demo_dumps_then_loads : Storage.dumps_then_loads DemoStorage.fs.
Proof.
  intros d. split; reflexivity.
Qed.

Lemma mute_channel_then_load_witness :
  Storage.mute_channel DemoStorage.fs "UC9" "Nine" DemoStorage.legacy
  = (Storage.Returned true, DemoStorage.upgraded,
     snd (Storage.mute_channel DemoStorage.fs "UC9" "Nine" DemoStorage.legacy))
  /\ exists muted,
       fst (Storage.load_muted_channels_dict DemoStorage.fs DemoStorage.legacy)
       = Storage.Returned (Storage.MutedDict muted)
       /\ Storage.load_muted_channels_dict DemoStorage.fs DemoStorage.upgraded
          = (Storage.Returned (Storage.MutedDict (<["UC9" := "Nine"]> muted)), [])
       /\ Storage.load_muted_channels DemoStorage.fs DemoStorage.upgraded
          = (Storage.Returned (dom muted ∪ {["UC9"]}), []).
Proof.
  assert (Hrun : Storage.mute_channel DemoStorage.fs "UC9" "Nine" DemoStorage.legacy
                 = (Storage.Returned true, DemoStorage.upgraded,
                    snd (Storage.mute_channel DemoStorage.fs "UC9" "Nine"
                           DemoStorage.legacy))) by reflexivity.
  split; [exact Hrun|].
  exact (mute_channel_then_load DemoStorage.fs "UC9" "Nine" DemoStorage.legacy
           DemoStorage.upgraded _ demo_write_then_read demo_dumps_then_loads Hrun).
Defined.

(** X13.  Under the same assumptions, after [unmute_channel] returned
    [True] the channel is not in the set [load_muted_channels] gives and
    every other channel is kept.  When the channel was not muted in the
    first place, the call writes nothing and leaves the disk as it was. *)
Theorem unmute_channel_then_load {World Content Json : Type}
    (fs : Storage.Files World Content Json)
    (channel_id : string) (w w' : World) (t : list (Storage.entry Content))
    (muted : gset string) :
  Storage.write_then_read fs ->
  Storage.dumps_then_loads fs ->
  fst (Storage.load_muted_channels fs w) = Storage.Returned muted ->
  Storage.unmute_channel fs channel_id w = (Storage.Returned true, w', t) ->
  fst (Storage.load_muted_channels fs w') = Storage.Returned (muted ∖ {[channel_id]})
  /\ (channel_id ∉ muted -> w' = w /\ Storage.writes t = []).
Proof.
  intros Hwr Hcodec. unfold Storage.load_muted_channels at 1, Storage.unmute_channel.
  destruct (Storage.load_muted_channels_dict fs w) as [r t0] eqn:Eload.
  destruct r as [[d|s|]|e|]; cbn [fst]; try discriminate.
  intros Hm. injection Hm as <-.
  destruct (decide (channel_id ∈ dom d)) as [Hin|Hin].
  - rewrite (bool_decide_eq_true_2 _ Hin).
    destruct (Storage.save fs (delete channel_id d) w) as [[ok w1] t1] eqn:Esave.
    intros H. injection H as -> <- _.
    pose proof (load_after_save fs Hwr Hcodec _ _ _ _ Esave) as Hafter.
    split; [|contradiction].
    unfold Storage.load_muted_channels. rewrite Hafter. cbn [fst]. f_equal.
    now rewrite dom_delete_L.
  - rewrite (bool_decide_eq_false_2 _ Hin). intros H. injection H as <- <-.
    split.
    + unfold Storage.load_muted_channels. rewrite Eload. cbn [fst]. f_equal. set_solver.
    + intros _. split; [reflexivity|].
      exact (proj2 (load_muted_channels_dict_outcome fs w _ _ Eload)).
Qed.

Lemma unmute_channel_then_load_witness :
  (fst (Storage.load_muted_channels DemoStorage.fs DemoStorage.upgraded)
   = Storage.Returned {["UC1"; "UC2"; "UC9"]}
   /\ Storage.unmute_channel DemoStorage.fs "UC9" DemoStorage.upgraded
      = (Storage.Returned true, restored_disk,
         snd (Storage.unmute_channel DemoStorage.fs "UC9" DemoStorage.upgraded)))
  /\ fst (Storage.load_muted_channels DemoStorage.fs restored_disk)
     = Storage.Returned ({["UC1"; "UC2"; "UC9"]} ∖ {["UC9"]})
  /\ ("UC9" ∉ ({["UC1"; "UC2"; "UC9"]} : gset string) ->
      restored_disk = DemoStorage.upgraded
      /\ Storage.writes
           (snd (Storage.unmute_channel DemoStorage.fs "UC9" DemoStorage.upgraded)) = []).
Proof.
  assert (Hload : fst (Storage.load_muted_channels DemoStorage.fs DemoStorage.upgraded)
                  = Storage.Returned {["UC1"; "UC2"; "UC9"]}).
  { vm_compute. reflexivity. }
  assert (Hrun : Storage.unmute_channel DemoStorage.fs "UC9" DemoStorage.upgraded
                 = (Storage.Returned true, restored_disk,
                    snd (Storage.unmute_channel DemoStorage.fs "UC9" DemoStorage.upgraded)))
    by reflexivity.
  split; [auto|].
  exact (unmute_channel_then_load DemoStorage.fs "UC9" DemoStorage.upgraded restored_disk _
           {["UC1"; "UC2"; "UC9"]} demo_write_then_read demo_dumps_then_loads Hload Hrun).
Defined.

(** X14.  Muting a channel that was not muted and unmuting it again gives
    back the dictionary there was before, titles included (under the
    assumptions of X12, both calls having returned [True]). *)
Theorem mute_unmute_round_trip {World Content Json : Type}
    (fs : Storage.Files World Content Json)
    (channel_id channel_title : string) (w w1 w2 : World)
    (t1 t2 : list (Storage.entry Content)) (muted : gmap string Json) :
  Storage.write_then_read fs ->
  Storage.dumps_then_loads fs ->
  fst (Storage.load_muted_channels_dict fs w) = Storage.Returned (Storage.MutedDict muted) ->
  muted !! channel_id = None ->
  Storage.mute_channel fs channel_id channel_title w = (Storage.Returned true, w1, t1) ->
  Storage.unmute_channel fs channel_id w1 = (Storage.Returned true, w2, t2) ->
  Storage.load_muted_channels_dict fs w2 = (Storage.Returned (Storage.MutedDict muted), []).
Proof.
  intros Hwr Hcodec Hload Hfresh. unfold Storage.mute_channel.
  destruct (Storage.load_muted_channels_dict fs w) as [r t0] eqn:Eload.
  cbn [fst] in Hload. subst r.
  destruct (Storage.save fs (<[channel_id := Storage.json_str fs channel_title]> muted) w)
    as [[ok w1'] t1'] eqn:Esave.
  intros H. injection H as -> <- _.
  pose proof (load_after_save fs Hwr Hcodec _ _ _ _ Esave) as Hafter.
  unfold Storage.unmute_channel. rewrite Hafter.
  rewrite bool_decide_eq_true_2 by (rewrite dom_insert_L; set_solver).
  rewrite delete_insert_eq, (delete_id _ _ Hfresh).
  destruct (Storage.save fs muted w1') as [[ok w2'] t2'] eqn:Esave2.
  intros H. injection H as -> <- _.
  exact (load_after_save fs Hwr Hcodec _ _ _ _ Esave2).
Qed.

Lemma mute_unmute_round_trip_witness :
  (fst (Storage.load_muted_channels_dict DemoStorage.fs DemoStorage.legacy)
   = Storage.Returned
       (Storage.MutedDict (Storage.unknown_channels DemoStorage.fs ["UC1"; "UC2"]))
   /\ Storage.unknown_channels DemoStorage.fs ["UC1"; "UC2"] !! "UC9" = None
   /\ Storage.mute_channel DemoStorage.fs "UC9" "Nine" DemoStorage.legacy
      = (Storage.Returned true, DemoStorage.upgraded,
         snd (Storage.mute_channel DemoStorage.fs "UC9" "Nine" DemoStorage.legacy))
   /\ Storage.unmute_channel DemoStorage.fs "UC9" DemoStorage.upgraded
      = (Storage.Returned true, restored_disk,
         snd (Storage.unmute_channel DemoStorage.fs "UC9" DemoStorage.upgraded)))
  /\ Storage.load_muted_channels_dict DemoStorage.fs restored_disk
     = (Storage.Returned
          (Storage.MutedDict (Storage.unknown_channels DemoStorage.fs ["UC1"; "UC2"])), []).
Proof.
  assert (Hload : fst (Storage.load_muted_channels_dict DemoStorage.fs DemoStorage.legacy)
                  = Storage.Returned
                      (Storage.MutedDict
                         (Storage.unknown_channels DemoStorage.fs ["UC1"; "UC2"])))
    by reflexivity.
  assert (Hfresh : Storage.unknown_channels DemoStorage.fs ["UC1"; "UC2"] !! "UC9" = None)
    by (vm_compute; reflexivity).
  assert (Hmute : Storage.mute_channel DemoStorage.fs "UC9" "Nine" DemoStorage.legacy
                  = (Storage.Returned true, DemoStorage.upgraded,
                     snd (Storage.mute_channel DemoStorage.fs "UC9" "Nine"
                            DemoStorage.legacy))) by reflexivity.
  assert (Hunmute : Storage.unmute_channel DemoStorage.fs "UC9" DemoStorage.upgraded
                    = (Storage.Returned true, restored_disk,
                       snd (Storage.unmute_channel DemoStorage.fs "UC9"
                              DemoStorage.upgraded))) by reflexivity.
  split; [auto|].
  exact (mute_unmute_round_trip DemoStorage.fs "UC9" "Nine" DemoStorage.legacy
           DemoStorage.upgraded restored_disk _ _ _
           demo_write_then_read demo_dumps_then_loads Hload Hfresh Hmute Hunmute).
Defined.

(** X15.  A file in the old format, a JSON list of channel ids, is read as
    a dictionary that maps every id of the list to ["Unknown Channel"]:
    [load_muted_channels] gives exactly the ids of the list, and nothing is
    logged or written. *)
Theorem legacy_list_loaded {World Content Json : Type}
    (fs : Storage.Files World Content Json) (w : World) (text : Content)
    (data : list string) :
  Storage.os_path_exists fs w = true ->
  Storage.read fs w = Storage.Success text ->
  Storage.is_empty fs (Storage.strip fs text) = false ->
  Storage.json_loads fs (Storage.strip fs text) = Storage.Success (Storage.StringList data) ->
  Storage.load_muted_channels fs w = (Storage.Returned (list_to_set data), [])
  /\ exists muted,
       Storage.load_muted_channels_dict fs w
       = (Storage.Returned (Storage.MutedDict muted), [])
       /\ forall c,
            muted !! c
            = if bool_decide (c ∈ data)
              then Some (Storage.json_str fs "Unknown Channel") else None.
Proof.
  intros Hex Hread Hne Hloads.
  assert (Hdict : Storage.load_muted_channels_dict fs w
                  = (Storage.Returned
                       (Storage.MutedDict (Storage.unknown_channels fs data)), [])).
  { unfold Storage.load_muted_channels_dict. rewrite Hex, Hread. cbn [negb].
    now rewrite Hne, Hloads. }
  split.
  - unfold Storage.load_muted_channels. rewrite Hdict. now rewrite unknown_channels_dom.
  - exists (Storage.unknown_channels fs data). split; [exact Hdict|].
    apply unknown_channels_lookup.
Qed.

Lemma legacy_list_loaded_witness :
  Storage.load_muted_channels DemoStorage.fs DemoStorage.legacy
  = (Storage.Returned (list_to_set ["UC1"; "UC2"]), [])
  /\ exists muted,
       Storage.load_muted_channels_dict DemoStorage.fs DemoStorage.legacy
       = (Storage.Returned (Storage.MutedDict muted), [])
       /\ forall c,
            muted !! c
            = if bool_decide (c ∈ ["UC1"; "UC2"]) then Some "Unknown Channel" else None.
Proof.
  exact (legacy_list_loaded DemoStorage.fs DemoStorage.legacy
           (DemoStorage.Json_text (Storage.StringList ["UC1"; "UC2"])) ["UC1"; "UC2"]
           eq_refl eq_refl eq_refl eq_refl).
Defined.

(** X16.  [mute_channel] raises exactly when the file exists, can be read,
    is not blank and holds a JSON value that is neither a list nor a
    dictionary (a string, a number, [true], [false], [null]).  It then
    raises [TypeError] before any write, and [load_muted_channels] raises
    [AttributeError] on the same disk.  A write that fails is never raised:
    it is reported by the result [False]. *)
Theorem mute_channel_raises_iff {World Content Json : Type}
    (fs : Storage.Files World Content Json)
    (channel_id channel_title : string) (w : World) :
  ((exists e, fst (fst (Storage.mute_channel fs channel_id channel_title w))
              = Storage.Raised e)
   <-> Storage.os_path_exists fs w = true
       /\ exists text,
            Storage.read fs w = Storage.Success text
            /\ Storage.is_empty fs (Storage.strip fs text) = false
            /\ (Storage.json_loads fs (Storage.strip fs text)
                = Storage.Success Storage.Scalar
                \/ exists s, Storage.json_loads fs (Storage.strip fs text)
                             = Storage.Success (Storage.Str s)))
  /\ (forall e w' t,
        Storage.mute_channel fs channel_id channel_title w = (Storage.Raised e, w', t) ->
        e = Storage.TypeError /\ w' = w /\ t = []
        /\ fst (Storage.load_muted_channels fs w) = Storage.Raised Storage.AttributeError)
  /\ (forall ok w' t,
        Storage.mute_channel fs channel_id channel_title w = (Storage.Returned ok, w', t) ->
        exists muted r,
          Storage.writes t
          = [(Storage.json_dumps fs (<[channel_id := Storage.json_str fs channel_title]> muted),
              r)]
          /\ (ok = true <-> r = Storage.Success tt)).
Proof.
  unfold Storage.mute_channel, Storage.load_muted_channels,
    Storage.load_muted_channels_dict, Storage.load_failed, Storage.save.
  destruct (Storage.os_path_exists fs w); cbn [negb].
  2:{ destruct (Storage.write fs _ w) as [[[]|e] w1]; cbn.
      all: split; [split; [intros [e' He']; discriminate|intros [? _]; discriminate]|].
      all: split; [intros; discriminate|].
      all: intros ok w' t H; injection H as <- <- <-; eexists _, _; split; [reflexivity|].
      all: split; congruence. }
  destruct (Storage.read fs w) as [text|e].
  2:{ assert (Hno : ~ exists text', @Storage.Failure Content e = Storage.Success text'
                                    /\ Storage.is_empty fs (Storage.strip fs text') = false
                                    /\ (Storage.json_loads fs (Storage.strip fs text')
                                        = Storage.Success Storage.Scalar
                                        \/ exists s,
                                             Storage.json_loads fs (Storage.strip fs text')
                                             = Storage.Success (Storage.Str s)))
        by (intros (? & ? & _); discriminate).
      destruct e; destruct (Storage.write fs _ w) as [[[]|e] w1]; cbn.
      all: split; [split; [intros [e' He']; discriminate|intros [_ H]; now destruct Hno]|].
      all: split; [intros; discriminate|].
      all: intros ok w' t H; injection H as <- <- <-; eexists _, _; split; [reflexivity|].
      all: split; congruence. }
  destruct (Storage.is_empty fs (Storage.strip fs text)) eqn:Eempty.
  { destruct (Storage.write fs _ w) as [[[]|e] w1]; cbn.
    all: split; [split; [intros [e' He']; discriminate
                        |intros [_ (text' & Ht & He & _)]; congruence]|].
    all: split; [intros; discriminate|].
    all: intros ok w' t H; injection H as <- <- <-; eexists _, _; split; [reflexivity|].
    all: split; congruence. }
  destruct (Storage.json_loads fs (Storage.strip fs text)) as [[d|l| | |s|]|e] eqn:Eloads.
  - destruct (Storage.write fs _ w) as [[[]|e] w1]; cbn.
    all: split; [split; [intros [e' He']; discriminate
                        |intros [_ (text' & Ht & _ & [Hs|[s Hs]])]; congruence]|].
    all: split; [intros; discriminate|].
    all: intros ok w' t H; injection H as <- <- <-; eexists _, _; split; [reflexivity|].
    all: split; congruence.
  - destruct (Storage.write fs _ w) as [[[]|e] w1]; cbn.
    all: split; [split; [intros [e' He']; discriminate
                        |intros [_ (text' & Ht & _ & [Hs|[s Hs]])]; congruence]|].
    all: split; [intros; discriminate|].
    all: intros ok w' t H; injection H as <- <- <-; eexists _, _; split; [reflexivity|].
    all: split; congruence.
  - destruct (Storage.write fs _ w) as [[[]|e] w1]; cbn.
    all: split; [split; [intros [e' He']; discriminate
                        |intros [_ (text' & Ht & _ & [Hs|[s Hs]])]; congruence]|].
    all: split; [intros; discriminate|].
    all: intros ok w' t H; injection H as <- <- <-; eexists _, _; split; [reflexivity|].
    all: split; congruence.
  - cbn. split; [split; [intros [e' He']; discriminate
                        |intros [_ (text' & Ht & _ & [Hs|[s Hs]])]; congruence]|].
    split; intros; discriminate.
  - cbn. split.
    { split; [intros _|intros _; eauto].
      split; [reflexivity|]. exists text. split; [reflexivity|]. split; [exact Eempty|].
      right. exists s. exact Eloads. }
    split; [|intros; discriminate].
    intros e w' t H. injection H as <- <- <-. auto.
  - cbn. split.
    { split; [intros _|intros _; eauto].
      split; [reflexivity|]. exists text. split; [reflexivity|]. split; [exact Eempty|].
      left. exact Eloads. }
    split; [|intros; discriminate].
    intros e w' t H. injection H as <- <- <-. auto.
  - destruct e; destruct (Storage.write fs _ w) as [[[]|e] w1]; cbn.
    all: split; [split; [intros [e' He']; discriminate
                        |intros [_ (text' & Ht & _ & [Hs|[s Hs]])]; congruence]|].
    all: split; [intros; discriminate|].
    all: intros ok w' t H; injection H as <- <- <-; eexists _, _; split; [reflexivity|].
    all: split; congruence.
Qed.

(** *** Durations *)

Lemma string_app_cons (x : ascii) (a b : string) :
  (String x a ++ b)%string = String x (a ++ b)%string.
Proof. reflexivity. Qed.

Lemma string_app_nil (b : string) : (EmptyString ++ b)%string = b.
Proof. reflexivity. Qed.

Lemma string_app_assoc (a b c : string) : ((a ++ b) ++ c = a ++ (b ++ c))%string.
Proof.
  induction a as [|x a IH]; [reflexivity|].
  rewrite !string_app_cons. now rewrite IH.
Qed.

Section DurationProperties.

Context (unicode_decimal : N -> option Z) (limit : nat).








End DurationProperties.



(** X18.  [parse_duration] returns 0 for every text that does not start
    with [PT]: the empty string, anything unrelated, and also an ISO 8601
    duration with a date part such as [P1DT2H]. *)
Theorem parse_duration_without_prefix (unicode_decimal : N -> option Z)
    (int_max_str_digits : nat) (duration : text) :
  (forall rest, duration <> text_of "PT" ++ rest) ->
  parse_duration unicode_decimal int_max_str_digits duration = Returns 0.
Proof.
  intros H. unfold parse_duration.
  destruct duration as [|c1 [|c2 rest]]; try reflexivity.
  destruct (N.eqb_spec c1 80) as [->|Hc1]; [|reflexivity].
  destruct (N.eqb_spec c2 84) as [->|Hc2]; [|reflexivity].
  now destruct (H rest).
Qed.

Lemma parse_duration_without_prefix_witness :
  (forall rest, text_of "P1DT2H" <> text_of "PT" ++ rest)
  /\ parse_duration arabic_indic 4300 (text_of "P1DT2H") = Returns 0.
Proof.
  assert (H : forall rest, text_of "P1DT2H" <> text_of "PT" ++ rest)
    by (intros rest; discriminate).
  split; [exact H|].
  exact (parse_duration_without_prefix arabic_indic 4300 (text_of "P1DT2H") H).
Defined.

(** The cases of [tests/test_services.py], in every Unicode database. *)
Example test_parse_duration (unicode_decimal : N -> option Z) :
  parse_duration unicode_decimal 4300 (text_of "PT1H2M10S") = Returns 3730
  /\ parse_duration unicode_decimal 4300 (text_of "PT1M") = Returns 60
  /\ parse_duration unicode_decimal 4300 (text_of "PT10S") = Returns 10
  /\ parse_duration unicode_decimal 4300 (text_of "") = Returns 0
  /\ parse_duration unicode_decimal 4300 (text_of "INVALID") = Returns 0.
Proof.
  repeat split; reflexivity.
Qed.

(** A digit of another script is a digit: [PT1H] followed by the
    Arabic-Indic three and [M] is one hour and three minutes. *)
Example parse_duration_arabic_indic :
  parse_duration arabic_indic 4300 (text_of "PT1H" ++ [1635%N] ++ text_of "M")
  = Returns 3780.
Proof. reflexivity. Qed.

(** *** Durations of videos *)

Lemma batches_cover {A : Type} (m : nat) :
  forall l : list A,
    (length l <= 50 * m)%nat ->
    concat (map (fun k => take 50 (drop (50 * k) l)) (seq 0 m)) = l.
Proof.
  induction m as [|m IH]; intros l Hlen.
  - destruct l; [reflexivity|simpl in Hlen; lia].
  - cbn [seq map concat]. rewrite <- seq_shift, map_map.
    rewrite Nat.mul_0_r, drop_0.
    transitivity (take 50 l ++ drop 50 l); [|apply take_drop]. f_equal.
    transitivity (concat (map (fun k => take 50 (drop (50 * k) (drop 50 l))) (seq 0 m)));
      [|apply IH; rewrite length_drop; lia].
    f_equal. apply map_ext. intros k. rewrite drop_drop. do 2 f_equal. lia.
Qed.

Lemma batch_starts_cover {A : Type} (l : list A) :
  concat (map (fun i => take 50 (drop i l)) (batch_starts (length l))) = l
  /\ Forall (fun i => 0 < length (take 50 (drop i l)) <= 50)%nat (batch_starts (length l)).
Proof.
  unfold batch_starts.
  pose proof (Nat.div_mod_eq (length l + 49) 50) as Hdiv.
  pose proof (Nat.mod_upper_bound (length l + 49) 50 ltac:(lia)) as Hmod.
  split.
  - rewrite map_map. apply batches_cover. lia.
  - apply Forall_forall. intros i Hi.
    apply list_elem_of_In, in_map_iff in Hi as (k & <- & Hk). apply in_seq in Hk.
    rewrite length_take, length_drop. lia.
Qed.

Section DurationsProperties.

Context {World : Type} (unicode_decimal : N -> option Z) (limit : nat)
  (videos_list : string -> World -> response (list VideoItem) * World).

Lemma store_durations_sound (items : list VideoItem) :
  forall durations stored e vid seconds,
    store_durations unicode_decimal limit items durations = (stored, e) ->
    stored !! vid = Some seconds ->
    durations !! vid = Some seconds
    \/ exists item,
         item ∈ items /\ vi_id item = vid
         /\ parse_duration unicode_decimal limit (vi_duration item) = Returns seconds.
Proof.
  induction items as [|item items IH]; intros durations stored e vid seconds; cbn.
  - intros H. injection H as <- _. auto.
  - destruct (parse_duration unicode_decimal limit (vi_duration item)) as [x|e'] eqn:Ep.
    + intros Hrun Hlook. destruct (IH _ _ _ _ _ Hrun Hlook) as [H|(it & Hin & Hid & Hp)].
      * destruct (decide (vi_id item = vid)) as [Heq|Hne].
        -- rewrite <- Heq, lookup_insert_eq in H. injection H as <-.
           right. exists item. split; [left|]. auto.
        -- rewrite lookup_insert_ne in H by exact Hne. now left.
      * right. exists it. split; [now right|]. auto.
    + intros H. injection H as <- _. auto.
Qed.

Lemma get_video_durations_loop_run (video_ids : list string) (starts : list nat) :
  forall durations w stored w' t,
    get_video_durations_loop unicode_decimal limit videos_list starts video_ids durations w
    = (stored, w', t) ->
    map fst (video_calls t)
    = map (fun i => String.concat "," (take 50 (drop i video_ids))) starts
    /\ forall vid seconds,
         stored !! vid = Some seconds ->
         durations !! vid = Some seconds
         \/ exists ids items item,
              (ids, Returns items) ∈ video_calls t
              /\ item ∈ items /\ vi_id item = vid
              /\ parse_duration unicode_decimal limit (vi_duration item) = Returns seconds.
Proof.
  induction starts as [|i starts IH]; intros durations w stored w' t;
    cbn [get_video_durations_loop].
  - intros H. injection H as <- _ <-. split; [reflexivity|auto].
  - destruct (videos_list (String.concat "," (take 50 (drop i video_ids))) w)
      as [r w1] eqn:Ecall.
    set (ids := String.concat "," (take 50 (drop i video_ids))) in *.
    assert (Hstep : forall durations1 errors,
               video_calls errors = [] ->
               (forall vid seconds,
                  durations1 !! vid = Some seconds ->
                  durations !! vid = Some seconds
                  \/ exists items item,
                       r = Returns items /\ item ∈ items /\ vi_id item = vid
                       /\ parse_duration unicode_decimal limit (vi_duration item) = Returns seconds) ->
               (let '(durations2, w2, t0) :=
                  get_video_durations_loop unicode_decimal limit videos_list starts video_ids durations1 w1
                in (durations2, w2, Call_videos_list ids r :: errors ++ t0))
               = (stored, w', t) ->
               map fst (video_calls t)
               = ids :: map (fun i => String.concat "," (take 50 (drop i video_ids))) starts
               /\ forall vid seconds,
                    stored !! vid = Some seconds ->
                    durations !! vid = Some seconds
                    \/ exists ids items item,
                         (ids, Returns items) ∈ video_calls t
                         /\ item ∈ items /\ vi_id item = vid
                         /\ parse_duration unicode_decimal limit (vi_duration item) = Returns seconds).
    { intros durations1 errors Herr Hd1.
      destruct (get_video_durations_loop unicode_decimal limit videos_list starts video_ids durations1 w1)
        as [[d2 w2] t0] eqn:Eloop.
      intros H. injection H as <- _ <-.
      destruct (IH _ _ _ _ _ Eloop) as [Hcalls Hsound].
      assert (Hvc : video_calls (Call_videos_list ids r :: errors ++ t0)
                    = (ids, r) :: video_calls t0).
      { change (video_calls (Call_videos_list ids r :: errors ++ t0))
          with ((ids, r) :: video_calls (errors ++ t0)).
        unfold video_calls at 1. rewrite omap_app. fold (video_calls errors).
        fold (video_calls t0). now rewrite Herr. }
      rewrite Hvc. split; [cbn; now rewrite Hcalls|].
      intros vid seconds Hlook.
      destruct (Hsound vid seconds Hlook) as [H|(ids' & items & item & Hin & H)].
      - destruct (Hd1 vid seconds H) as [H'|(items & item & -> & H')]; [now left|].
        right. exists ids, items, item. split; [left|]. exact H'.
      - right. exists ids', items, item. split; [now right|]. exact H. }
    destruct r as [items|e].
    + destruct (store_durations unicode_decimal limit items durations) as [stored1 [e|]] eqn:Estore.
      * apply Hstep; [reflexivity|]. intros vid seconds Hlook.
        destruct (store_durations_sound _ _ _ _ _ _ Estore Hlook) as [H|(item & H)];
          [now left|right; eauto].
      * apply Hstep; [reflexivity|]. intros vid seconds Hlook.
        destruct (store_durations_sound _ _ _ _ _ _ Estore Hlook) as [H|(item & H)];
          [now left|right; eauto].
    + apply Hstep; [reflexivity|]. auto.
Qed.

End DurationsProperties.

(** X19.  [get_video_durations] asks for the ids in batches: the requests
    name, in order, consecutive batches of the given list, each of one to
    fifty ids joined by commas, and together the batches are the whole
    list; a request that fails does not stop the later ones.  Every
    duration returned comes from an item of a response received: it is
    stored under the item's id and is [parse_duration] of the item's
    duration. *)
Theorem get_video_durations_batches {World : Type} (unicode_decimal : N -> option Z)
    (int_max_str_digits : nat)
    (videos_list : string -> World -> response (list VideoItem) * World)
    (video_ids : list string) (w w' : World) (durations : gmap string Z)
    (t : list duration_event) :
  get_video_durations unicode_decimal int_max_str_digits videos_list video_ids w = (durations, w', t) ->
  (exists batches,
     map fst (video_calls t) = map (String.concat ",") batches
     /\ concat batches = video_ids
     /\ Forall (fun batch => 0 < length batch <= 50)%nat batches)
  /\ forall vid seconds,
       durations !! vid = Some seconds ->
       exists ids items item,
         (ids, Returns items) ∈ video_calls t
         /\ item ∈ items /\ vi_id item = vid
         /\ parse_duration unicode_decimal int_max_str_digits (vi_duration item) = Returns seconds.
Proof.
  unfold get_video_durations. intros Hrun.
  destruct (get_video_durations_loop_run _ _ _ _ _ _ _ _ _ _ Hrun) as [Hcalls Hsound].
  destruct (batch_starts_cover video_ids) as [Hcover Hsize].
  split.
  - exists (map (fun i => take 50 (drop i video_ids)) (batch_starts (length video_ids))).
    split; [now rewrite Hcalls, map_map|]. split; [exact Hcover|].
    apply Forall_map. exact Hsize.
  - intros vid seconds Hlook.
    destruct (Hsound vid seconds Hlook) as [H|H]; [|exact H].
    rewrite lookup_empty in H. discriminate.
Qed.

Lemma get_video_durations_batches_witness :
  DemoDurations.durations_run
  = ({["vid1" := 3730]}, 3, snd DemoDurations.durations_run)
  /\ (exists batches,
        map fst (video_calls (snd DemoDurations.durations_run))
        = map (String.concat ",") batches
        /\ concat batches = DemoDurations.video_ids
        /\ Forall (fun batch => 0 < length batch <= 50)%nat batches)
  /\ forall vid seconds,
       ({["vid1" := 3730]} : gmap string Z) !! vid = Some seconds ->
       exists ids items item,
         (ids, Returns items) ∈ video_calls (snd DemoDurations.durations_run)
         /\ item ∈ items /\ vi_id item = vid
         /\ parse_duration arabic_indic 4300 (vi_duration item) = Returns seconds.
Proof.
  assert (Hrun : DemoDurations.durations_run
                 = ({["vid1" := 3730]}, 3, snd DemoDurations.durations_run))
    by (vm_compute; reflexivity).
  split; [exact Hrun|].
  exact (get_video_durations_batches arabic_indic 4300 DemoDurations.videos_list
           DemoDurations.video_ids 0 3 {["vid1" := 3730]}
           (snd DemoDurations.durations_run) Hrun).
Defined.

(** *** Further examples *)

(** A listing whose every page names a next page is cut by the bound of
    the model after as many requests as the bound allows. *)
Example get_user_playlists_endless :
  fst (fst DemoPages.endless_run) = OutOfFuel
  /\ length (listing_calls (snd DemoPages.endless_run)) = 5%nat.
Proof.
  split; vm_compute; reflexivity.
Qed.

(** With shorts included the short of [DemoShorts.youtube] is in the feed,
    newest first; excluded, one probe per recent item is made and the short
    is dropped. *)
Example get_feed_shorts_demo :
  fst (fst DemoShorts.unfiltered_run) = Ok [DemoShorts.short_entry; Demo.recent_entry]
  /\ fst (fst DemoShorts.filtered_run) = Ok [Demo.recent_entry]
  /\ map fst (head_calls (snd DemoShorts.filtered_run))
     = [shorts_url "vid1"; shorts_url "short1"].
Proof.
  repeat split; vm_compute; reflexivity.
Qed.

(** No file: nothing is muted.  A file that holds [null]: loading the set
    and muting both raise.  A file that cannot be written: muting returns
    [False]. *)
Example storage_demo :
  Storage.load_muted_channels DemoStorage.fs DemoStorage.fresh = (Storage.Returned ∅, [])
  /\ fst (Storage.load_muted_channels DemoStorage.fs DemoStorage.null_file)
     = Storage.Raised Storage.AttributeError
  /\ fst (fst (Storage.mute_channel DemoStorage.fs "UC9" "Nine" DemoStorage.null_file))
     = Storage.Raised Storage.TypeError
  /\ fst (Storage.mute_channel DemoStorage.fs "UC9" "Nine" read_only_disk)
     = (Storage.Returned false, read_only_disk).
Proof.
  repeat split; vm_compute; reflexivity.
Qed.
